(** * Unary iteration (cirq-ft notebooks): boolean-logic model and circuits

  The development follows [cirq_ft/algos/unary_iteration.ipynb] and
  [cirq_ft/algos/and_gate.ipynb].

  The first notebook builds, over sympy boolean expressions, the "total
  control" construction and the recursive segment tree; both are Python
  functions that mutate a list in place.  They are embedded as functions in
  a state-and-exception monad over a store that holds the two lists and the
  text written to standard output.

  The notebooks then move to circuits: the And gate, a circuit for [L = 4]
  written out by hand, and [ApplyXToLthQubit], a subclass of the unary
  iteration gate.  Circuits are lists of operations, simulated on
  computational-basis states.  The And gate, the selection register and the
  recursive builder are imported by the notebooks from [cirq_ft]; their
  definitions here are marked as modelled from the spec. *)

From Stdlib Require Import ZArith List Bool Lia String.
From stdpp Require Import base numbers list.
Import ListNotations.

Local Open Scope Z_scope.

(** ** sympy boolean expressions *)

Module Sympy.

(** The fragment of [sympy.logic.boolalg] the notebook builds.  sympy
    rewrites an expression while it constructs it ([And(true, x)] is [x],
    [Xor(false, x)] is [x], nested [And] is flattened); the constructors
    below keep the expression as the code wrote it, and statements about
    expressions are made through [eval], which those rewrites preserve. *)
#[warnings="-register-all"]
Inductive bexp : Type :=
| BConst (b : bool)          (* S.true, S.false; Python 0, 1, False, True *)
| BSym (i : nat)             (* S.Symbol(f's{i}') *)
| BNot (e : bexp)            (* slb.Not(e) *)
| BAnd (es : list bexp)      (* slb.And( *es ) *)
| BXor (e1 e2 : bexp)        (* e1 ^ e2 *)
| BXnor (e1 e2 : bexp).      (* slb.Xnor(e1, e2) *)

(** Truth value of an expression under an assignment of the symbols. *)
Fixpoint eval (rho : nat -> bool) (e : bexp) : bool :=
  match e with
  | BConst b => b
  | BSym i => rho i
  | BNot e => negb (eval rho e)
  | BAnd es => forallb (eval rho) es
  | BXor e1 e2 => xorb (eval rho e1) (eval rho e2)
  | BXnor e1 e2 => Bool.eqb (eval rho e1) (eval rho e2)
  end.

(** [[S.Symbol(f's{i}') for i in range(w)]] *)
Definition symbols (w : nat) : list bexp := map BSym (seq 0 w).

End Sympy.
Export Sympy.

(** ** Python lists, exceptions and the store *)

Module Py.

Inductive exn : Type := AssertionError | IndexError.

(** Position that the subscript [l[i]] denotes: Python counts a negative
    subscript from the end and raises IndexError outside
    [-len(l) <= i < len(l)]. *)
Definition py_index {A} (l : list A) (i : Z) : option nat :=
  let n := Z.of_nat (length l) in
  if (0 <=? i) && (i <? n) then Some (Z.to_nat i)
  else if (- n <=? i) && (i <? 0) then Some (Z.to_nat (n + i))
  else None.

Definition getitem {A} (l : list A) (i : Z) : option A :=
  match py_index l i with
  | Some k => l !! k
  | None => None
  end.

Definition setitem {A} (l : list A) (i : Z) (v : A) : option (list A) :=
  match py_index l i with
  | Some k => Some (<[k:=v]> l)
  | None => None
  end.

(** What [segtree] writes to standard output.  The leaf message of the
    notebook also shows the module-level variable [n] left over from an
    earlier cell; that field is not recorded. *)
Inductive event : Type :=
| PNode (depth left right : Z)  (* print(f'depth=.. left=.. right=..', end=' ') *)
| PLeaf (ctrl : bexp)           (* print(f'n={n} ctrl={ctrl}') *)
| PNewline.                     (* print() *)

(** The two list objects the functions receive and the output so far.
    [selection] and [target] are distinct lists, as at every call in the
    notebook, where [target] is created afresh before each run. *)
Record store : Type := mkStore {
  selection : list bexp;
  target : list bexp;
  stdout : list event
}.

(** Result of running a piece of code: it returns, or raises with the
    store as it was at that moment (the writes made so far persist).
    [Diverges] is what the bounded recursion below gives when its bound is
    used up. *)
Inductive outcome (A : Type) : Type :=
| Returns (a : A) (s : store)
| Raises (e : exn) (s : store)
| Diverges.
Arguments Returns {A} a s.
Arguments Raises {A} e s.
Arguments Diverges {A}.

Definition M (A : Type) : Type := store -> outcome A.

Definition ret {A} (a : A) : M A := fun s => Returns a s.

Definition bind {A B} (m : M A) (k : A -> M B) : M B :=
  fun s =>
    match m s with
    | Returns a s' => k a s'
    | Raises e s' => Raises e s'
    | Diverges => Diverges
    end.

Definition raise {A} (e : exn) : M A := fun s => Raises e s.

Definition assert (b : bool) : M unit :=
  if b then ret tt else raise AssertionError.

Definition print (ev : event) : M unit :=
  fun s => Returns tt (mkStore (selection s) (target s) (stdout s ++ [ev])).

(** [len(selection)] *)
Definition len_selection : M Z :=
  fun s => Returns (Z.of_nat (length (selection s))) s.

(** The list [selection] itself, to iterate over. *)
Definition the_selection : M (list bexp) :=
  fun s => Returns (selection s) s.

(** [selection[i]] *)
Definition read_selection (i : Z) : M bexp :=
  fun s =>
    match getitem (selection s) i with
    | Some e => Returns e s
    | None => Raises IndexError s
    end.

(** [target[i]] *)
Definition read_target (i : Z) : M bexp :=
  fun s =>
    match getitem (target s) i with
    | Some e => Returns e s
    | None => Raises IndexError s
    end.

(** [target[i] = v] *)
Definition write_target (i : Z) (v : bexp) : M unit :=
  fun s =>
    match setitem (target s) i v with
    | Some t' => Returns tt (mkStore (selection s) t' (stdout s))
    | None => Raises IndexError s
    end.

(** [for x in l: body(x)] *)
Fixpoint for_each {A} (l : list A) (body : A -> M unit) : M unit :=
  match l with
  | [] => ret tt
  | x :: l' => bind (body x) (fun _ => for_each l' body)
  end.

(** [enumerate(l, start)] *)
Fixpoint enumerate_from {A} (start : Z) (l : list A) : list (Z * A) :=
  match l with
  | [] => []
  | x :: l' => (start, x) :: enumerate_from (start + 1) l'
  end.

Definition enumerate {A} (l : list A) : list (Z * A) := enumerate_from 0 l.

(** [itertools.product(pool, repeat=k)], by the recipe of the library's
    documentation: [result = [x + [y] for x in result for y in pool]],
    once per repetition, starting from [[[]]]. *)
Fixpoint product_repeat {A} (pool : list A) (k : nat) : list (list A) :=
  match k with
  | O => [[]]
  | S k' =>
      flat_map (fun x => map (fun y => x ++ [y]) pool) (product_repeat pool k')
  end.

End Py.
Export Py.

Declare Scope py_scope.
Delimit Scope py_scope with py.
Notation "x <- m ;; k" := (bind m (fun x => k))
(at level 100, m at next level, right associativity) : py_scope.
Notation "m ;; k" := (bind m (fun _ => k))
(at level 100, right associativity) : py_scope.

(** ** The notebook's two constructions over sympy expressions *)

Module UnaryIteration.

Local Open Scope py_scope.

(** [total_control(selection, target)]: for the [n]-th bit pattern
    [trial] of [itertools.product((0, 1), repeat=len(selection))],
    [target[n] ^= And( *[Xnor(s, t) for s, t in zip(selection, trial)])].
    The function's progress messages are not recorded. *)
Definition total_control_step (nt : Z * list bool) : M unit :=
  let '(n, trial) := nt in
  t <- read_target n ;;
  sel <- the_selection ;;
  write_target n (BXor t (BAnd (zip_with BXnor sel (map BConst trial)))).

Definition total_control : M unit :=
  sel <- the_selection ;;
  for_each (enumerate (product_repeat [false; true] (length sel)))
    total_control_step.

(** [segtree(ctrl, selection, target, depth, left, right)].  Every
    recursive call is made with [depth + 1] and an inner node asserts
    [depth < len(selection)], so [len(selection) - depth] bounds the
    height of the recursion; [segtree_rec] recurses on such a bound. *)
Fixpoint segtree_rec (fuel : nat) (ctrl : bexp) (depth left right : Z)
  : M unit :=
  match fuel with
  | O => fun _ => Diverges
  | S fuel' =>
      print (PNode depth left right) ;;
      if left =? right - 1 then
        (* Leaf of the recursion. *)
        print (PLeaf ctrl) ;;
        t <- read_target left ;;
        write_target left (BXor t ctrl)
      else
        print PNewline ;;
        n <- len_selection ;;
        assert (depth <? n) ;;
        let mid := Z.shiftr (left + right) 1 in
        (* Recurse left interval *)
        s <- read_selection depth ;;
        let new_ctrl := BAnd [ctrl; BNot s] in
        segtree_rec fuel' new_ctrl (depth + 1) left mid ;;
        (* Recurse right interval *)
        s <- read_selection depth ;;
        let new_ctrl := BAnd [ctrl; s] in
        segtree_rec fuel' new_ctrl (depth + 1) mid right
  end.

(** The function itself: the bound is taken from the store at the call. *)
Definition segtree (ctrl : bexp) (depth left right : Z) : M unit :=
  fun s =>
    segtree_rec
      (S (Z.to_nat (Z.of_nat (length (selection s)) - depth)))
      ctrl depth left right s.

End UnaryIteration.
Export UnaryIteration.

(** * Reversible circuits on computational-basis states *)

Module Circuit.

(** [cirq.LineQubit(i)]: the [i]-th entry of a state list. *)
Abbreviation qubit := nat (only parsing).

(** A computational-basis state gives every qubit a value, as the lists
    [initial_state = [1, 0, 0, ...]] of the notebooks do. *)
Abbreviation basis := (list bool) (only parsing).

(** Operations of the circuits in the notebooks:
    [And(cv, adjoint=..).on( *controls, target)] and
    [cirq.CNOT(control, target)] (also written [cirq.CX]). *)
Inductive op : Type :=
| And (cv : list bool) (adjoint : bool) (controls : list qubit) (target : qubit)
| CNOT (control target : qubit).

(** Whether every control holds its control value. *)
Fixpoint and_value (cv : list bool) (controls : list qubit) (st : basis)
  : option bool :=
  match cv, controls with
  | [], [] => Some true
  | v :: cv', c :: controls' =>
      match st !! c, and_value cv' controls' st with
      | Some b, Some r => Some (Bool.eqb b v && r)
      | _, _ => None
      end
  | _, _ => None
  end.

(** Modelled from the spec: the And gate of [cirq_ft.algos.and_gate], which
    the notebooks import and test but whose code is not among the sources.
    On a basis state the forward gate takes a target that holds 0 and
    leaves in it the conjunction of [control == control value] over the
    controls; the adjoint takes a target that holds that conjunction and
    returns it to 0.  Controls are unchanged.  Outside these preconditions
    the spec promises nothing and the model gives [None].  For more than
    two controls the spec chains pairwise And units over intermediate
    lines; only the value that reaches the target is modelled. *)
Definition apply_and (cv : list bool) (adjoint : bool)
    (controls : list qubit) (target : qubit) (st : basis) : option basis :=
  if existsb (Nat.eqb target) controls then None
  else
    match and_value cv controls st, st !! target with
    | Some v, Some t =>
        if adjoint then
          if Bool.eqb t v then Some (<[target := false]> st) else None
        else
          if t then None else Some (<[target := v]> st)
    | _, _ => None
    end.

(** [cirq.CNOT(control, target)] on a basis state. *)
Definition apply_cnot (control target : qubit) (st : basis) : option basis :=
  if Nat.eqb control target then None
  else
    match st !! control, st !! target with
    | Some c, Some t => Some (<[target := xorb t c]> st)
    | _, _ => None
    end.

Definition apply_op (o : op) (st : basis) : option basis :=
  match o with
  | And cv adjoint controls target => apply_and cv adjoint controls target st
  | CNOT control target => apply_cnot control target st
  end.

(** Simulation of a circuit from a basis state, operation by operation. *)
Fixpoint run (ops : list op) (st : basis) : option basis :=
  match ops with
  | [] => Some st
  | o :: ops' =>
      match apply_op o st with
      | Some st' => run ops' st'
      | None => None
      end
  end.

(** Number of forward And operations in a circuit. *)
Fixpoint count_and (ops : list op) : nat :=
  match ops with
  | [] => 0
  | And _ false _ _ :: ops' => S (count_and ops')
  | _ :: ops' => count_and ops'
  end.

(** The circuit for [L = 4] that the unary-iteration notebook writes out by
    hand over [qubits = cirq.LineQubit(0).range(9)]: control 0, selection
    1 and 3, helper lines 2 and 4, target 5..8. *)
Definition notebook_circuit : list op :=
  [ And [true; false] false [0; 1] 2;
    And [true; false] false [2; 3] 4;
    CNOT 4 8;
    CNOT 2 4;
    CNOT 4 7;
    And [true; true] true [2; 3] 4;
    CNOT 0 2;
    And [true; false] false [2; 3] 4;
    CNOT 4 6;
    CNOT 2 4;
    CNOT 4 5;
    And [true; true] true [2; 3] 4;
    And [true; true] true [0; 1] 2 ]%nat.

(** [ApplyXToLthQubit.nth_operation]:
    [cirq.CNOT(control, target[-(selection + 1)])].  [None] stands for an
    exception: the IndexError of the subscript, or the ValueError with
    which [cirq.CNOT] refuses the same qubit as control and as target. *)
Definition apply_x_nth_operation (target : list qubit)
    (control : qubit) (selection : Z) : option (list op) :=
  match getitem target (- (selection + 1)) with
  | Some t => if Nat.eqb control t then None else Some [CNOT control t]
  | None => None
  end.

(** Conditions of the error taxonomy. *)
Inductive condition : Type :=
| InvalidArity | InvalidBounds | Uninvertible | IndexOutOfRange.

(** Modelled from the spec: the SelectionRegister of [cirq_ft], which the
    notebooks construct as [SelectionRegister(name, bitsize,
    iteration_length)] but whose code is not among the sources.  An
    iteration length outside [(0, 2^bitsize]] is InvalidBounds, raised at
    construction. *)
Record SelectionRegister : Type := mkSelectionRegister {
  reg_name : String.string;
  bitsize : nat;
  iteration_length : Z
}.

Definition selection_register (name : String.string) (bitsize : nat)
    (iteration_length : Z) : condition + SelectionRegister :=
  if (0 <? iteration_length) && (iteration_length <=? 2 ^ Z.of_nat bitsize)
  then inr (mkSelectionRegister name bitsize iteration_length)
  else inl InvalidBounds.

Section Builder.

Variable selection ancilla : list qubit.
Variable L : Z.
Variable nth_operation : qubit -> Z -> option (list op).

(** Modelled from the spec: the recursive builder of the selection network
    ([UnaryIterationGate] of [cirq_ft], which the notebook subclasses but
    whose code is not among the sources), with recursion state
    [(active_control, depth, left, right)].  A leaf [left < L] emits the
    per-index operation under [active]; a leaf [left >= L] emits nothing.
    An inner node with [mid >= L] continues into [[left, mid)] with
    [active] itself.  Any other inner node takes the helper line of its
    level: a forward And leaves [active and not selection[depth]] in it for
    [[left, mid)], a CNOT from [active] turns that into
    [active and selection[depth]] for [[mid, right)], and an adjoint And
    returns the line to zero.  This is the variant with one helper line per
    level and the bit flip between the two branches, the shape of
    [notebook_circuit].  [k] counts the levels left under the depth bound;
    [None] stands for a network that cannot be built: the bound is
    exceeded, a level has no line, or the callback fails. *)
Fixpoint build_rec (k : nat) (active : qubit) (depth : nat) (left right : Z)
  : option (list op) :=
  if right - left =? 1 then
    if left <? L then nth_operation active left else Some []
  else
    match k with
    | O => None
    | S k' =>
        let mid := (left + right) / 2 in
        if L <=? mid then build_rec k' active (depth + 1) left mid
        else
          match selection !! depth, ancilla !! depth with
          | Some sel, Some anc =>
              match build_rec k' anc (depth + 1) left mid,
                    build_rec k' anc (depth + 1) mid right with
              | Some ops_left, Some ops_right =>
                  Some ([And [true; false] false [active; sel] anc]
                          ++ ops_left
                          ++ [CNOT active anc]
                          ++ ops_right
                          ++ [And [true; true] true [active; sel] anc])
              | _, _ => None
              end
          | _, _ => None
          end
    end.

(** The network for the whole range, from [(control, 0, 0, 2^w)]. *)
Definition build (control : qubit) : option (list op) :=
  build_rec (length selection) control 0 0 (2 ^ Z.of_nat (length selection)).

End Builder.

(** [decompose] of the network over a constructed selection register. *)
Definition decompose (reg : SelectionRegister) (control : qubit)
    (selection ancilla : list qubit)
    (nth_operation : qubit -> Z -> option (list op)) : option (list op) :=
  if Nat.eqb (length selection) (bitsize reg) then
    build selection ancilla (iteration_length reg) nth_operation control
  else None.

End Circuit.
Export Circuit.

(** * The total-control circuit *)

Module TotalControl.

(** [cirq.X.controlled(num_controls=.., control_values=..).on( *qubits)]:
    the first [num_controls] qubits are the controls, the one after them
    is the qubit the X acts on. *)
Record controlled_x : Type := ControlledX {
  num_controls : nat;
  control_values : list bool;
  qubits : list qubit
}.

(** That operation on a basis state: the X is applied when every control
    holds its control value.  An operation whose qubits repeat, whose
    control values are not as many as its controls, or which has not
    exactly one qubit after the controls, cannot be built. *)
Definition apply_controlled_x (o : controlled_x) (st : basis) : option basis :=
  if bool_decide (NoDup (qubits o)) then
    match drop (num_controls o) (qubits o) with
    | [t] =>
        let controls := take (num_controls o) (qubits o) in
        match and_value (control_values o) controls st, st !! t with
        | Some v, Some b => Some (if v then <[t := negb b]> st else st)
        | _, _ => None
        end
    | _ => None
    end
  else None.

Fixpoint run_controlled (ops : list controlled_x) (st : basis)
  : option basis :=
  match ops with
  | [] => Some st
  | o :: ops' =>
      match apply_controlled_x o st with
      | Some st' => run_controlled ops' st'
      | None => None
      end
  end.

Section TotallyControlledNot.

(** [iter_bits(val, width)] of [cirq_ft.infra.bit_tools], which the notebook
    imports; [None] when it raises. *)
Variable iter_bits : Z -> nat -> option (list bool).

(** The fields [_selection_bitsize], [_target_bitsize], [_control_bitsize]. *)
Variables selection_bitsize target_bitsize control_bitsize : nat.

(** One round of the loop of [decompose_from_registers]:
    [cirq.X.controlled(num_controls, control_values).on( *control,
    *selection, target[-(target_bit + 1)])]. *)
Definition controlled_not (control selection target : list qubit)
    (target_bit : Z) : option controlled_x :=
  let num_controls := (control_bitsize + selection_bitsize)%nat in
  match iter_bits target_bit selection_bitsize with
  | Some bit_pattern =>
      let control_values := replicate control_bitsize true ++ bit_pattern in
      match getitem target (- (target_bit + 1)) with
      | Some t =>
          Some (ControlledX num_controls control_values
                  (control ++ selection ++ [t]))
      | None => None
      end
  | None => None
  end.

(** [TotallyControlledNot.decompose_from_registers]: the operations for
    [target_bit in range(target_bitsize)], or [None] when a round raises. *)
Definition decompose_from_registers (control selection target : list qubit)
  : option (list controlled_x) :=
  mapM (controlled_not control selection target)
       (Z.of_nat <$> seq 0 target_bitsize).

End TotallyControlledNot.

End TotalControl.
Export TotalControl.

(** * A gate with registers *)

Module GateWithRegisters.

(** [MyGate.decompose_from_registers(context, control, target)] of the
    notebook on gates with registers: two assertions on the sizes of the
    registers, then a CNOT for every pair of a control and a target qubit,
    controls in the outer loop. *)
Definition my_gate_decompose (control target : list qubit) : exn + list op :=
  if negb (Nat.eqb (length control) 2) then inl AssertionError
  else if negb (Nat.eqb (length target) 3) then inl AssertionError
  else inr (c ← control; t ← target; [CNOT c t]).

End GateWithRegisters.
Export GateWithRegisters.

(** * T complexity of the And gate *)

(** [range(a, b)] *)
Definition range (a b : Z) : list Z :=
  (fun i : nat => a + Z.of_nat i) <$> seq 0 (Z.to_nat (b - a)).

Module TComplexity.

Section Generate.

(** [t_complexity(And(cv=(1, )*n).on_registers(..)).t]: the T count that the
    library reports for an And of [n] controls; [None] when the gate cannot
    be built or counted. *)
Variable and_t_count : Z -> option Z.

(** The loop of [Generate], with the two lists it appends to. *)
Fixpoint generate_loop (ns : list Z) (n_controls t_count : list Z)
  : option (list Z * list Z) :=
  match ns with
  | [] => Some (n_controls, t_count)
  | n :: ns' =>
      let n_controls := n_controls ++ [n] in
      match and_t_count n with
      | Some t => generate_loop ns' n_controls (t_count ++ [t])
      | None => None
      end
  end.

(** [Generate(n_max)] *)
Definition Generate (n_max : Z) : option (list Z * list Z) :=
  generate_loop (range 2 (n_max + 2)) [] [].

End Generate.

End TComplexity.
Export TComplexity.

(** * Phase estimation *)

Module PhaseEstimation.

Section PhaseEstimation.

(** Walk operators, and [walk ** 2]. *)
Variable W : Type.
Variable square : W -> W.

(** The operations that [phase_estimation] yields.  The qubit
    [cirq.q(f'm_{i}')], which is [m_qubits[i]], is written [i]. *)
Inductive pe_op : Type :=
| StatePrep (m : Z) (m_qubits : list Z)
    (* StatePreparationChannel(get_resource_state(m)).on( *m_qubits) *)
| WalkControlled (walk : W) (control : Z)
    (* walk.controlled(control_values=[1]).on_registers(.., control=..) *)
| ReflectControlled (walk : W) (control : Z)
    (* walk.reflect.controlled(control_values=[0]).on_registers(control=..) *)
| Walk (walk : W)
    (* walk.on_registers( **walk_regs) *)
| InverseQFT (m_qubits : list Z).
    (* cirq.qft( *m_qubits, inverse=True) *)

(** The loop [for i in range(1, m)]: the reflection is that of the walk
    operator of the call, [walk0]; [walk] is the loop's variable. *)
Fixpoint rounds (walk0 : W) (rest : list Z) (walk : W) : list pe_op :=
  match rest with
  | [] => []
  | i :: rest' =>
      ReflectControlled walk0 i :: Walk walk :: ReflectControlled walk0 i
        :: rounds walk0 rest' (square walk)
  end.

(** [phase_estimation(walk, m)]: the operations yielded, or [None] when
    [m_qubits[0]] does not exist. *)
Definition phase_estimation (walk : W) (m : Z) : option (list pe_op) :=
  let m_qubits := range 0 m in
  match getitem m_qubits 0 with
  | Some q0 =>
      Some (StatePrep m m_qubits :: WalkControlled walk q0
              :: rounds walk (range 1 m) walk ++ [InverseQFT m_qubits])
  | None => None
  end.

End PhaseEstimation.

Arguments StatePrep {W}.
Arguments WalkControlled {W}.
Arguments ReflectControlled {W}.
Arguments Walk {W}.
Arguments InverseQFT {W}.
Arguments rounds {W}.
Arguments phase_estimation {W}.

End PhaseEstimation.
Export PhaseEstimation.

(** * Vocabulary of the statements *)

(** ** Outcomes *)

(** [post o Q]: whatever store the outcome ends in satisfies [Q]. *)
Definition post {A} (o : outcome A) (Q : store -> Prop) : Prop :=
  match o with
  | Returns _ s => Q s
  | Raises _ s => Q s
  | Diverges => True
  end.

(** Two runs [agree] when they end alike, and do end. *)
Definition agree {A} (o1 o2 : outcome A) : Prop :=
  o1 = o2 /\ o1 <> Diverges.

(** ** Stores before and after a call *)

(** [frame left right s s']: from [s] to [s'] the list [selection] is the
    same, [target] keeps its length and its entries outside
    [[left, right)], and the output has only grown. *)
Definition frame (left right : Z) (s s' : store) : Prop :=
  selection s' = selection s /\
  length (target s') = length (target s) /\
  (forall i : nat, Z.of_nat i < left \/ right <= Z.of_nat i ->
     target s' !! i = target s !! i) /\
  exists out, stdout s' = stdout s ++ out.

(** [node_ok w ev]: a node message shows a depth [d] within [0, w] and an
    interval of [2^(w - d)] indices. *)
Definition node_ok (w : Z) (ev : event) : Prop :=
  match ev with
  | PNode d l r => 0 <= d <= w /\ r - l = 2 ^ (w - d)
  | _ => True
  end.

(** [logged w s s']: [s'] differs from [s] by target writes and by output
    whose node messages are all [node_ok]. *)
Definition logged (w : Z) (s s' : store) : Prop :=
  selection s' = selection s /\
  exists out, stdout s' = stdout s ++ out /\ Forall (node_ok w) out.

(** The run ends, by a return or by an IndexError, in a store with [Q]. *)
Definition ends_ok {A} (o : outcome A) (Q : store -> Prop) : Prop :=
  match o with
  | Returns _ s => Q s
  | Raises IndexError s => Q s
  | _ => False
  end.

(** ** Binary digits and control expressions *)

(** The [w] low binary digits of [n], most significant first: the order in
    which [itertools.product((0, 1), repeat=w)] enumerates bit patterns and
    in which [iter_bits(n, w)] yields them. *)
Fixpoint bits_be (w : nat) (n : Z) : list bool :=
  match w with
  | O => []
  | S w' => Z.testbit n (Z.of_nat w') :: bits_be w' n
  end.

(** Control expression that reaches the leaf at offset [off] of a subtree
    whose root holds [ctrl] and whose levels read the entries [sels] of
    [selection]: the left half adds [Not(s)], the right half adds [s]. *)
Fixpoint leaf_ctrl (ctrl : bexp) (sels : list bexp) (off : Z) : bexp :=
  match sels with
  | [] => ctrl
  | s :: sels' =>
      let h := 2 ^ Z.of_nat (length sels') in
      if off <? h then leaf_ctrl (BAnd [ctrl; BNot s]) sels' off
      else leaf_ctrl (BAnd [ctrl; s]) sels' (off - h)
  end.

(** The expression [total_control] xors into its [n]-th target for the bit
    pattern [trial]. *)
Definition total_control_expr (sel : list bexp) (trial : list bool) : bexp :=
  BAnd (zip_with BXnor sel (map BConst trial)).

(** ** Circuits and their states *)

(** The activation line of a node at [depth]: the outer control, or the
    helper line of a level above. *)
Definition active_at (control : qubit) (ancilla : list qubit)
    (depth : nat) (active : qubit) : Prop :=
  active = control \/ exists j, (j < depth)%nat /\ ancilla !! j = Some active.

(** A state as a node at [depth] with [k] levels below finds it: the helper
    lines from [depth] on hold 0 and the selection lines from [depth] on
    hold the [k] binary digits of [m]. *)
Definition node_state (N : nat) (selection ancilla : list qubit)
    (depth k : nat) (m : Z) (st : basis) : Prop :=
  length st = N /\
  (forall j q, (depth <= j)%nat -> ancilla !! j = Some q ->
     st !! q = Some false) /\
  (forall j q, (j < k)%nat -> selection !! (depth + j)%nat = Some q ->
     st !! q = Some (Z.testbit m (Z.of_nat (k - 1 - j)))).

(** Input of the notebook's check of that circuit: control on, selection
    qubits 1 and 3 holding the two digits of the index, all else 0. *)
Definition notebook_input (b0 b1 : bool) : basis :=
  [true; b0; false; b1; false; false; false; false; false].

(** [ApplyXToLthQubit(3, 5)] over control 0, selection 1, 3, 5, helper
    lines 2, 4, 6 and target 7..11, and the state the notebook's loop
    prepares for the index [n]. *)
Definition apply_x_circuit : option (list op) :=
  build [1; 3; 5]%nat [2; 4; 6]%nat 5
    (apply_x_nth_operation [7; 8; 9; 10; 11]%nat) 0%nat.

Definition apply_x_input (n : Z) : basis :=
  match bits_be 3 n with
  | [b0; b1; b2] =>
      [true; b0; false; b1; false; b2; false;
       false; false; false; false; false]
  | _ => []
  end.

(** What the notebook's loop expects of index [i]: the target qubit
    [target[-(i + 1)]] is flipped. *)
Definition flip_target (target : list qubit) (i : Z) (st : basis) : basis :=
  match getitem target (- (i + 1)) with
  | Some t =>
      match st !! t with
      | Some b => <[t := negb b]> st
      | None => st
      end
  | None => st
  end.

(** ** Values of selectors and of registers *)

(** Number whose binary digits, most significant first, are [bs]: the value
    a selector holds. *)
Definition of_bits (bs : list bool) : Z :=
  fold_left (fun acc b => 2 * acc + Z.b2z b) bs 0.

(** Number of expressions of [cs] that hold under [rho]. *)
Definition hot (rho : nat -> bool) (cs : list bexp) : nat :=
  length (List.filter (eval rho) cs).

(** Number of node messages and of leaf messages in an output. *)
Definition nodes_printed (out : list event) : Z :=
  Z.of_nat (length (List.filter
    (fun ev => match ev with PNode _ _ _ => true | _ => false end) out)).

Definition leaves_printed (out : list event) : Z :=
  Z.of_nat (length (List.filter
    (fun ev => match ev with PLeaf _ => true | _ => false end) out)).

(** [holds st qs bs]: the qubits [qs] hold the values [bs] in [st]. *)
Definition holds (st : basis) (qs : list qubit) (bs : list bool) : Prop :=
  Forall2 (fun (q : qubit) (b : bool) => st !! q = Some b) qs bs.

(** Parity of a list of bits. *)
Definition parity (bs : list bool) : bool := foldr xorb false bs.

(** Applications of the walk operator in a circuit of [phase_estimation],
    each counted with the number [power] gives its operator. *)
Fixpoint queries {W} (power : W -> Z) (ops : list (pe_op W)) : Z :=
  match ops with
  | [] => 0
  | WalkControlled walk _ :: ops' => power walk + queries power ops'
  | Walk walk :: ops' => power walk + queries power ops'
  | _ :: ops' => queries power ops'
  end.

(** * Proofs *)

(** ** Reasoning about outcomes *)

Lemma post_bind {A B} (m : M A) (k : A -> M B) (s : store)
    (Q1 Q : store -> Prop) :
  post (m s) Q1 ->
  (forall s1, Q1 s1 -> Q s1) ->
  (forall a s1, Q1 s1 -> post (k a s1) Q) ->
  post (bind m k s) Q.
Proof.
  unfold bind. destruct (m s) as [a s1|e s1|]; simpl; auto.
Qed.

(** ** Subscripts within the list *)

Lemma py_index_range {A} (l : list A) (i : Z) :
  0 <= i < Z.of_nat (length l) -> py_index l i = Some (Z.to_nat i).
Proof.
  intros [H0 H1]. unfold py_index.
  apply Z.leb_le in H0. apply Z.ltb_lt in H1. now rewrite H0, H1.
Qed.

Lemma getitem_range {A} (l : list A) (i : Z) :
  0 <= i < Z.of_nat (length l) -> getitem l i = l !! Z.to_nat i.
Proof. intros H. unfold getitem. now rewrite py_index_range. Qed.

Lemma setitem_range {A} (l : list A) (i : Z) (v : A) :
  0 <= i < Z.of_nat (length l) ->
  setitem l i v = Some (<[Z.to_nat i := v]> l).
Proof. intros H. unfold setitem. now rewrite py_index_range. Qed.

Lemma getitem_nat {A} (l : list A) (k : nat) (x : A) :
  l !! k = Some x -> getitem l (Z.of_nat k) = Some x.
Proof.
  intros H. rewrite getitem_range.
  - now rewrite Nat2Z.id.
  - apply lookup_lt_Some in H. lia.
Qed.

(** [mid = (left + right) >> 1] lies strictly inside an interval of two or
    more indices. *)
Lemma mid_inside (left right : Z) :
  left < right -> left <> right - 1 ->
  left < Z.shiftr (left + right) 1 < right.
Proof.
  intros Hlt Hne. rewrite Z.shiftr_div_pow2 by lia.
  change (2 ^ 1) with 2.
  pose proof (Z.div_mod (left + right) 2 ltac:(lia)).
  pose proof (Z.mod_pos_bound (left + right) 2 ltac:(lia)). lia.
Qed.

Lemma mid_pow2 (left : Z) (k : nat) :
  Z.shiftr (left + (left + 2 ^ Z.of_nat (S k))) 1 = left + 2 ^ Z.of_nat k.
Proof.
  rewrite Z.shiftr_div_pow2 by lia. change (2 ^ 1) with 2.
  rewrite Nat2Z.inj_succ, Z.pow_succ_r by lia.
  replace (left + (left + 2 * 2 ^ Z.of_nat k))
    with ((left + 2 ^ Z.of_nat k) * 2) by lia.
  apply Z.div_mul. lia.
Qed.

(** ** What a call of [segtree] leaves untouched *)

Lemma frame_trans l1 r1 l2 r2 left right s s1 s2 :
  frame l1 r1 s s1 -> frame l2 r2 s1 s2 ->
  left <= l1 -> r1 <= right -> left <= l2 -> r2 <= right ->
  frame left right s s2.
Proof.
  intros (Hs1 & Hl1 & Ht1 & o1 & Ho1) (Hs2 & Hl2 & Ht2 & o2 & Ho2) ? ? ? ?.
  repeat split.
  - congruence.
  - congruence.
  - intros i Hi. rewrite Ht2 by lia. apply Ht1. lia.
  - exists (o1 ++ o2). rewrite Ho2, Ho1. now rewrite app_assoc.
Qed.

Lemma frame_stdout left right s out :
  frame left right s (mkStore (selection s) (target s) (stdout s ++ out)).
Proof. repeat split; auto. now exists out. Qed.

Lemma frame_print left right s ev :
  frame left right s (mkStore (selection s) (target s) (stdout s ++ [ev])).
Proof. repeat split; auto. now exists [ev]. Qed.

Lemma segtree_rec_frame fuel :
  forall ctrl depth left right s,
    0 <= left -> left < right <= Z.of_nat (length (target s)) ->
    post (segtree_rec fuel ctrl depth left right s) (frame left right s).
Proof.
  induction fuel as [|fuel IH]; intros ctrl depth left right s H0 Hr;
    [exact I|].
  cbn [segtree_rec].
  eapply post_bind with (Q1 := frame left right s);
    [apply frame_print | auto | intros _ s1 F1].
  destruct (Z.eqb_spec left (right - 1)) as [Hleaf|Hnode].
  - (* leaf *)
    eapply post_bind with (Q1 := frame left right s);
      [ | auto | intros _ s2 F2].
    { eapply (frame_trans left right left right);
        [exact F1 | apply frame_print | lia..]. }
    destruct F2 as (Hs2 & Hl2 & Ht2 & o2 & Ho2).
    unfold bind, read_target, write_target.
    rewrite getitem_range by lia.
    destruct (target s2 !! Z.to_nat left) as [t|] eqn:Ht.
    2:{ apply lookup_ge_None in Ht. lia. }
    rewrite setitem_range by lia. cbn.
    repeat split; cbn; auto.
    + now rewrite length_insert.
    + intros i Hi. rewrite list_lookup_insert_ne by lia. now apply Ht2.
    + now exists o2.
  - (* inner node *)
    pose proof (mid_inside left right ltac:(lia) Hnode) as Hmid.
    set (mid := Z.shiftr (left + right) 1) in *.
    eapply post_bind with (Q1 := frame left right s);
      [ | auto | intros _ s2 F2].
    { eapply (frame_trans left right left right);
        [exact F1 | apply frame_print | lia..]. }
    eapply post_bind with (Q1 := frame left right s);
      [exact F2 | auto | intros n s3 F3].
    eapply post_bind with (Q1 := frame left right s);
      [ | auto | intros _ s4 F4].
    { unfold assert. destruct (depth <? n); exact F3. }
    eapply post_bind with (Q1 := frame left right s);
      [ | auto | intros sd s5 F5].
    { unfold read_selection. destruct (getitem _ _); exact F4. }
    eapply post_bind with (Q1 := frame left right s);
      [ | auto | intros _ s6 F6].
    { assert (Hlen : length (target s5) = length (target s))
        by (destruct F5 as (_ & H & _); exact H).
      pose proof (IH (BAnd [ctrl; BNot sd]) (depth + 1) left mid s5
                    ltac:(lia) ltac:(lia)) as HL.
      destruct (segtree_rec fuel _ _ left mid s5); cbn in *; auto;
        (eapply (frame_trans left right left mid);
           [exact F5 | exact HL | lia..]). }
    eapply post_bind with (Q1 := frame left right s);
      [ | auto | intros sd' s7 F7].
    { unfold read_selection. destruct (getitem _ _); exact F6. }
    assert (Hlen : length (target s7) = length (target s))
      by (destruct F7 as (_ & H & _); exact H).
    pose proof (IH (BAnd [ctrl; sd']) (depth + 1) mid right s7
                  ltac:(lia) ltac:(lia)) as HR.
    destruct (segtree_rec fuel _ _ mid right s7); cbn in *; auto;
      (eapply (frame_trans left right mid right);
         [exact F7 | exact HR | lia..]).
Qed.

(** ** The recursion of [segtree] comes to an end *)

(** No statement of [segtree] assigns to [selection]. *)
Lemma segtree_rec_selection fuel :
  forall ctrl depth left right s,
    post (segtree_rec fuel ctrl depth left right s)
         (fun s' => selection s' = selection s).
Proof.
  induction fuel as [|fuel IH]; intros ctrl depth left right s; [exact I|].
  cbn [segtree_rec].
  set (Q := fun s' => selection s' = selection s).
  assert (Hrd_s : forall i s1, Q s1 -> post (read_selection i s1) Q).
  { intros i s1 H1. unfold read_selection. now destruct (getitem _ _). }
  assert (Hrec : forall c d l r s1,
             Q s1 -> post (segtree_rec fuel c d l r s1) Q).
  { intros c d l r s1 H1. pose proof (IH c d l r s1) as H.
    unfold Q in *.
    destruct (segtree_rec fuel c d l r s1); cbn in *; congruence. }
  eapply post_bind with (Q1 := Q); [reflexivity | auto | intros _ s1 H1].
  destruct (left =? right - 1).
  - eapply post_bind with (Q1 := Q); [exact H1 | auto | intros _ s2 H2].
    eapply post_bind with (Q1 := Q); [ | auto | intros t s3 H3].
    { unfold read_target. now destruct (getitem _ _). }
    unfold write_target. now destruct (setitem _ _ _).
  - eapply post_bind with (Q1 := Q); [exact H1 | auto | intros _ s2 H2].
    eapply post_bind with (Q1 := Q); [exact H2 | auto | intros n s3 H3].
    eapply post_bind with (Q1 := Q); [ | auto | intros _ s4 H4].
    { unfold assert. now destruct (depth <? n). }
    eapply post_bind with (Q1 := Q); [now apply Hrd_s | auto | intros sd s5 H5].
    eapply post_bind with (Q1 := Q); [now apply Hrec | auto | intros _ s6 H6].
    eapply post_bind with (Q1 := Q);
      [now apply Hrd_s | auto | intros sd' s7 H7].
    now apply Hrec.
Qed.

Lemma agree_bind {A B} (m1 m2 : M A) (k1 k2 : A -> M B) (s : store) :
  agree (m1 s) (m2 s) ->
  (forall a s1, m1 s = Returns a s1 -> agree (k1 a s1) (k2 a s1)) ->
  agree (bind m1 k1 s) (bind m2 k2 s).
Proof.
  intros [E N] Hk. unfold bind. rewrite <- E.
  destruct (m1 s) as [a s1|e s1|]; [now apply Hk| |contradiction].
  split; [reflexivity|discriminate].
Qed.

Lemma agree_refl {A} (o : outcome A) : o <> Diverges -> agree o o.
Proof. now split. Qed.

Lemma read_selection_ends i s : read_selection i s <> Diverges.
Proof. unfold read_selection. now destruct (getitem _ _). Qed.

Lemma read_target_ends i s : read_target i s <> Diverges.
Proof. unfold read_target. now destruct (getitem _ _). Qed.

Lemma write_target_ends i v s : write_target i v s <> Diverges.
Proof. unfold write_target. now destruct (setitem _ _ _). Qed.

Lemma assert_ends b s : assert b s <> Diverges.
Proof. now destruct b. Qed.

Lemma returns_selection {A} (m : M A) (s s1 : store) (a : A) :
  post (m s) (fun s' => selection s' = selection s) ->
  m s = Returns a s1 -> selection s1 = selection s.
Proof. intros H E. rewrite E in H. exact H. Qed.

Lemma read_selection_keeps i s :
  post (read_selection i s) (fun s' => selection s' = selection s).
Proof. unfold read_selection. now destruct (getitem _ _). Qed.

(** Any bound above [len(selection) - depth] gives the same outcome, and
    that outcome is not [Diverges]. *)
Lemma segtree_rec_fuel f1 :
  forall f2 ctrl depth left right s,
    Z.max 0 (Z.of_nat (length (selection s)) - depth) < Z.of_nat f1 ->
    Z.max 0 (Z.of_nat (length (selection s)) - depth) < Z.of_nat f2 ->
    agree (segtree_rec f1 ctrl depth left right s)
          (segtree_rec f2 ctrl depth left right s).
Proof.
  induction f1 as [|f1 IH]; intros [|f2] ctrl depth left right s H1 H2;
    try lia.
  cbn [segtree_rec].
  apply agree_bind; [now apply agree_refl|intros ? s1 [= ?]; subst s1].
  destruct (left =? right - 1).
  - apply agree_refl. unfold bind, print; cbn.
    destruct (read_target left _) eqn:E; try discriminate.
    + apply write_target_ends.
    + now apply read_target_ends in E.
  - apply agree_bind; [now apply agree_refl|intros ? s2 [= ?]; subst s2].
    apply agree_bind; [now apply agree_refl|intros n s3 [= ? ?]; subst n s3].
    cbn [selection].
    apply agree_bind; [apply agree_refl, assert_ends|intros [] s4 E4].
    cbn [selection] in E4.
    destruct (Z.ltb_spec depth (Z.of_nat (length (selection s))))
      as [Hd|Hd]; cbn in E4; [|discriminate].
    injection E4 as <-.
    apply agree_bind; [apply agree_refl, read_selection_ends|intros sd s5 E5].
    pose proof (returns_selection _ _ _ _ (read_selection_keeps _ _) E5) as S5.
    cbn [selection] in S5.
    apply agree_bind; [apply IH; rewrite S5; lia|intros [] s6 E6].
    pose proof (returns_selection _ _ _ _
                  (segtree_rec_selection _ _ _ _ _ _) E6) as S6.
    apply agree_bind; [apply agree_refl, read_selection_ends|intros sd' s7 E7].
    pose proof (returns_selection _ _ _ _ (read_selection_keeps _ _) E7) as S7.
    apply IH; rewrite S7, S6, S5; lia.
Qed.

Lemma segtree_terminates ctrl depth left right s :
  segtree ctrl depth left right s <> Diverges.
Proof.
  unfold segtree.
  set (f := S (Z.to_nat (Z.of_nat (length (selection s)) - depth))).
  destruct (segtree_rec_fuel f f ctrl depth left right s) as [_ N];
    [lia | lia | exact N].
Qed.

(** [segtree] at a bound that suffices. *)
Lemma segtree_eq fuel ctrl depth left right s :
  Z.max 0 (Z.of_nat (length (selection s)) - depth) < Z.of_nat fuel ->
  segtree ctrl depth left right s = segtree_rec fuel ctrl depth left right s.
Proof.
  intros H. unfold segtree. apply segtree_rec_fuel; lia.
Qed.

(** ** The full tree over [[left, left + 2^k)] *)

Lemma bind_returns {A B} (m : M A) (k : A -> M B) s a s1 :
  m s = Returns a s1 -> bind m k s = k a s1.
Proof. intros E. unfold bind. now rewrite E. Qed.

Lemma getitem_app_mid {A} (pre post : list A) (x : A) :
  getitem (pre ++ x :: post) (Z.of_nat (length pre)) = Some x.
Proof.
  apply getitem_nat. rewrite lookup_app_r by lia.
  now rewrite Nat.sub_diag.
Qed.

Lemma segtree_rec_full sels :
  forall pre fuel ctrl left s,
    selection s = pre ++ sels ->
    (length sels < fuel)%nat ->
    0 <= left ->
    left + 2 ^ Z.of_nat (length sels) <= Z.of_nat (length (target s)) ->
    exists s',
      segtree_rec fuel ctrl (Z.of_nat (length pre)) left
        (left + 2 ^ Z.of_nat (length sels)) s = Returns tt s' /\
      frame left (left + 2 ^ Z.of_nat (length sels)) s s' /\
      forall i : nat,
        left <= Z.of_nat i < left + 2 ^ Z.of_nat (length sels) ->
        target s' !! i =
          (fun t => BXor t (leaf_ctrl ctrl sels (Z.of_nat i - left)))
            <$> target s !! i.
Proof.
  induction sels as [|sd sels IH]; intros pre fuel ctrl left s Hsel Hf H0 Hr.
  - (* a leaf *)
    destruct fuel as [|fuel]; [lia|].
    change (2 ^ Z.of_nat (length (@nil bexp))) with 1 in *.
    cbn [segtree_rec]. unfold bind at 1. cbn [print].
    replace (left =? left + 1 - 1) with true by (symmetry; apply Z.eqb_eq; lia).
    unfold bind at 1. cbn [print].
    unfold bind, read_target, write_target. cbn [target selection stdout].
    rewrite getitem_range by lia.
    destruct (target s !! Z.to_nat left) as [t|] eqn:Ht.
    2:{ apply lookup_ge_None in Ht. lia. }
    cbn [target selection stdout].
    rewrite setitem_range by lia.
    eexists. split; [reflexivity|]. split.
    + repeat split; cbn; auto.
      * now rewrite length_insert.
      * intros i Hi. now rewrite list_lookup_insert_ne by lia.
      * eexists. now rewrite <- app_assoc.
    + intros i Hi. cbn [target leaf_ctrl].
      assert (i = Z.to_nat left) as -> by lia.
      rewrite list_lookup_insert_eq by (apply lookup_lt_Some in Ht; lia).
      now rewrite Ht.
  - (* an inner node *)
    destruct fuel as [|fuel]; [cbn in Hf; lia|].
    cbn [length] in *.
    set (k := length sels) in *.
    set (h := 2 ^ Z.of_nat k).
    assert (Hh : 0 < h) by (apply Z.pow_pos_nonneg; lia).
    assert (Hpow : 2 ^ Z.of_nat (S k) = 2 * h)
      by (unfold h; rewrite Nat2Z.inj_succ, Z.pow_succ_r; lia).
    pose proof (mid_pow2 left k) as Hmid. fold h in Hmid.
    cbn [segtree_rec]. unfold bind at 1. cbn [print].
    replace (left =? left + 2 ^ Z.of_nat (S k) - 1) with false
      by (symmetry; apply Z.eqb_neq; lia).
    unfold bind at 1. cbn [print].
    unfold bind at 1. cbn [len_selection selection].
    unfold bind at 1.
    replace (Z.of_nat (length pre) <? Z.of_nat (length (selection s)))
      with true
      by (symmetry; apply Z.ltb_lt; rewrite Hsel, length_app; cbn; lia).
    cbn [assert ret].
    rewrite Hmid.
    set (s1 := mkStore _ _ _).
    assert (Hsel' : selection s1 = (pre ++ [sd]) ++ sels)
      by (cbn; rewrite Hsel, <- app_assoc; reflexivity).
    assert (Hd : Z.of_nat (length pre) + 1 = Z.of_nat (length (pre ++ [sd])))
      by (rewrite length_app; cbn; lia).
    unfold bind at 1. unfold read_selection at 1.
    replace (getitem (selection s1) (Z.of_nat (length pre))) with (Some sd)
      by (cbn; rewrite Hsel; symmetry; apply getitem_app_mid).
    rewrite Hd.
    destruct (IH (pre ++ [sd]) fuel (BAnd [ctrl; BNot sd]) left s1 Hsel'
                ltac:(lia) H0 ltac:(cbn; fold k h; lia))
      as (s2 & E2 & F2 & T2).
    fold k h in E2, F2, T2.
    rewrite (bind_returns _ _ _ _ _ E2).
    assert (Hsel2 : selection s2 = (pre ++ [sd]) ++ sels)
      by (destruct F2 as (-> & _); exact Hsel').
    assert (Hlen2 : length (target s2) = length (target s))
      by (destruct F2 as (_ & -> & _); reflexivity).
    unfold bind at 1. unfold read_selection at 1.
    replace (getitem (selection s2) (Z.of_nat (length pre))) with (Some sd)
      by (rewrite Hsel2, <- app_assoc; symmetry; apply getitem_app_mid).
    destruct (IH (pre ++ [sd]) fuel (BAnd [ctrl; sd]) (left + h) s2 Hsel2
                ltac:(lia) ltac:(lia) ltac:(fold k h; lia))
      as (s3 & E3 & F3 & T3).
    fold k h in E3, F3, T3.
    replace (left + 2 ^ Z.of_nat (S k)) with (left + h + h) by lia.
    rewrite E3.
    exists s3. split; [reflexivity|]. split.
    + eapply (frame_trans left (left + h) (left + h) (left + h + h));
        [ | exact F3 | lia..].
      eapply (frame_trans left (left + h) left (left + h));
        [ | exact F2 | lia..].
      subst s1. cbn [selection target stdout]. rewrite <- app_assoc.
      apply frame_stdout.
    + intros i Hi. cbn [leaf_ctrl]. fold k h.
      destruct (Z.ltb_spec (Z.of_nat i - left) h) as [Hlo|Hhi].
      * destruct F3 as (_ & _ & Fr3 & _).
        rewrite Fr3 by lia. rewrite T2 by lia. reflexivity.
      * destruct F2 as (_ & _ & Fr2 & _).
        rewrite T3 by lia. rewrite Fr2 by lia.
        replace (Z.of_nat i - (left + h)) with (Z.of_nat i - left - h) by lia.
        reflexivity.
Qed.

(** ** Binary digits *)

Lemma bits_be_length w n : length (bits_be w n) = w.
Proof. induction w; cbn; auto. Qed.

Lemma bits_be_lookup w n (j : nat) :
  (j < w)%nat ->
  bits_be w n !! j = Some (Z.testbit n (Z.of_nat (w - 1 - j))).
Proof.
  revert j. induction w as [|w IH]; intros j Hj; [lia|].
  destruct j as [|j]; cbn [bits_be].
  - change ((?x :: ?l) !! 0%nat) with (Some x). do 2 f_equal. lia.
  - change (Z.testbit n (Z.of_nat w) :: bits_be w n) with
      ([Z.testbit n (Z.of_nat w)] ++ bits_be w n).
    rewrite lookup_app_r by (cbn; lia). cbn [length].
    replace (S j - 1)%nat with j by lia.
    rewrite IH by lia. do 2 f_equal. lia.
Qed.

Lemma bits_be_ext w a b :
  (forall j, 0 <= j < Z.of_nat w -> Z.testbit a j = Z.testbit b j) ->
  bits_be w a = bits_be w b.
Proof.
  induction w as [|w IH]; intros H; cbn [bits_be]; [reflexivity|].
  f_equal; [apply H; lia | apply IH; intros j Hj; apply H; lia].
Qed.

Lemma bits_be_sub_pow2 k a :
  bits_be k (a - 2 ^ Z.of_nat k) = bits_be k a.
Proof.
  apply bits_be_ext. intros j Hj.
  rewrite <- (Z.mod_pow2_bits_low (a - 2 ^ Z.of_nat k) (Z.of_nat k) j) by lia.
  rewrite <- (Z.mod_pow2_bits_low a (Z.of_nat k) j) by lia.
  f_equal.
  replace (a - 2 ^ Z.of_nat k) with (a + (-1) * 2 ^ Z.of_nat k) by lia.
  apply Z.mod_add. apply Z.pow_nonzero; lia.
Qed.

Lemma testbit_top_low k a :
  0 <= a < 2 ^ Z.of_nat k -> Z.testbit a (Z.of_nat k) = false.
Proof.
  intros H. apply Z.testbit_false; [lia|].
  now rewrite Z.div_small.
Qed.

Lemma testbit_top_high k a :
  2 ^ Z.of_nat k <= a < 2 * 2 ^ Z.of_nat k -> Z.testbit a (Z.of_nat k) = true.
Proof.
  intros H. apply Z.testbit_true; [lia|].
  replace (a / 2 ^ Z.of_nat k) with 1; [reflexivity|].
  apply Z.div_unique with (r := a - 2 ^ Z.of_nat k); lia.
Qed.

Lemma bits_be_snoc k n :
  bits_be (S k) n = bits_be k (n / 2) ++ [Z.testbit n 0].
Proof.
  induction k as [|k IH].
  - reflexivity.
  - change (bits_be (S (S k)) n)
      with (Z.testbit n (Z.of_nat (S k)) :: bits_be (S k) n).
    rewrite IH. cbn [bits_be app]. f_equal.
    rewrite Nat2Z.inj_succ. symmetry. apply Z.div2_bits. lia.
Qed.

(** Equal digits, equal numbers. *)
Lemma bits_be_inj w a b :
  0 <= a < 2 ^ Z.of_nat w -> 0 <= b < 2 ^ Z.of_nat w ->
  bits_be w a = bits_be w b -> a = b.
Proof.
  revert a b. induction w as [|w IH]; intros a b Ha Hb E.
  - change (2 ^ Z.of_nat 0) with 1 in *. lia.
  - rewrite !bits_be_snoc in E. apply app_inj_tail in E as [E1 E0].
    rewrite Nat2Z.inj_succ, Z.pow_succ_r in Ha, Hb by lia.
    assert (a / 2 = b / 2) as Hq.
    { apply IH; auto; split;
        try (apply Z.div_pos; lia);
        apply Z.div_lt_upper_bound; lia. }
    rewrite !Z.bit0_odd in E0.
    rewrite (Z.div_mod a 2), (Z.div_mod b 2) by lia.
    rewrite !Zmod_odd, E0, Hq. reflexivity.
Qed.

(** ** What the two control expressions evaluate to *)

Lemma eval_total_control_cons rho s sels b bs :
  eval rho (total_control_expr (s :: sels) (b :: bs)) =
  Bool.eqb (eval rho s) b && eval rho (total_control_expr sels bs).
Proof. reflexivity. Qed.

Lemma eval_leaf_ctrl rho sels :
  forall ctrl off,
    0 <= off < 2 ^ Z.of_nat (length sels) ->
    eval rho (leaf_ctrl ctrl sels off) =
    eval rho ctrl &&
    eval rho (total_control_expr sels (bits_be (length sels) off)).
Proof.
  induction sels as [|s sels IH]; intros ctrl off Hoff.
  - cbn. now rewrite andb_true_r.
  - cbn [length] in *. set (k := length sels) in *.
    rewrite Nat2Z.inj_succ, Z.pow_succ_r in Hoff by lia.
    cbn [leaf_ctrl bits_be]. fold k.
    rewrite eval_total_control_cons.
    destruct (Z.ltb_spec off (2 ^ Z.of_nat k)) as [Hlo|Hhi].
    + rewrite IH by (fold k; lia). fold k.
      rewrite testbit_top_low by lia. cbn.
      destruct (eval rho ctrl), (eval rho s); reflexivity.
    + rewrite IH by (fold k; lia). fold k.
      rewrite testbit_top_high by lia.
      rewrite bits_be_sub_pow2. cbn.
      destruct (eval rho ctrl), (eval rho s); reflexivity.
Qed.

(** With each selection entry worth the matching digit of [n], the
    total-control expression for [m] holds exactly when [m] is [n]. *)
Lemma eval_total_control_bits rho sels n m :
  0 <= n < 2 ^ Z.of_nat (length sels) ->
  0 <= m < 2 ^ Z.of_nat (length sels) ->
  map (eval rho) sels = bits_be (length sels) n ->
  eval rho (total_control_expr sels (bits_be (length sels) m)) = (m =? n).
Proof.
  intros Hn Hm Hsel.
  assert (Hgen : forall (es : list bexp) (bs : list bool),
             length es = length bs ->
             eval rho (total_control_expr es bs) = true <->
             map (eval rho) es = bs).
  { induction es as [|e es IH]; intros [|b bs] Hlen; try discriminate.
    - cbn. tauto.
    - rewrite eval_total_control_cons, andb_true_iff, IH
        by (cbn in Hlen; lia).
      cbn [map]. rewrite Bool.eqb_true_iff. split.
      + intros [-> ->]. reflexivity.
      + intros [= -> ->]. auto. }
  destruct (Z.eqb_spec m n) as [->|Hne].
  - apply Hgen; [now rewrite bits_be_length | exact Hsel].
  - apply not_true_is_false. intros Ht.
    apply Hgen in Ht; [|now rewrite bits_be_length].
    apply Hne. apply (bits_be_inj (length sels)); auto. congruence.
Qed.

(** ** [total_control] *)

Lemma product_pairs_lookup {A B} (f g : A -> B) (l : list A) (i : nat) :
  flat_map (fun x => [f x; g x]) l !! (2 * i)%nat = f <$> l !! i /\
  flat_map (fun x => [f x; g x]) l !! (2 * i + 1)%nat = g <$> l !! i.
Proof.
  revert i. induction l as [|x l IH]; intros i; [now split|].
  destruct i as [|i].
  - now split.
  - destruct (IH i) as [IH0 IH1].
    replace (2 * S i)%nat with (S (S (2 * i))) by lia.
    replace (S (S (2 * i)) + 1)%nat with (S (S (2 * i + 1))) by lia.
    split; [exact IH0 | exact IH1].
Qed.

Lemma product_pairs_length {A B} (f g : A -> B) (l : list A) :
  length (flat_map (fun x => [f x; g x]) l) = (2 * length l)%nat.
Proof. induction l as [|x l IH]; cbn [flat_map length app]; lia. Qed.

Lemma product_repeat_length k :
  Z.of_nat (length (product_repeat [false; true] k)) = 2 ^ Z.of_nat k.
Proof.
  induction k as [|k IH]; [reflexivity|].
  cbn [product_repeat map]. rewrite product_pairs_length.
  rewrite Nat2Z.inj_succ, Z.pow_succ_r by lia. lia.
Qed.

(** The [n]-th bit pattern of the product is [n] in binary. *)
Lemma product_repeat_lookup k :
  forall n : nat,
    Z.of_nat n < 2 ^ Z.of_nat k ->
    product_repeat [false; true] k !! n = Some (bits_be k (Z.of_nat n)).
Proof.
  induction k as [|k IH]; intros n Hn.
  - change (2 ^ Z.of_nat 0) with 1 in Hn.
    assert (n = 0%nat) as -> by lia. reflexivity.
  - rewrite Nat2Z.inj_succ, Z.pow_succ_r in Hn by lia.
    cbn [product_repeat map].
    pose proof (Nat.div_mod_eq n 2) as Hn2.
    pose proof (Nat.mod_upper_bound n 2 ltac:(lia)) as Hr.
    destruct (product_pairs_lookup (fun x => x ++ [false])
                (fun x => x ++ [true])
                (product_repeat [false; true] k) (n / 2)) as [L0 L1].
    assert (Hq : Z.of_nat (n / 2) = Z.of_nat n / 2)
      by (rewrite Nat2Z.inj_div; reflexivity).
    assert (Hb : Z.testbit (Z.of_nat n) 0 = negb (n mod 2 =? 0)%nat).
    { rewrite Z.bit0_odd, Zodd_mod.
      change 2 with (Z.of_nat 2). rewrite <- Nat2Z.inj_mod.
      destruct (n mod 2)%nat as [|[|r]]; try reflexivity. lia. }
    rewrite bits_be_snoc, <- Hq, Hb.
    rewrite IH in L0, L1 by lia.
    remember (n / 2)%nat as q eqn:Eq. clear Eq Hq Hb.
    destruct (n mod 2)%nat as [|[|r]]; [| |lia]; subst n.
    + rewrite Nat.add_0_r. exact L0.
    + exact L1.
Qed.

Lemma for_each_total_control trials :
  forall (a : nat) s,
    (a + length trials <= length (target s))%nat ->
    exists s',
      for_each (enumerate_from (Z.of_nat a) trials) total_control_step s
        = Returns tt s' /\
      selection s' = selection s /\
      length (target s') = length (target s) /\
      (forall i trial, trials !! i = Some trial ->
         target s' !! (a + i)%nat =
           (fun t => BXor t (total_control_expr (selection s) trial))
             <$> target s !! (a + i)%nat) /\
      (forall j, (j < a \/ a + length trials <= j)%nat ->
         target s' !! j = target s !! j).
Proof.
  induction trials as [|trial trials IH]; intros a s Hlen.
  - exists s. repeat split; auto. intros i trial [=].
  - cbn [length] in Hlen. cbn [enumerate_from for_each total_control_step].
    destruct (target s !! a) as [t|] eqn:Ht.
    2:{ apply lookup_ge_None in Ht. lia. }
    unfold bind at 1. unfold bind at 1. unfold read_target.
    rewrite getitem_range, Nat2Z.id, Ht by lia.
    unfold bind at 1. cbn [the_selection].
    unfold write_target. rewrite setitem_range, Nat2Z.id by lia.
    set (s1 := mkStore _ _ _).
    replace (Z.of_nat a + 1) with (Z.of_nat (S a)) by lia.
    destruct (IH (S a) s1) as (s' & E & Hs & Hl & Hin & Hout).
    { subst s1. cbn. rewrite length_insert. lia. }
    exists s'. split; [exact E|].
    subst s1. cbn [selection target] in *. rewrite length_insert in Hl.
    repeat split; auto.
    + intros [|i] tr Hi.
      * injection Hi as <-. rewrite Nat.add_0_r.
        rewrite Hout by lia.
        rewrite list_lookup_insert_eq by (apply lookup_lt_Some in Ht; lia).
        now rewrite Ht.
      * cbn in Hi. replace (a + S i)%nat with (S a + i)%nat by lia.
        rewrite (Hin i tr Hi).
        now rewrite list_lookup_insert_ne by lia.
    + intros j Hj. cbn [length] in Hj. rewrite Hout by lia.
      now rewrite list_lookup_insert_ne by lia.
Qed.

Lemma total_control_full s :
  2 ^ Z.of_nat (length (selection s)) <= Z.of_nat (length (target s)) ->
  exists s',
    total_control s = Returns tt s' /\
    selection s' = selection s /\
    length (target s') = length (target s) /\
    forall n : nat,
      target s' !! n =
        if Z.of_nat n <? 2 ^ Z.of_nat (length (selection s)) then
          (fun t => BXor t (total_control_expr (selection s)
                              (bits_be (length (selection s)) (Z.of_nat n))))
            <$> target s !! n
        else target s !! n.
Proof.
  intros Hlen. unfold total_control. unfold bind at 1. cbn [the_selection].
  set (w := length (selection s)) in *.
  pose proof (product_repeat_length w) as HL.
  destruct (for_each_total_control (product_repeat [false; true] w) 0%nat s)
    as (s' & E & Hs & Hl & Hin & Hout); [lia|].
  exists s'. split; [exact E|]. repeat split; auto.
  intros n. destruct (Z.ltb_spec (Z.of_nat n) (2 ^ Z.of_nat w)) as [Hn|Hn].
  - apply (Hin n). now apply product_repeat_lookup.
  - apply Hout. lia.
Qed.

(** ** Depth of the recursion *)

Lemma ends_ok_bind {A B} (m : M A) (k : A -> M B) s (Q1 Q : store -> Prop) :
  ends_ok (m s) Q1 ->
  (forall s1, Q1 s1 -> Q s1) ->
  (forall a s1, m s = Returns a s1 -> Q1 s1 -> ends_ok (k a s1) Q) ->
  ends_ok (bind m k s) Q.
Proof.
  unfold bind. destruct (m s) as [a s1|[] s1|]; cbn; intros H1 HQ Hk.
  - now apply Hk.
  - contradiction.
  - now apply HQ.
  - contradiction.
Qed.

Lemma logged_trans w s s1 s2 :
  logged w s s1 -> logged w s1 s2 -> logged w s s2.
Proof.
  intros (S1 & o1 & O1 & F1) (S2 & o2 & O2 & F2). split; [congruence|].
  exists (o1 ++ o2). rewrite O2, O1, app_assoc. split; [reflexivity|].
  now apply Forall_app.
Qed.

Lemma logged_print w s ev :
  node_ok w ev ->
  logged w s (mkStore (selection s) (target s) (stdout s ++ [ev])).
Proof.
  intros H. split; [reflexivity|]. exists [ev]. split; [reflexivity|].
  now constructor.
Qed.

Lemma logged_target w s t :
  logged w s (mkStore (selection s) t (stdout s)).
Proof. split; [reflexivity|]. exists []. now rewrite app_nil_r. Qed.

Lemma segtree_rec_depth (k : nat) :
  forall fuel ctrl depth left s,
    0 <= depth ->
    depth + Z.of_nat k = Z.of_nat (length (selection s)) ->
    (k < fuel)%nat ->
    ends_ok
      (segtree_rec fuel ctrl depth left (left + 2 ^ Z.of_nat k) s)
      (logged (Z.of_nat (length (selection s))) s).
Proof.
  induction k as [|k IH]; intros fuel ctrl depth left s Hd Hk Hf;
    (destruct fuel as [|fuel]; [lia|]);
    set (w := Z.of_nat (length (selection s))) in *;
    cbn [segtree_rec].
  - change (2 ^ Z.of_nat 0) with 1.
    eapply ends_ok_bind with (Q1 := logged w s);
      [apply logged_print; cbn;
       replace (w - depth) with 0 by lia; change (2 ^ 0) with 1; lia
      | auto | intros _ s1 _ L1].
    replace (left =? left + 1 - 1) with true
      by (symmetry; apply Z.eqb_eq; lia).
    eapply ends_ok_bind with (Q1 := logged w s);
      [ | auto | intros _ s2 _ L2].
    { eapply logged_trans; [exact L1 | now apply logged_print]. }
    eapply ends_ok_bind with (Q1 := logged w s);
      [ | auto | intros t s3 _ L3].
    { unfold read_target. destruct (getitem _ _); exact L2. }
    unfold write_target. destruct (setitem _ _ _); cbn; [|exact L3].
    eapply logged_trans; [exact L3 | apply logged_target].
  - assert (Hh : 0 < 2 ^ Z.of_nat k) by (apply Z.pow_pos_nonneg; lia).
    assert (Hpow : 2 ^ Z.of_nat (S k) = 2 * 2 ^ Z.of_nat k)
      by (rewrite Nat2Z.inj_succ, Z.pow_succ_r; lia).
    eapply ends_ok_bind with (Q1 := logged w s);
      [apply logged_print; cbn;
       replace (w - depth) with (Z.of_nat (S k)) by lia; lia
      | auto | intros _ s1 _ L1].
    replace (left =? left + 2 ^ Z.of_nat (S k) - 1) with false
      by (symmetry; apply Z.eqb_neq; lia).
    rewrite mid_pow2.
    eapply ends_ok_bind with (Q1 := logged w s);
      [ | auto | intros _ s2 _ L2].
    { eapply logged_trans; [exact L1 | now apply logged_print]. }
    eapply ends_ok_bind with (Q1 := logged w s);
      [exact L2 | auto | intros n s3 [= <- <-] L3].
    assert (Hw2 : Z.of_nat (length (selection s2)) = w)
      by (destruct L2 as [-> _]; reflexivity).
    rewrite Hw2.
    replace (depth <? w) with true by (symmetry; apply Z.ltb_lt; lia).
    eapply ends_ok_bind with (Q1 := logged w s);
      [exact L3 | auto | intros _ s4 _ L4].
    assert (Hrd : forall s5, logged w s s5 ->
              ends_ok (read_selection depth s5) (logged w s)).
    { intros s5 L5. unfold read_selection.
      destruct (getitem (selection s5) depth); exact L5. }
    assert (Hrec : forall c l s5, logged w s s5 ->
              ends_ok (segtree_rec fuel c (depth + 1) l
                         (l + 2 ^ Z.of_nat k) s5) (logged w s)).
    { intros c l s5 L5.
      assert (Hw5 : Z.of_nat (length (selection s5)) = w)
        by (destruct L5 as [-> _]; reflexivity).
      pose proof (IH fuel c (depth + 1) l s5 ltac:(lia) ltac:(lia)
                    ltac:(lia)) as H.
      rewrite Hw5 in H.
      destruct (segtree_rec fuel c (depth + 1) l _ s5) as [a s6|[] s6|];
        cbn in *; auto; eapply logged_trans; eauto. }
    eapply ends_ok_bind with (Q1 := logged w s);
      [now apply Hrd | auto | intros sd s5 _ L5].
    eapply ends_ok_bind with (Q1 := logged w s);
      [now apply Hrec | auto | intros _ s6 _ L6].
    eapply ends_ok_bind with (Q1 := logged w s);
      [now apply Hrd | auto | intros sd' s7 _ L7].
    replace (left + 2 ^ Z.of_nat (S k))
      with (left + 2 ^ Z.of_nat k + 2 ^ Z.of_nat k) by lia.
    now apply Hrec.
Qed.

(** ** Properties of [segtree] *)

Lemma getitem_lt {A} (l : list A) (i : Z) (x : A) :
  getitem l i = Some x -> i < Z.of_nat (length l).
Proof.
  unfold getitem, py_index.
  destruct (Z.leb_spec 0 i), (Z.ltb_spec i (Z.of_nat (length l)));
    cbn; try lia.
  destruct (Z.leb_spec (- Z.of_nat (length l)) i), (Z.ltb_spec i 0);
    cbn; try lia; discriminate.
Qed.

Lemma bind_ext {A B} (m : M A) (k1 k2 : A -> M B) (s : store) :
  (forall a s1, m s = Returns a s1 -> k1 a s1 = k2 a s1) ->
  bind m k1 s = bind m k2 s.
Proof.
  intros H. unfold bind. destruct (m s); auto.
Qed.

Lemma bind_cong {A B} (m1 m2 : M A) (k1 k2 : A -> M B) (s : store) :
  m1 s = m2 s ->
  (forall a s1, m1 s = Returns a s1 -> k1 a s1 = k2 a s1) ->
  bind m1 k1 s = bind m2 k2 s.
Proof.
  intros E H. unfold bind. rewrite <- E. destruct (m1 s); auto.
Qed.

(** One step of an inner node ([left] is not [right - 1]) where
    [selection[depth]] is [sd]: the two messages, then the call for
    [[left, mid)] and after it the call for [[mid, right)]. *)
Lemma segtree_unfold_inner (ctrl sd : bexp) (depth left right : Z)
    (s : store) :
  left <> right - 1 ->
  getitem (selection s) depth = Some sd ->
  segtree ctrl depth left right s =
    (print (PNode depth left right) ;;
     print PNewline ;;
     segtree (BAnd [ctrl; BNot sd]) (depth + 1) left
       (Z.shiftr (left + right) 1) ;;
     segtree (BAnd [ctrl; sd]) (depth + 1)
       (Z.shiftr (left + right) 1) right)%py s.
Proof.
  intros Hne Hsd. pose proof (getitem_lt _ _ _ Hsd) as Hlt.
  remember (Z.to_nat (Z.of_nat (length (selection s)) - depth)) as f eqn:Ef.
  rewrite (segtree_eq (S f)) by lia.
  cbn [segtree_rec].
  apply bind_ext. intros ? s1 [= ?]; subst s1.
  replace (left =? right - 1) with false by (symmetry; now apply Z.eqb_neq).
  apply bind_ext. intros ? s2 [= ?]; subst s2.
  unfold bind at 1. cbn [len_selection selection].
  unfold bind at 1.
  replace (depth <? Z.of_nat (length (selection s))) with true
    by (symmetry; now apply Z.ltb_lt).
  cbn [assert ret].
  unfold bind at 1. unfold read_selection at 1. cbn [selection].
  rewrite Hsd.
  set (s2 := mkStore _ _ _).
  apply bind_cong; [symmetry; apply segtree_eq; cbn; lia|].
  intros [] s3 E3.
  pose proof (returns_selection _ _ _ _
                (segtree_rec_selection _ _ _ _ _ _) E3) as S3.
  subst s2. cbn [selection] in S3.
  unfold bind at 1. unfold read_selection at 1. rewrite S3, Hsd.
  symmetry. apply segtree_eq. rewrite S3. lia.
Qed.

(** The whole call [segtree(ctrl, selection, target, 0, 0, 2**w)] with
    [w = len(selection)] and a target of at least [2**w] entries. *)
Lemma segtree_full ctrl s :
  2 ^ Z.of_nat (length (selection s)) <= Z.of_nat (length (target s)) ->
  exists s',
    segtree ctrl 0 0 (2 ^ Z.of_nat (length (selection s))) s
      = Returns tt s' /\
    selection s' = selection s /\
    length (target s') = length (target s) /\
    forall m : nat,
      target s' !! m =
        if Z.of_nat m <? 2 ^ Z.of_nat (length (selection s)) then
          (fun t => BXor t (leaf_ctrl ctrl (selection s) (Z.of_nat m)))
            <$> target s !! m
        else target s !! m.
Proof.
  intros Hlen.
  rewrite (segtree_eq (S (length (selection s)))) by lia.
  destruct (segtree_rec_full (selection s) [] (S (length (selection s)))
              ctrl 0 s eq_refl ltac:(lia) ltac:(lia) ltac:(lia))
    as (s' & E & (Hs & Hl & Fr & _) & T).
  exists s'. cbn [length Z.of_nat] in E. rewrite Z.add_0_l in *.
  split; [exact E|]. repeat split; auto.
  intros m. destruct (Z.ltb_spec (Z.of_nat m)
                        (2 ^ Z.of_nat (length (selection s)))) as [Hm|Hm].
  - rewrite T by lia. now rewrite Z.sub_0_r.
  - apply Fr. lia.
Qed.

(** C1. Let [selection] hold the [w] symbols [s0 .. s(w-1)], let the
    assignment [rho] give them the binary digits of [n], most significant
    first, with [0 <= n < 2**w], and let [target] have at least [2**w]
    entries.  Then [segtree(true, selection, target, 0, 0, 2**w)] returns,
    and under [rho] entry [n] of [target] has changed its truth value while
    every other entry has kept it. *)
Theorem segtree_toggles_selected (w : nat) (n : Z) (rho : nat -> bool)
    (s : store) :
  0 <= n < 2 ^ Z.of_nat w ->
  selection s = symbols w ->
  (forall i : nat, (i < w)%nat -> rho i = Z.testbit n (Z.of_nat (w - 1 - i))) ->
  2 ^ Z.of_nat w <= Z.of_nat (length (target s)) ->
  exists s',
    segtree (BConst true) 0 0 (2 ^ Z.of_nat w) s = Returns tt s' /\
    selection s' = selection s /\
    length (target s') = length (target s) /\
    forall (m : nat) (t : bexp),
      target s !! m = Some t ->
      exists t',
        target s' !! m = Some t' /\
        eval rho t' =
          if Z.of_nat m =? n then negb (eval rho t) else eval rho t.
Proof.
  intros Hn Hsel Hrho Hlen.
  assert (Hw : length (selection s) = w)
    by (rewrite Hsel; unfold symbols; now rewrite length_map, length_seq).
  assert (Hbits : map (eval rho) (selection s) = bits_be w n).
  { rewrite Hsel. unfold symbols. rewrite map_map. cbn [eval].
    apply list_eq. intros i. rewrite list_lookup_fmap.
    destruct (Nat.lt_ge_cases i w) as [Hi|Hi].
    - rewrite lookup_seq_lt, bits_be_lookup by lia. cbn.
      now rewrite Hrho.
    - rewrite lookup_seq_ge by lia.
      symmetry. apply lookup_ge_None. rewrite bits_be_length. lia. }
  destruct (segtree_full (BConst true) s) as (s' & E & Hs & Hl & T);
    [rewrite Hw; exact Hlen|].
  rewrite Hw in E, T.
  exists s'. split; [exact E|]. repeat split; auto.
  intros m t Ht. rewrite T, Ht.
  destruct (Z.ltb_spec (Z.of_nat m) (2 ^ Z.of_nat w)) as [Hm|Hm].
  - eexists. split; [reflexivity|]. cbn [eval].
    rewrite eval_leaf_ctrl by (rewrite Hw; lia).
    rewrite Hw. cbn [eval andb].
    pose proof (eval_total_control_bits rho (selection s) n (Z.of_nat m))
      as Hev.
    rewrite Hw in Hev. rewrite Hev by (auto; lia).
    destruct (Z.of_nat m =? n), (eval rho t); reflexivity.
  - exists t. split; [reflexivity|].
    replace (Z.of_nat m =? n) with false; [reflexivity|].
    symmetry. apply Z.eqb_neq. lia.
Qed.

Lemma segtree_toggles_selected_witness :
  exists s',
    segtree (BConst true) 0 0 (2 ^ Z.of_nat 2)
      (mkStore (symbols 2) (replicate 4 (BConst false)) []) = Returns tt s' /\
    selection s' = symbols 2 /\
    length (target s') = 4%nat /\
    forall (m : nat) (t : bexp),
      replicate 4 (BConst false) !! m = Some t ->
      exists t',
        target s' !! m = Some t' /\
        eval (fun _ => true) t' =
          if Z.of_nat m =? 3 then negb (eval (fun _ => true) t)
          else eval (fun _ => true) t.
Proof.
  apply (segtree_toggles_selected 2 3 (fun _ => true)
           (mkStore (symbols 2) (replicate 4 (BConst false)) [])).
  - cbn. lia.
  - reflexivity.
  - intros [|[|i]] Hi; [reflexivity | reflexivity | lia].
  - cbn. lia.
Defined.

(** Both constructions, started from the same lists, leave logically
    equivalent expressions in every target entry. *)
Lemma segtree_total_control_equiv (s : store) (n : nat) :
  2 ^ Z.of_nat (length (selection s)) <= Z.of_nat (length (target s)) ->
  exists s1 s2,
    segtree (BConst true) 0 0 (2 ^ Z.of_nat (length (selection s))) s
      = Returns tt s1 /\
    total_control s = Returns tt s2 /\
    forall rho,
      eval rho <$> target s1 !! n = eval rho <$> target s2 !! n.
Proof.
  intros Hlen.
  destruct (segtree_full (BConst true) s Hlen) as (s1 & E1 & _ & _ & T1).
  destruct (total_control_full s Hlen) as (s2 & E2 & _ & _ & T2).
  exists s1, s2. split; [exact E1|]. split; [exact E2|].
  intros rho. rewrite T1, T2.
  destruct (Z.ltb_spec (Z.of_nat n) (2 ^ Z.of_nat (length (selection s))))
    as [Hn|Hn]; [|reflexivity].
  destruct (target s !! n) as [t|]; [|reflexivity].
  cbn [fmap option_fmap option_map eval]. f_equal. f_equal.
  now rewrite eval_leaf_ctrl by lia.
Qed.

(** C2. For [w] symbols and an all-false target of [2**w] entries, both
    [segtree(true, selection, target, 0, 0, 2**w)] and
    [total_control(selection, target)] return; for every [n < 2**w] the
    entry [n] that [total_control] leaves is
    [false ^ And(Xnor(s0, b0), .., Xnor(s(w-1), b(w-1)))] with [b] the
    binary digits of [n], and the entry [n] that [segtree] leaves has the
    same truth value under every assignment of the symbols. *)
Theorem segtree_refines_total_control (w n : nat) :
  Z.of_nat n < 2 ^ Z.of_nat w ->
  let s0 :=
    mkStore (symbols w) (replicate (Z.to_nat (2 ^ Z.of_nat w)) (BConst false))
      [] in
  exists s1 s2 e1 e2,
    segtree (BConst true) 0 0 (2 ^ Z.of_nat w) s0 = Returns tt s1 /\
    total_control s0 = Returns tt s2 /\
    target s1 !! n = Some e1 /\
    target s2 !! n = Some e2 /\
    e2 = BXor (BConst false)
           (BAnd (zip_with BXnor (symbols w)
                    (map BConst (bits_be w (Z.of_nat n))))) /\
    forall rho, eval rho e1 = eval rho e2.
Proof.
  intros Hn s0.
  assert (Hw : length (selection s0) = w)
    by (cbn; unfold symbols; now rewrite length_map, length_seq).
  assert (Hp : 0 < 2 ^ Z.of_nat w) by (apply Z.pow_pos_nonneg; lia).
  assert (Hlen : 2 ^ Z.of_nat (length (selection s0))
                   <= Z.of_nat (length (target s0)))
    by (rewrite Hw; cbn; rewrite length_replicate; lia).
  destruct (segtree_full (BConst true) s0 Hlen) as (s1 & E1 & _ & _ & T1).
  destruct (total_control_full s0 Hlen) as (s2 & E2 & _ & _ & T2).
  rewrite Hw in *.
  assert (Ht : target s0 !! n = Some (BConst false))
    by (cbn; apply lookup_replicate_2; lia).
  specialize (T1 n). specialize (T2 n).
  replace (Z.of_nat n <? 2 ^ Z.of_nat w) with true in T1, T2
    by (symmetry; now apply Z.ltb_lt).
  rewrite Ht in T1, T2. cbn [fmap option_fmap option_map] in T1, T2.
  do 4 eexists. split; [exact E1|]. split; [exact E2|].
  split; [exact T1|]. split; [exact T2|]. split; [reflexivity|].
  intros rho. cbn [eval]. f_equal.
  rewrite eval_leaf_ctrl by (cbn [selection]; rewrite ?Hw; lia).
  cbn [selection eval andb]. now rewrite Hw.
Qed.

Lemma segtree_refines_total_control_witness :
  let s0 := mkStore (symbols 3) (replicate 8 (BConst false)) [] in
  exists s1 s2 e1 e2,
    segtree (BConst true) 0 0 8 s0 = Returns tt s1 /\
    total_control s0 = Returns tt s2 /\
    target s1 !! 5%nat = Some e1 /\
    target s2 !! 5%nat = Some e2 /\
    e2 = BXor (BConst false)
           (BAnd [BXnor (BSym 0) (BConst true);
                  BXnor (BSym 1) (BConst false);
                  BXnor (BSym 2) (BConst true)]) /\
    forall rho, eval rho e1 = eval rho e2.
Proof.
  apply (segtree_refines_total_control 3 5). cbn. lia.
Defined.

Lemma node_ok_inner w d l r :
  node_ok w (PNode d l r) ->
  0 <= d <= w /\ r - l = 2 ^ (w - d) /\ (l <> r - 1 -> d < w).
Proof.
  intros [Hd Hw]. split; [exact Hd|]. split; [exact Hw|].
  intros Hne. destruct (Z.eq_dec d w) as [->|]; [|lia].
  rewrite Z.sub_diag in Hw. change (2 ^ 0) with 1 in Hw. lia.
Qed.

(** C8. From [segtree(ctrl, selection, target, 0, 0, 2**w)] with
    [len(selection) = w], the run never stops on the assertion
    [depth < len(selection)]: it returns, or raises IndexError when
    [target] is too short, and it returns when [target] has [2**w] entries
    or more.  Every call prints its [depth], [left] and [right] on entry;
    each printed depth is within [0, w], the interval printed with it
    holds [2**(w - depth)] indices, and the depth is below
    [len(selection)] at every call that is not a leaf. *)
Theorem segtree_depth_bound (w : nat) (ctrl : bexp) (s : store) :
  length (selection s) = w ->
  exists s' out,
    (segtree ctrl 0 0 (2 ^ Z.of_nat w) s = Returns tt s' \/
     segtree ctrl 0 0 (2 ^ Z.of_nat w) s = Raises IndexError s' /\
     Z.of_nat (length (target s)) < 2 ^ Z.of_nat w) /\
    stdout s' = stdout s ++ out /\
    forall depth left right,
      In (PNode depth left right) out ->
      0 <= depth <= Z.of_nat w /\
      right - left = 2 ^ (Z.of_nat w - depth) /\
      (left <> right - 1 -> depth < Z.of_nat (length (selection s))).
Proof.
  intros Hw.
  pose proof (segtree_rec_depth w (S w) ctrl 0 0 s ltac:(lia) ltac:(lia)
                ltac:(lia)) as H.
  rewrite Z.add_0_l, <- (segtree_eq (S w)) in H by lia.
  assert (Hret : 2 ^ Z.of_nat w <= Z.of_nat (length (target s)) ->
                 exists s', segtree ctrl 0 0 (2 ^ Z.of_nat w) s
                            = Returns tt s').
  { intros Hlen. destruct (segtree_full ctrl s) as (s' & E & _);
      [now rewrite Hw|]. rewrite Hw in E. eauto. }
  destruct (segtree ctrl 0 0 (2 ^ Z.of_nat w) s) as [[] s'|[] s'|] eqn:E;
    cbn in H; try contradiction;
    destruct H as (_ & out & Hout & Hall); exists s', out.
  - split; [now left|]. split; [exact Hout|].
    intros d l r Hin. rewrite Forall_forall in Hall.
    apply list_elem_of_In in Hin. rewrite Hw in *.
    now apply node_ok_inner, (Hall _ Hin).
  - split.
    + right. split; [reflexivity|].
      destruct (Z.lt_ge_cases (Z.of_nat (length (target s)))
                  (2 ^ Z.of_nat w)) as [Hlt|Hge]; [exact Hlt|].
      destruct (Hret Hge) as (s'' & [=]).
    + split; [exact Hout|].
      intros d l r Hin. rewrite Forall_forall in Hall.
      apply list_elem_of_In in Hin. rewrite Hw in *.
      now apply node_ok_inner, (Hall _ Hin).
Qed.

Lemma segtree_depth_bound_witness :
  exists s' out,
    (segtree (BConst true) 0 0 (2 ^ Z.of_nat 2)
       (mkStore (symbols 2) (replicate 4 (BConst false)) []) = Returns tt s' \/
     segtree (BConst true) 0 0 (2 ^ Z.of_nat 2)
       (mkStore (symbols 2) (replicate 4 (BConst false)) [])
       = Raises IndexError s' /\
     Z.of_nat 4 < 2 ^ Z.of_nat 2) /\
    stdout s' = [] ++ out /\
    forall depth left right,
      In (PNode depth left right) out ->
      0 <= depth <= Z.of_nat 2 /\
      right - left = 2 ^ (Z.of_nat 2 - depth) /\
      (left <> right - 1 -> depth < Z.of_nat 2).
Proof.
  apply (segtree_depth_bound 2 (BConst true)
           (mkStore (symbols 2) (replicate 4 (BConst false)) [])).
  reflexivity.
Defined.

(** C10. A call [segtree(ctrl, selection, target, depth, left, right)]
    with [0 <= left < right <= len(target)] that returns leaves
    [selection] as it was, keeps the length of [target], and leaves every
    entry of [target] outside [[left, right)] as it was. *)
Theorem segtree_frame (ctrl : bexp) (depth left right : Z) (s s' : store) :
  0 <= left ->
  left < right <= Z.of_nat (length (target s)) ->
  segtree ctrl depth left right s = Returns tt s' ->
  selection s' = selection s /\
  length (target s') = length (target s) /\
  forall i : nat,
    Z.of_nat i < left \/ right <= Z.of_nat i ->
    target s' !! i = target s !! i.
Proof.
  intros H0 Hr E. unfold segtree in E.
  pose proof (segtree_rec_frame
                (S (Z.to_nat (Z.of_nat (length (selection s)) - depth)))
                ctrl depth left right s H0 Hr) as F.
  rewrite E in F. destruct F as (Hs & Hl & Ht & _). auto.
Qed.

Lemma segtree_frame_witness :
  exists s',
    segtree (BSym 7) 1 2 4
      (mkStore (symbols 2) (replicate 6 (BConst false)) []) = Returns tt s' /\
    selection s' = symbols 2 /\
    length (target s') = 6%nat /\
    forall i : nat,
      Z.of_nat i < 2 \/ 4 <= Z.of_nat i ->
      target s' !! i = replicate 6 (BConst false) !! i.
Proof.
  eexists. split; [vm_compute; reflexivity|].
  apply (segtree_frame (BSym 7) 1 2 4
           (mkStore (symbols 2) (replicate 6 (BConst false)) [])).
  - lia.
  - cbn. lia.
  - vm_compute. reflexivity.
Defined.

(** ** The And gate on basis states *)

(** C6. For every [a] and [b], the forward And on a state whose controls
    hold [(a, b)] and whose target holds 0 gives the state [(a, b, a and b)]:
    the controls are unchanged and the target holds the conjunction. *)
Theorem and_truth_table (a b : bool) :
  apply_op (And [true; true] false [0; 1] 2)%nat [a; b; false]
    = Some [a; b; a && b].
Proof. destruct a, b; reflexivity. Qed.

(** C7. For every [a] and [b], the adjoint And on the state
    [(a, b, a and b)] gives [(a, b, 0)], and the forward And followed by
    its adjoint takes [(a, b, 0)] back to itself. *)
Theorem and_adjoint_truth_table (a b : bool) :
  apply_op (And [true; true] true [0; 1] 2)%nat [a; b; a && b]
    = Some [a; b; false] /\
  run [And [true; true] false [0; 1] 2; And [true; true] true [0; 1] 2]%nat
      [a; b; false]
    = Some [a; b; false].
Proof. destruct a, b; split; reflexivity. Qed.

(** ** The builder *)

Lemma count_and_app ops1 ops2 :
  count_and (ops1 ++ ops2) = (count_and ops1 + count_and ops2)%nat.
Proof.
  induction ops1 as [|[cv [] cs t|c t] ops1 IH]; cbn; lia.
Qed.

Lemma pow2_pos (k : nat) : 0 < 2 ^ Z.of_nat k.
Proof. apply Z.pow_pos_nonneg; lia. Qed.

Lemma pow2_succ (k : nat) : 2 ^ Z.of_nat (S k) = 2 * 2 ^ Z.of_nat k.
Proof. rewrite Nat2Z.inj_succ, Z.pow_succ_r; lia. Qed.

Lemma mid_div (left : Z) (k : nat) :
  (left + (left + 2 ^ Z.of_nat (S k))) / 2 = left + 2 ^ Z.of_nat k.
Proof.
  rewrite pow2_succ.
  replace (left + (left + 2 * 2 ^ Z.of_nat k))
    with ((left + 2 ^ Z.of_nat k) * 2) by lia.
  apply Z.div_mul. lia.
Qed.



(** At an inner node with [mid < L] whose level has its two lines, the
    builder emits the forward And into the helper line, the operations of
    [[left, mid)] under that line, the CNOT from [active], the operations of
    [[mid, right)] under the same line, and the adjoint And, in this
    order. *)
Lemma build_splits (selection ancilla : list qubit) (L : Z)
    (nth_operation : qubit -> Z -> option (list op))
    (k : nat) (active : qubit) (depth : nat) (left right : Z)
    (sel anc : qubit) (ops_left ops_right : list op) :
  right - left <> 1 ->
  (left + right) / 2 < L ->
  selection !! depth = Some sel ->
  ancilla !! depth = Some anc ->
  build_rec selection ancilla L nth_operation k anc (depth + 1) left
    ((left + right) / 2) = Some ops_left ->
  build_rec selection ancilla L nth_operation k anc (depth + 1)
    ((left + right) / 2) right = Some ops_right ->
  build_rec selection ancilla L nth_operation (S k) active depth left right =
  Some ([And [true; false] false [active; sel] anc]
          ++ ops_left
          ++ [CNOT active anc]
          ++ ops_right
          ++ [And [true; true] true [active; sel] anc]).
Proof.
  intros Hne Hmid Hsel Hanc Hl Hr. cbn [build_rec].
  apply Z.eqb_neq in Hne. apply Z.leb_gt in Hmid.
  now rewrite Hne, Hmid, Hsel, Hanc, Hl, Hr.
Qed.

Section BuilderFacts.

Variable selection ancilla : list qubit.
Variable L : Z.
Variable nth_operation : qubit -> Z -> option (list op).
Variable control : qubit.

Hypothesis ancilla_length : length ancilla = length selection.

(** The callback answers for every index below [L] under the lines that
    can activate a leaf: the outer control and the helper lines. *)
Hypothesis nth_operation_some :
  forall c i, c ∈ control :: ancilla -> 0 <= i < L ->
    is_Some (nth_operation c i).

(** A node that is reached ([left < L]) over [[left, left + 2^k)] with [k]
    levels left is built, with one forward And for each index of its
    range below [L] but the first. *)
Lemma build_rec_count (k : nat) :
  forall active depth left,
    active ∈ control :: ancilla ->
    (depth + k = length selection)%nat ->
    0 <= left < L ->
    exists ops,
      build_rec selection ancilla L nth_operation k active depth left
        (left + 2 ^ Z.of_nat k) = Some ops /\
      ((forall c i ops', c ∈ control :: ancilla -> 0 <= i < L ->
          nth_operation c i = Some ops' -> count_and ops' = 0%nat) ->
       Z.of_nat (count_and ops)
         = Z.min (left + 2 ^ Z.of_nat k) L - left - 1).
Proof.
  induction k as [|k IH]; intros active depth left Hact Hd Hl.
  - change (2 ^ Z.of_nat 0) with 1. cbn [build_rec].
    replace (left + 1 - left =? 1) with true
      by (symmetry; apply Z.eqb_eq; lia).
    replace (left <? L) with true by (symmetry; apply Z.ltb_lt; lia).
    destruct (nth_operation_some active left Hact Hl) as (ops & E).
    exists ops. split; [exact E|].
    intros Hleaf. rewrite (Hleaf active left ops Hact Hl E). lia.
  - pose proof (pow2_pos k) as Hp. pose proof (pow2_succ k) as Hs.
    cbn [build_rec]. rewrite mid_div.
    replace (left + 2 ^ Z.of_nat (S k) - left =? 1) with false
      by (symmetry; apply Z.eqb_neq; lia).
    destruct (Z.leb_spec L (left + 2 ^ Z.of_nat k)) as [Hprune|Hsplit].
    + destruct (IH active (depth + 1)%nat left Hact ltac:(lia) Hl)
        as (ops & E & C).
      exists ops. split; [exact E|].
      intros Hleaf. specialize (C Hleaf). lia.
    + destruct (selection !! depth) as [sel|] eqn:Hsel.
      2:{ apply lookup_ge_None in Hsel. lia. }
      destruct (ancilla !! depth) as [anc|] eqn:Hanc.
      2:{ apply lookup_ge_None in Hanc. lia. }
      assert (Hanc' : anc ∈ control :: ancilla)
        by (right; eapply list_elem_of_lookup_2; eauto).
      destruct (IH anc (depth + 1)%nat left Hanc' ltac:(lia) Hl)
        as (opsl & El & Cl).
      destruct (IH anc (depth + 1)%nat (left + 2 ^ Z.of_nat k) Hanc'
                  ltac:(lia) ltac:(lia)) as (opsr & Er & Cr).
      replace (left + 2 ^ Z.of_nat (S k))
        with (left + 2 ^ Z.of_nat k + 2 ^ Z.of_nat k) by lia.
      rewrite El, Er. eexists. split; [reflexivity|].
      intros Hleaf. specialize (Cl Hleaf). specialize (Cr Hleaf).
      cbn [app count_and]. rewrite count_and_app. cbn [app count_and].
      rewrite count_and_app. cbn [count_and].
      lia.
Qed.

End BuilderFacts.

(** C5. For a selector of [w] lines with as many helper lines, an
    iteration length [1 <= L <= 2^w] and a callback that, under the outer
    control and under every helper line, answers each index below [L] with
    operations that hold no forward And, the network is built and the
    number of forward And operations in it is [L - 1]: for every such [L],
    so when [L] is a power of two, and never more than [L - 1]. *)
Theorem build_and_count (w : nat) (L : Z) (control : qubit)
    (selection ancilla : list qubit)
    (nth_operation : qubit -> Z -> option (list op)) :
  length selection = w ->
  length ancilla = w ->
  1 <= L <= 2 ^ Z.of_nat w ->
  (forall c i, c ∈ control :: ancilla -> 0 <= i < L ->
     exists ops, nth_operation c i = Some ops /\ count_and ops = 0%nat) ->
  exists ops,
    build selection ancilla L nth_operation control = Some ops /\
    Z.of_nat (count_and ops) = L - 1.
Proof.
  intros Hs Ha HL Hnth. unfold build.
  destruct (build_rec_count selection ancilla L nth_operation control
              ltac:(congruence)
              ltac:(intros c i Hc Hi;
                    destruct (Hnth c i Hc Hi) as (o & -> & _); eauto)
              (length selection) control 0%nat 0
              ltac:(left) ltac:(lia) ltac:(lia)) as (ops & E & C).
  rewrite Z.add_0_l in E, C. exists ops. split; [exact E|].
  rewrite Hs in C. rewrite C; [lia|].
  intros c i o Hc Hi Ho. destruct (Hnth c i Hc Hi) as (o' & Ho' & Hn).
  congruence.
Qed.

Lemma getitem_elem_of {A} (l : list A) (i : Z) (x : A) :
  getitem l i = Some x -> x ∈ l.
Proof.
  unfold getitem. destruct (py_index l i); [|discriminate].
  apply list_elem_of_lookup_2.
Qed.

(** Two lists of lines without a common line, by computation. *)
Lemma lines_apart (lines target : list qubit) :
  forallb (fun c => negb (existsb (Nat.eqb c) target)) lines = true ->
  forall c : qubit, c ∈ lines -> c ∉ target.
Proof.
  intros H c Hc Ht. rewrite forallb_forall in H.
  apply list_elem_of_In in Hc. specialize (H c Hc).
  apply negb_true_iff in H.
  assert (Hex : existsb (Nat.eqb c) target = true).
  { apply existsb_exists. exists c. split.
    - now apply list_elem_of_In.
    - apply Nat.eqb_refl. }
  congruence.
Qed.

(** The callback of [ApplyXToLthQubit] over [L] target qubits answers for
    every index below [L] with a single CNOT, under a control that is not
    one of the target qubits. *)
Lemma apply_x_nth_operation_ok (target : list qubit) control i :
  control ∉ target ->
  0 <= i < Z.of_nat (length target) ->
  exists t, apply_x_nth_operation target control i = Some [CNOT control t].
Proof.
  intros Hc Hi. unfold apply_x_nth_operation.
  destruct (getitem target (- (i + 1))) as [t|] eqn:Ht.
  - assert (Hne : control <> t).
    { intros ->. apply Hc. eapply getitem_elem_of; eauto. }
    apply Nat.eqb_neq in Hne. rewrite Hne. eauto.
  - exfalso. revert Ht. unfold getitem, py_index.
    replace (0 <=? - (i + 1)) with false by (symmetry; apply Z.leb_gt; lia).
    replace (- Z.of_nat (length target) <=? - (i + 1)) with true
      by (symmetry; apply Z.leb_le; lia).
    replace (- (i + 1) <? 0) with true by (symmetry; apply Z.ltb_lt; lia).
    cbn [andb]. intros Ht. apply lookup_ge_None in Ht. lia.
Qed.

Lemma build_and_count_witness :
  exists ops,
    build [1; 3]%nat [2; 4]%nat 4
      (apply_x_nth_operation [5; 6; 7; 8]%nat) 0%nat = Some ops /\
    Z.of_nat (count_and ops) = 4 - 1.
Proof.
  apply (build_and_count 2 4 0%nat [1; 3]%nat [2; 4]%nat
           (apply_x_nth_operation [5; 6; 7; 8]%nat)).
  - reflexivity.
  - reflexivity.
  - cbn. lia.
  - intros c i Hc Hi.
    destruct (apply_x_nth_operation_ok [5; 6; 7; 8]%nat c i) as [t Ht].
    + apply (lines_apart (0 :: [2; 4])%nat [5; 6; 7; 8]%nat);
        [reflexivity | exact Hc].
    + cbn. lia.
    + exists [CNOT c t]. split; [exact Ht | reflexivity].
Defined.

(** C9. An iteration length [L <= 0] or [L > 2^w] makes the construction
    of the selection register fail with InvalidBounds.  For
    [0 < L <= 2^w] the register is constructed, and the network over it is
    built for any [w] selector lines, [w] helper lines and any callback
    that answers for the indices below [L] under the outer control and
    under the helper lines. *)
Theorem selection_register_bounds (name : String.string) (w : nat) (L : Z) :
  (L <= 0 \/ 2 ^ Z.of_nat w < L ->
   selection_register name w L = inl InvalidBounds) /\
  (0 < L <= 2 ^ Z.of_nat w ->
   exists reg,
     selection_register name w L = inr reg /\
     forall control selection ancilla nth_operation,
       length selection = w ->
       length ancilla = w ->
       (forall c i, c ∈ control :: ancilla -> 0 <= i < L ->
          is_Some (nth_operation c i)) ->
       is_Some (decompose reg control selection ancilla nth_operation)).
Proof.
  unfold selection_register. split.
  - intros H.
    destruct (Z.ltb_spec 0 L), (Z.leb_spec L (2 ^ Z.of_nat w));
      cbn; try reflexivity; lia.
  - intros [H0 H1].
    apply Z.ltb_lt in H0 as H0'. apply Z.leb_le in H1 as H1'.
    rewrite H0', H1'. cbn [andb].
    eexists. split; [reflexivity|].
    intros control selection ancilla nth_operation Hs Ha Hnth.
    unfold decompose. cbn [bitsize iteration_length].
    rewrite Hs, Nat.eqb_refl. unfold build.
    destruct (build_rec_count selection ancilla L nth_operation control
                ltac:(congruence) Hnth (length selection) control 0%nat 0
                ltac:(left) ltac:(lia) ltac:(lia)) as (ops & E & _).
    rewrite Z.add_0_l in E. rewrite E. eauto.
Qed.

Lemma selection_register_bounds_witness :
  selection_register "selection" 3 9 = inl InvalidBounds /\
  exists reg,
    selection_register "selection" 3 5 = inr reg /\
    is_Some (decompose reg 0%nat [1; 3; 5]%nat [2; 4; 6]%nat
               (apply_x_nth_operation [7; 8; 9; 10; 11]%nat)).
Proof.
  split.
  - apply (proj1 (selection_register_bounds "selection" 3 9)).
    right. cbn. lia.
  - destruct (proj2 (selection_register_bounds "selection" 3 5))
      as (reg & E & H).
    + cbn. lia.
    + exists reg. split; [exact E|].
      apply H; [reflexivity | reflexivity |].
      intros c i Hc Hi.
      destruct (apply_x_nth_operation_ok [7; 8; 9; 10; 11]%nat c i)
        as [t Ht]; [ | cbn; lia | rewrite Ht; eauto].
      apply (lines_apart (0 :: [2; 4; 6])%nat [7; 8; 9; 10; 11]%nat);
        [reflexivity | exact Hc].
Defined.

(** ** The circuits of the notebook *)

(** For two selector lines, two helper lines, four target qubits and the
    callback of [ApplyXToLthQubit], the builder emits the circuit that the
    notebook writes out by hand for [L = 4]. *)
Lemma build_is_notebook_circuit :
  build [1; 3]%nat [2; 4]%nat 4 (apply_x_nth_operation [5; 6; 7; 8]%nat) 0%nat
    = Some notebook_circuit.
Proof. reflexivity. Qed.

Lemma notebook_circuit_count : count_and notebook_circuit = 3%nat.
Proof. reflexivity. Qed.

(** Simulated from that input, the circuit sets the target qubit
    [len(qubits) - 1 - n] of the selected index [n] and restores the helper
    lines; with the control off it changes nothing. *)
Lemma notebook_circuit_selects :
  run notebook_circuit (notebook_input false false)
    = Some (<[8%nat := true]> (notebook_input false false)) /\
  run notebook_circuit (notebook_input false true)
    = Some (<[7%nat := true]> (notebook_input false true)) /\
  run notebook_circuit (notebook_input true false)
    = Some (<[6%nat := true]> (notebook_input true false)) /\
  run notebook_circuit (notebook_input true true)
    = Some (<[5%nat := true]> (notebook_input true true)).
Proof. repeat split; reflexivity. Qed.

Lemma notebook_circuit_control_off (b0 b1 : bool) :
  run notebook_circuit (<[0%nat := false]> (notebook_input b0 b1))
    = Some (<[0%nat := false]> (notebook_input b0 b1)).
Proof. destruct b0, b1; reflexivity. Qed.

(** The notebook's loop over [n in range(5)]: the final state is the
    initial one with target qubit [-(n + 1)] set.  For the selector values
    5, 6 and 7, which lie above the iteration length, the circuit sets the
    target qubit of index 4: the pruned tree reads only the first selection
    qubit on that side. *)
Lemma apply_x_circuit_selects :
  exists ops,
    apply_x_circuit = Some ops /\
    count_and ops = 4%nat /\
    Forall (fun n : nat =>
              run ops (apply_x_input (Z.of_nat n))
                = Some (<[(11 - n)%nat := true]> (apply_x_input (Z.of_nat n))))
           [0; 1; 2; 3; 4]%nat /\
    Forall (fun n : nat =>
              run ops (apply_x_input (Z.of_nat n))
                = Some (<[7%nat := true]> (apply_x_input (Z.of_nat n))))
           [5; 6; 7]%nat.
Proof.
  eexists. split; [reflexivity|]. split; [reflexivity|].
  split; repeat (constructor; [reflexivity|]); constructor.
Qed.

(** ** What the built network does to a basis state *)

Lemma run_app ops1 ops2 st :
  run (ops1 ++ ops2) st =
  match run ops1 st with
  | Some st' => run ops2 st'
  | None => None
  end.
Proof.
  revert st. induction ops1 as [|o ops1 IH]; intros st; cbn [app run].
  - reflexivity.
  - destruct (apply_op o st); auto.
Qed.

Lemma apply_and_forward st c1 c2 t v1 v2 a b :
  t <> c1 -> t <> c2 ->
  st !! c1 = Some a -> st !! c2 = Some b -> st !! t = Some false ->
  apply_op (And [v1; v2] false [c1; c2] t) st
    = Some (<[t := Bool.eqb a v1 && Bool.eqb b v2]> st).
Proof.
  intros H1 H2 Ha Hb Ht. cbn [apply_op]. unfold apply_and.
  cbn [existsb and_value].
  apply Nat.eqb_neq in H1, H2. rewrite H1, H2, Ha, Hb, Ht. cbn [orb].
  now rewrite andb_true_r.
Qed.

Lemma apply_and_adjoint st c1 c2 t v1 v2 a b :
  t <> c1 -> t <> c2 ->
  st !! c1 = Some a -> st !! c2 = Some b ->
  st !! t = Some (Bool.eqb a v1 && Bool.eqb b v2) ->
  apply_op (And [v1; v2] true [c1; c2] t) st = Some (<[t := false]> st).
Proof.
  intros H1 H2 Ha Hb Ht. cbn [apply_op]. unfold apply_and.
  cbn [existsb and_value].
  apply Nat.eqb_neq in H1, H2. rewrite H1, H2, Ha, Hb, Ht. cbn [orb].
  rewrite andb_true_r. now rewrite Bool.eqb_reflx.
Qed.

Lemma apply_cnot_some st c t a b :
  c <> t -> st !! c = Some a -> st !! t = Some b ->
  apply_op (CNOT c t) st = Some (<[t := xorb b a]> st).
Proof.
  intros H Ha Hb. cbn [apply_op]. unfold apply_cnot.
  apply Nat.eqb_neq in H. now rewrite H, Ha, Hb.
Qed.

Section BuilderSemantics.

Variable selection ancilla : list qubit.
Variable L : Z.
Variable nth_operation : qubit -> Z -> option (list op).
Variable control : qubit.

(** Number of qubits of the states, and the action of the operation of
    index [i] on a state. *)
Variable N : nat.
Variable F : Z -> basis -> basis.

(** The lines the builder itself works on are pairwise distinct, and the
    per-index operations neither read nor write them. *)
Hypothesis lines_nodup : NoDup (control :: selection ++ ancilla).
Hypothesis ancilla_length : length ancilla = length selection.
Hypothesis F_length : forall i st, length (F i st) = length st.
Hypothesis F_lookup :
  forall i st (q : qubit),
    q ∈ control :: selection ++ ancilla -> F i st !! q = st !! q.
Hypothesis F_insert :
  forall i st (q : qubit) b,
    q ∈ control :: selection ++ ancilla ->
    F i (<[q := b]> st) = <[q := b]> (F i st).

(** Under the activation line [c] the callback's operations act as [F i]
    when [c] holds 1 and as the identity when it holds 0. *)
Hypothesis nth_operation_run :
  forall (c : qubit) i (st : basis) (a : bool),
    c ∈ control :: selection ++ ancilla ->
    0 <= i < L -> length st = N -> st !! c = Some a ->
    exists ops,
      nth_operation c i = Some ops /\
      run ops st = Some (if a then F i st else st).

Lemma ancilla_line (j : nat) (q : qubit) :
  ancilla !! j = Some q -> q ∈ control :: selection ++ ancilla.
Proof.
  intros H. apply list_elem_of_lookup_2 in H.
  apply elem_of_cons. right. apply elem_of_app. now right.
Qed.

Lemma selection_line (j : nat) (q : qubit) :
  selection !! j = Some q -> q ∈ control :: selection ++ ancilla.
Proof.
  intros H. apply list_elem_of_lookup_2 in H.
  apply elem_of_cons. right. apply elem_of_app. now left.
Qed.

Lemma ancilla_not_control (j : nat) (q : qubit) :
  ancilla !! j = Some q -> q <> control.
Proof.
  intros H ->. apply NoDup_cons in lines_nodup as [Hc _]. apply Hc.
  apply elem_of_app. right. eapply list_elem_of_lookup_2; eauto.
Qed.

Lemma ancilla_not_selection (j : nat) (q : qubit) (i : nat) (q' : qubit) :
  ancilla !! j = Some q -> selection !! i = Some q' -> q <> q'.
Proof.
  intros Ha Hs ->. apply NoDup_cons in lines_nodup as [_ Hd].
  apply NoDup_app in Hd as (_ & Hd & _).
  eapply Hd; eapply list_elem_of_lookup_2; eauto.
Qed.

Lemma ancilla_distinct (i j : nat) (q q' : qubit) :
  ancilla !! i = Some q -> ancilla !! j = Some q' -> i <> j -> q <> q'.
Proof.
  intros Hi Hj Hne ->. apply NoDup_cons in lines_nodup as [_ Hd].
  apply NoDup_app in Hd as (_ & _ & Hd).
  apply Hne. eapply NoDup_lookup; eauto.
Qed.

Lemma node_state_insert depth k m st q b :
  node_state N selection ancilla (S depth) k m st ->
  ancilla !! depth = Some q ->
  (forall j q', (S depth <= j)%nat -> ancilla !! j = Some q' ->
     st !! q' = Some false) ->
  node_state N selection ancilla (S depth) k m (<[q := b]> st).
Proof.
  intros (Hlen & Hanc & Hsel) Hq _. split; [|split].
  - now rewrite length_insert.
  - intros j q' Hj Hq'. rewrite list_lookup_insert_ne; [eauto|].
    eapply ancilla_distinct; eauto. lia.
  - intros j q' Hj Hq'. rewrite list_lookup_insert_ne; [eauto|].
    eapply ancilla_not_selection; eauto.
Qed.

Lemma node_state_F depth k m st i :
  node_state N selection ancilla depth k m st ->
  node_state N selection ancilla depth k m (F i st).
Proof.
  intros (Hlen & Hanc & Hsel). split; [|split].
  - now rewrite F_length.
  - intros j q Hj Hq. rewrite F_lookup; eauto using ancilla_line.
  - intros j q Hj Hq. rewrite F_lookup; eauto using selection_line.
Qed.

Lemma cond_F_lookup (c : bool) i st (q : qubit) :
  q ∈ control :: selection ++ ancilla ->
  (if c then F i st else st) !! q = st !! q.
Proof. intros H. destruct c; [now apply F_lookup | reflexivity]. Qed.

(** From a node to its children: the lower digits of [m]. *)
Lemma node_state_child depth k m st :
  0 <= m < 2 ^ Z.of_nat (S k) ->
  node_state N selection ancilla depth (S k) m st ->
  node_state N selection ancilla (S depth) k
    (if Z.testbit m (Z.of_nat k) then m - 2 ^ Z.of_nat k else m) st.
Proof.
  intros Hm (Hlen & Hanc & Hsel). split; [exact Hlen|split].
  - intros j q Hj Hq. apply (Hanc j); [lia | exact Hq].
  - intros j q Hj Hq.
    rewrite (Hsel (S j) q) by
      (try lia; now replace (depth + S j)%nat with (S depth + j)%nat by lia).
    f_equal. replace (S k - 1 - S j)%nat with (k - 1 - j)%nat by lia.
    assert (Hbits : bits_be k (if Z.testbit m (Z.of_nat k)
                               then m - 2 ^ Z.of_nat k else m)
                    = bits_be k m)
      by (destruct (Z.testbit m (Z.of_nat k));
          [apply bits_be_sub_pow2 | reflexivity]).
    pose proof (bits_be_lookup k m j Hj) as H1.
    rewrite <- Hbits, bits_be_lookup in H1 by exact Hj.
    now injection H1.
Qed.

(** A node that is active only if the selected index [left + m] is below
    [L] runs as the operation of that index when its activation line holds
    1 and as the identity when it holds 0, and returns every helper line
    to 0. *)
Lemma build_rec_run (k : nat) :
  forall active depth left st (a : bool) m,
    (depth + k = length selection)%nat ->
    active_at control ancilla depth active ->
    node_state N selection ancilla depth k m st ->
    st !! active = Some a ->
    0 <= m < 2 ^ Z.of_nat k ->
    0 <= left ->
    (a = false \/ left + m < L) ->
    exists ops,
      build_rec selection ancilla L nth_operation k active depth left
        (left + 2 ^ Z.of_nat k) = Some ops /\
      run ops st = Some (if a then F (left + m) st else st).
Proof.
  induction k as [|k IH];
    intros active depth left st a m Hd Hact Hst Ha Hm Hl Hon.
  - (* leaf *)
    change (2 ^ Z.of_nat 0) with 1 in *. assert (m = 0) as -> by lia.
    rewrite Z.add_0_r in *. cbn [build_rec].
    replace (left + 1 - left =? 1) with true
      by (symmetry; apply Z.eqb_eq; lia).
    assert (Hline : active ∈ control :: selection ++ ancilla).
    { destruct Hact as [->|(j & _ & Hj)];
        [apply elem_of_cons; now left | eapply ancilla_line; eauto]. }
    destruct (Z.ltb_spec left L) as [HL|HL].
    + destruct Hst as (Hlen & _).
      apply (nth_operation_run active left st a Hline); auto; lia.
    + exists []. split; [reflexivity|].
      destruct Hon as [->|]; [reflexivity | lia].
  - (* inner node *)
    pose proof (pow2_pos k) as Hp. pose proof (pow2_succ k) as Hs.
    cbn [build_rec]. rewrite mid_div.
    replace (left + 2 ^ Z.of_nat (S k) - left =? 1) with false
      by (symmetry; apply Z.eqb_neq; lia).
    pose proof (node_state_child depth k m st Hm Hst) as Hchild.
    set (m' := if Z.testbit m (Z.of_nat k) then m - 2 ^ Z.of_nat k else m)
      in *.
    assert (Hbit : Z.testbit m (Z.of_nat k) = negb (m <? 2 ^ Z.of_nat k)).
    { destruct (Z.ltb_spec m (2 ^ Z.of_nat k)).
      - apply testbit_top_low. lia.
      - apply testbit_top_high. lia. }
    assert (Hm' : 0 <= m' < 2 ^ Z.of_nat k /\
                  m = m' + (if Z.testbit m (Z.of_nat k)
                            then 2 ^ Z.of_nat k else 0)).
    { subst m'. rewrite Hbit.
      destruct (Z.ltb_spec m (2 ^ Z.of_nat k)); cbn [negb]; lia. }
    destruct Hm' as [Hm' Hsplit].
    replace (depth + 1)%nat with (S depth) by lia.
    destruct (Z.leb_spec L (left + 2 ^ Z.of_nat k)) as [Hprune|Hnoprune].
    + (* pruned: only [[left, mid)], under [active] *)
      assert (Hact' : active_at control ancilla (S depth) active).
      { destruct Hact as [->|(j & Hj & Hq)]; [now left|].
        right. exists j. split; [lia | exact Hq]. }
      destruct (IH active (S depth) left st a m' ltac:(lia) Hact' Hchild Ha
                  Hm' Hl) as (ops & E & R).
      { destruct Hon as [->|Hon]; [now left|]. right.
        destruct (Z.testbit m (Z.of_nat k)); lia. }
      exists ops. split; [exact E|]. rewrite R.
      destruct a; [|reflexivity].
      destruct Hon as [[=]|Hon].
      replace m' with m; [reflexivity|].
      destruct (Z.testbit m (Z.of_nat k)); lia.
    + (* split on the helper line of this level *)
      destruct (selection !! depth) as [sel|] eqn:Hsel.
      2:{ apply lookup_ge_None in Hsel. lia. }
      destruct (ancilla !! depth) as [anc|] eqn:Hanc.
      2:{ apply lookup_ge_None in Hanc. lia. }
      pose proof Hst as (Hlen & Hzero & Hbits).
      assert (Hs0 : st !! sel = Some (Z.testbit m (Z.of_nat k))).
      { rewrite (Hbits 0%nat sel) by
          (try lia; now rewrite Nat.add_0_r).
        do 2 f_equal. lia. }
      assert (Ha0 : st !! anc = Some false) by (apply (Hzero depth); auto).
      assert (Hanc_act : anc <> active).
      { destruct Hact as [->|(j & Hj & Hq)].
        - eapply ancilla_not_control; eauto.
        - eapply ancilla_distinct; eauto. lia. }
      assert (Hanc_sel : anc <> sel)
        by (eapply ancilla_not_selection; eauto).
      assert (Hanc_line : anc ∈ control :: selection ++ ancilla)
        by (eapply ancilla_line; eauto).
      assert (Hanc_lt : (anc < length st)%nat)
        by (apply lookup_lt_Some in Ha0; exact Ha0).
      assert (Hact' : active_at control ancilla (S depth) anc)
        by (right; exists depth; split; [lia | exact Hanc]).
      subst m'. remember (Z.testbit m (Z.of_nat k)) as s eqn:Es.
      clear Es Hbit. set (m' := if s then m - 2 ^ Z.of_nat k else m) in *.
      (* the forward And *)
      set (st1 := <[anc := Bool.eqb a true && Bool.eqb s false]> st).
      assert (E1 : apply_op (And [true; false] false [active; sel] anc) st
                   = Some st1)
        by (now apply apply_and_forward).
      assert (Hst1 : node_state N selection ancilla (S depth) k m' st1).
      { apply node_state_insert with (depth := depth); auto.
        intros j q' Hj Hq'. apply (Hzero j); [lia | exact Hq']. }
      (* the left branch *)
      destruct (IH anc (S depth) left st1
                  (Bool.eqb a true && Bool.eqb s false) m'
                  ltac:(lia) Hact' Hst1
                  ltac:(subst st1; now apply list_lookup_insert_eq)
                  Hm' Hl) as (opsl & El & Rl).
      { destruct a, s; cbn; auto; right;
          destruct Hon as [[=]|Hon]; subst m'; cbn in *; lia. }
      set (x := Bool.eqb a true && Bool.eqb s false) in *.
      set (st2 := if x then F (left + m') st1 else st1) in *.
      assert (Hst2 : node_state N selection ancilla (S depth) k m' st2)
        by (subst st2; destruct x; [now apply node_state_F | exact Hst1]).
      assert (Hact_line : active ∈ control :: selection ++ ancilla).
      { destruct Hact as [->|(j & _ & Hq)];
          [apply elem_of_cons; now left | eapply ancilla_line; eauto]. }
      assert (Hsel_line : sel ∈ control :: selection ++ ancilla)
        by (eapply selection_line; eauto).
      assert (H2act : st2 !! active = Some a).
      { subst st2 st1. rewrite cond_F_lookup by exact Hact_line.
        rewrite list_lookup_insert_ne; auto. }
      assert (H2sel : st2 !! sel = Some s).
      { subst st2 st1. rewrite cond_F_lookup by exact Hsel_line.
        rewrite list_lookup_insert_ne; auto. }
      assert (H2anc : st2 !! anc = Some x).
      { subst st2 st1. rewrite cond_F_lookup by exact Hanc_line.
        now apply list_lookup_insert_eq. }
      (* the bit flip between the branches *)
      set (y := xorb x a) in *.
      set (st3 := <[anc := y]> st2).
      assert (E3 : apply_op (CNOT active anc) st2 = Some st3)
        by (apply apply_cnot_some; auto).
      assert (H2len : length st2 = N) by (destruct Hst2 as [H _]; exact H).
      assert (Hst3 : node_state N selection ancilla (S depth) k m' st3).
      { apply node_state_insert with (depth := depth); auto.
        destruct Hst2 as (_ & H & _). exact H. }
      (* the right branch *)
      destruct (IH anc (S depth) (left + 2 ^ Z.of_nat k) st3 y m'
                  ltac:(lia) Hact' Hst3
                  ltac:(subst st3; apply list_lookup_insert_eq; lia)
                  Hm' ltac:(lia)) as (opsr & Er & Rr).
      { subst x y. destruct a, s; cbn; auto; right;
          destruct Hon as [[=]|Hon]; subst m'; cbn in *; lia. }
      set (st4 := if y then F (left + 2 ^ Z.of_nat k + m') st3 else st3) in *.
      assert (H4act : st4 !! active = Some a).
      { subst st4 st3. rewrite cond_F_lookup by exact Hact_line.
        rewrite list_lookup_insert_ne; auto. }
      assert (H4sel : st4 !! sel = Some s).
      { subst st4 st3. rewrite cond_F_lookup by exact Hsel_line.
        rewrite list_lookup_insert_ne; auto. }
      assert (H4anc : st4 !! anc = Some (Bool.eqb a true && Bool.eqb s true)).
      { subst st4 st3. rewrite cond_F_lookup by exact Hanc_line.
        rewrite list_lookup_insert_eq by lia.
        f_equal. subst x y. destruct a, s; reflexivity. }
      (* the adjoint And *)
      assert (E5 : apply_op (And [true; true] true [active; sel] anc) st4
                   = Some (<[anc := false]> st4))
        by (now apply apply_and_adjoint with (a := a) (b := s)).
      replace (left + 2 ^ Z.of_nat (S k))
        with (left + 2 ^ Z.of_nat k + 2 ^ Z.of_nat k) by lia.
      rewrite El, Er. eexists. split; [reflexivity|].
      cbn [app run]. rewrite E1, run_app, Rl. fold st2.
      cbn [app run]. rewrite E3, run_app, Rr. fold st4.
      cbn [run]. rewrite E5. f_equal.
      (* the final state *)
      assert (Hid : forall i, <[anc := false]> (F i st) = F i st)
        by (intros i; apply list_insert_id; now rewrite F_lookup).
      subst st4 st3 st2 st1 y x.
      destruct a, s; cbn [Bool.eqb andb xorb] in *.
      * rewrite (list_insert_id st anc false Ha0).
        rewrite F_insert, list_insert_insert_eq by exact Hanc_line.
        rewrite Hid. f_equal; try (subst m'; cbn; lia).
      * rewrite !F_insert, !list_insert_insert_eq by exact Hanc_line.
        rewrite Hid. f_equal; try (subst m'; cbn; lia).
      * rewrite !list_insert_insert_eq. now apply list_insert_id.
      * rewrite !list_insert_insert_eq. now apply list_insert_id.
Qed.

(** The network applies the operation of the selected index: on a state
    whose selection lines hold the binary digits of an index [n < L] and
    whose helper lines hold 0, the built network acts as operation [n]
    when the outer control holds 1 and as the identity when it holds 0;
    helper, selection and control lines end as they began. *)
Theorem build_selects (st : basis) (a : bool) (n : Z) :
  node_state N selection ancilla 0 (length selection) n st ->
  st !! control = Some a ->
  0 <= n < 2 ^ Z.of_nat (length selection) ->
  n < L ->
  exists ops,
    build selection ancilla L nth_operation control = Some ops /\
    run ops st = Some (if a then F n st else st).
Proof.
  intros Hst Ha Hn HL. unfold build.
  destruct (build_rec_run (length selection) control 0%nat 0 st a n
              ltac:(lia) ltac:(now left) Hst Ha Hn ltac:(lia)
              ltac:(right; lia)) as (ops & E & R).
  rewrite Z.add_0_l in E, R. eauto.
Qed.

End BuilderSemantics.

(** ** [ApplyXToLthQubit] *)

(** [ApplyXToLthQubit] over any distinct lines: on a state whose selection
    qubits hold the digits of [n < L] and whose helper lines hold 0, the
    decomposition flips target qubit [-(n + 1)] when the control holds 1 and
    changes nothing when it holds 0. *)
Theorem apply_x_selects (control : qubit)
    (selection ancilla target : list qubit)
    (st : basis) (a : bool) (n : Z) :
  NoDup (control :: selection ++ ancilla ++ target) ->
  length ancilla = length selection ->
  Forall (fun t => (t < length st)%nat) target ->
  st !! control = Some a ->
  (forall j q, ancilla !! j = Some q -> st !! q = Some false) ->
  (forall j q, selection !! j = Some q ->
     st !! q = Some (Z.testbit n (Z.of_nat (length selection - 1 - j)))) ->
  0 <= n < 2 ^ Z.of_nat (length selection) ->
  n < Z.of_nat (length target) ->
  exists ops,
    build selection ancilla (Z.of_nat (length target))
      (apply_x_nth_operation target) control = Some ops /\
    run ops st = Some (if a then flip_target target n st else st).
Proof.
  intros Hnd Hlen Htgt Ha Hanc Hsel Hn HL.
  assert (Hnd' : NoDup (control :: selection ++ ancilla) /\
                 forall q t, q ∈ control :: selection ++ ancilla ->
                             t ∈ target -> q <> t).
  { rewrite app_assoc in Hnd.
    change (control :: (selection ++ ancilla) ++ target)
      with ((control :: selection ++ ancilla) ++ target) in Hnd.
    apply NoDup_app in Hnd as (H1 & H2 & _). split; [exact H1|].
    intros q t Hq Ht ->. exact (H2 t Hq Ht). }
  destruct Hnd' as [Hlines Hdisj].
  apply (build_selects selection ancilla (Z.of_nat (length target))
           (apply_x_nth_operation target) control (length st)
           (flip_target target)); auto.
  - intros i st'. unfold flip_target.
    destruct (getitem target _); [|reflexivity].
    destruct (st' !! _); [apply length_insert | reflexivity].
  - intros i st' q Hq. unfold flip_target.
    destruct (getitem target _) as [t|] eqn:Ht; [|reflexivity].
    destruct (st' !! t); [|reflexivity].
    apply list_lookup_insert_ne. intros ->.
    eapply Hdisj; eauto using getitem_elem_of.
  - intros i st' q b Hq. unfold flip_target.
    destruct (getitem target _) as [t|] eqn:Ht; [|reflexivity].
    assert (q <> t) by (eapply Hdisj; eauto using getitem_elem_of).
    rewrite list_lookup_insert_ne by assumption.
    destruct (st' !! t); [|reflexivity].
    rewrite list_insert_insert. destruct (decide (t = q)); congruence.
  - intros c i st' a' Hc Hi Hlen' Hc'.
    assert (Hct : c ∉ target) by (intros Hin; eapply Hdisj; eauto).
    destruct (apply_x_nth_operation_ok target c i Hct Hi) as [t Ht].
    exists [CNOT c t]. split; [exact Ht|].
    unfold apply_x_nth_operation in Ht. unfold flip_target.
    destruct (getitem target (- (i + 1))) as [t'|] eqn:Hget; [|discriminate].
    assert (Hin : t' ∈ target) by eauto using getitem_elem_of.
    assert (Hne : c <> t') by (eapply Hdisj; eauto).
    apply Nat.eqb_neq in Hne as Hneb. rewrite Hneb in Ht.
    injection Ht as <-.
    assert (Hlt : (t' < length st')%nat).
    { rewrite Hlen'. rewrite Forall_forall in Htgt. now apply Htgt. }
    destruct (st' !! t') as [b|] eqn:Hb.
    2:{ apply lookup_ge_None in Hb. lia. }
    cbn [run]. rewrite (apply_cnot_some st' c t' a' b) by assumption.
    destruct a'.
    + now rewrite xorb_true_r.
    + rewrite xorb_false_r. f_equal. now apply list_insert_id.
  - split; [reflexivity|]. split.
    + intros j q _ Hq. eapply Hanc; eauto.
    + intros j q _ Hq. now apply Hsel.
Qed.

(** * Further properties of the code *)

(** ** Truth values in [target] *)

Lemma of_bits_snoc bs b : of_bits (bs ++ [b]) = 2 * of_bits bs + Z.b2z b.
Proof. unfold of_bits. now rewrite fold_left_app. Qed.

Lemma of_bits_range bs : 0 <= of_bits bs < 2 ^ Z.of_nat (length bs).
Proof.
  induction bs as [|b bs IH] using rev_ind.
  - cbn. lia.
  - rewrite of_bits_snoc, length_app. cbn [length].
    replace (length bs + 1)%nat with (S (length bs)) by lia.
    rewrite pow2_succ. destruct b; cbn [Z.b2z]; lia.
Qed.

Lemma bits_be_of_bits bs : bits_be (length bs) (of_bits bs) = bs.
Proof.
  induction bs as [|b bs IH] using rev_ind.
  - reflexivity.
  - rewrite of_bits_snoc, length_app. cbn [length].
    replace (length bs + 1)%nat with (S (length bs)) by lia.
    rewrite bits_be_snoc.
    replace ((2 * of_bits bs + Z.b2z b) / 2) with (of_bits bs).
    + rewrite IH. do 2 f_equal. apply Z.testbit_0_r.
    + rewrite Z.add_comm, Z.mul_comm, Z.div_add by lia.
      destruct b;
        [change (Z.b2z true / 2) with 0 | change (Z.b2z false / 2) with 0];
        lia.
Qed.

Lemma eval_total_control_of_bits rho sels (m : Z) :
  0 <= m < 2 ^ Z.of_nat (length sels) ->
  eval rho (total_control_expr sels (bits_be (length sels) m))
    = (m =? of_bits (map (eval rho) sels)).
Proof.
  intros Hm.
  pose proof (of_bits_range (map (eval rho) sels)) as Hr.
  pose proof (bits_be_of_bits (map (eval rho) sels)) as Hb.
  rewrite length_map in Hr, Hb.
  now apply eval_total_control_bits.
Qed.

(** Truth values after a complete walk, for any control and any selection
    expressions. *)
Lemma segtree_truth_values (ctrl : bexp) (s : store) :
  2 ^ Z.of_nat (length (selection s)) <= Z.of_nat (length (target s)) ->
  exists s',
    segtree ctrl 0 0 (2 ^ Z.of_nat (length (selection s))) s = Returns tt s' /\
    selection s' = selection s /\
    length (target s') = length (target s) /\
    forall (rho : nat -> bool) (m : nat) (t : bexp),
      target s !! m = Some t ->
      exists t',
        target s' !! m = Some t' /\
        eval rho t' =
          xorb (eval rho t)
            (eval rho ctrl &&
             (Z.of_nat m =? of_bits (map (eval rho) (selection s)))).
Proof.
  intros Hlen.
  destruct (segtree_full ctrl s Hlen) as (s' & E & Hs & Hl & T).
  exists s'. split; [exact E|]. repeat split; auto.
  intros rho m t Ht. rewrite T, Ht.
  pose proof (of_bits_range (map (eval rho) (selection s))) as Hr.
  rewrite length_map in Hr.
  destruct (Z.ltb_spec (Z.of_nat m) (2 ^ Z.of_nat (length (selection s))))
    as [Hm|Hm].
  - eexists. split; [reflexivity|]. cbn [eval].
    rewrite eval_leaf_ctrl, eval_total_control_of_bits by lia. reflexivity.
  - exists t. split; [reflexivity|].
    replace (Z.of_nat m =? _) with false by (symmetry; apply Z.eqb_neq; lia).
    now rewrite andb_false_r, xorb_false_r.
Qed.

(** X1. A complete walk [segtree(ctrl, selection, target, 0, 0, 2^w)],
    [w = len(selection)], over a target of at least [2^w] entries returns,
    keeps [selection] and the length of [target], and under every valuation
    of the symbols flips the truth value of exactly the entry whose index
    is the number that the values of the selection expressions spell, most
    significant first, and only when [ctrl] holds; entries from [2^w] on
    keep their truth value. *)
Theorem segtree_flips_selected_entry (ctrl : bexp) (s : store) :
  2 ^ Z.of_nat (length (selection s)) <= Z.of_nat (length (target s)) ->
  exists s',
    segtree ctrl 0 0 (2 ^ Z.of_nat (length (selection s))) s = Returns tt s' /\
    selection s' = selection s /\
    length (target s') = length (target s) /\
    forall (rho : nat -> bool) (m : nat) (t : bexp),
      target s !! m = Some t ->
      exists t',
        target s' !! m = Some t' /\
        eval rho t' =
          xorb (eval rho t)
            (eval rho ctrl &&
             (Z.of_nat m =? of_bits (map (eval rho) (selection s)))).
Proof. exact (segtree_truth_values ctrl s). Qed.

Lemma segtree_flips_selected_entry_witness :
  exists s',
    segtree (BSym 7) 0 0 (2 ^ Z.of_nat 2)
      (mkStore (symbols 2) (replicate 4 (BConst false)) []) = Returns tt s' /\
    selection s' = symbols 2 /\
    length (target s') = 4%nat /\
    forall (rho : nat -> bool) (m : nat) (t : bexp),
      replicate 4 (BConst false) !! m = Some t ->
      exists t',
        target s' !! m = Some t' /\
        eval rho t' =
          xorb (eval rho t)
            (eval rho (BSym 7) &&
             (Z.of_nat m =? of_bits (map (eval rho) (symbols 2)))).
Proof.
  apply (segtree_flips_selected_entry (BSym 7)
         (mkStore (symbols 2) (replicate 4 (BConst false)) [])).
  cbn. lia.
Defined.

(** X2. Two complete walks under the same control return and leave every
    entry of [target] with the truth value it had, under every valuation:
    the walk is its own inverse. *)
Theorem segtree_twice (ctrl : bexp) (s : store) :
  2 ^ Z.of_nat (length (selection s)) <= Z.of_nat (length (target s)) ->
  exists s1 s2,
    segtree ctrl 0 0 (2 ^ Z.of_nat (length (selection s))) s = Returns tt s1 /\
    segtree ctrl 0 0 (2 ^ Z.of_nat (length (selection s))) s1
      = Returns tt s2 /\
    length (target s2) = length (target s) /\
    forall (rho : nat -> bool) (m : nat),
      eval rho <$> target s2 !! m = eval rho <$> target s !! m.
Proof.
  intros Hlen.
  destruct (segtree_truth_values ctrl s Hlen)
    as (s1 & E1 & Hs1 & Hl1 & T1).
  destruct (segtree_truth_values ctrl s1) as (s2 & E2 & Hs2 & Hl2 & T2);
    [rewrite Hs1, Hl1; exact Hlen|].
  rewrite Hs1 in E2, T2.
  exists s1, s2. split; [exact E1|]. split; [exact E2|].
  split; [congruence|].
  intros rho m. destruct (target s !! m) as [t|] eqn:Ht.
  - destruct (T1 rho m t Ht) as (t1 & Ht1 & Ev1).
    destruct (T2 rho m t1 Ht1) as (t2 & Ht2 & Ev2).
    rewrite Ht2. cbn. f_equal. rewrite Ev2, Ev1.
    now rewrite xorb_assoc, xorb_nilpotent, xorb_false_r.
  - apply lookup_ge_None in Ht.
    rewrite (proj2 (lookup_ge_None (target s2) m)) by lia. reflexivity.
Qed.

Lemma segtree_twice_witness :
  exists s1 s2,
    segtree (BSym 7) 0 0 (2 ^ Z.of_nat 2)
      (mkStore (symbols 2) (replicate 4 (BConst false)) []) = Returns tt s1 /\
    segtree (BSym 7) 0 0 (2 ^ Z.of_nat 2) s1 = Returns tt s2 /\
    length (target s2) = 4%nat /\
    forall (rho : nat -> bool) (m : nat),
      eval rho <$> target s2 !! m
        = eval rho <$> replicate 4 (BConst false) !! m.
Proof.
  apply (segtree_twice (BSym 7)
         (mkStore (symbols 2) (replicate 4 (BConst false)) [])).
  cbn. lia.
Defined.

(** Truth values after [total_control], for any selection expressions. *)
Lemma total_control_truth_values (s : store) :
  2 ^ Z.of_nat (length (selection s)) <= Z.of_nat (length (target s)) ->
  exists s',
    total_control s = Returns tt s' /\
    selection s' = selection s /\
    length (target s') = length (target s) /\
    (forall m : nat,
       2 ^ Z.of_nat (length (selection s)) <= Z.of_nat m ->
       target s' !! m = target s !! m) /\
    forall (rho : nat -> bool) (m : nat) (t : bexp),
      target s !! m = Some t ->
      exists t',
        target s' !! m = Some t' /\
        eval rho t' =
          xorb (eval rho t)
            (Z.of_nat m =? of_bits (map (eval rho) (selection s))).
Proof.
  intros Hlen.
  destruct (total_control_full s Hlen) as (s' & E & Hs & Hl & T).
  exists s'. split; [exact E|]. repeat split; auto.
  - intros m Hm. rewrite T.
    now replace (Z.of_nat m <? _) with false
      by (symmetry; apply Z.ltb_ge; lia).
  - intros rho m t Ht. rewrite T, Ht.
    pose proof (of_bits_range (map (eval rho) (selection s))) as Hr.
    rewrite length_map in Hr.
    destruct (Z.ltb_spec (Z.of_nat m) (2 ^ Z.of_nat (length (selection s))))
      as [Hm|Hm].
    + eexists. split; [reflexivity|]. cbn [eval].
      now rewrite eval_total_control_of_bits by lia.
    + exists t. split; [reflexivity|].
      replace (Z.of_nat m =? _) with false by (symmetry; apply Z.eqb_neq; lia).
      now rewrite xorb_false_r.
Qed.

(** X3. [total_control(selection, target)] over a target of at least [2^w]
    entries, [w = len(selection)], returns, keeps [selection] and the
    length of [target], leaves the entries from [2^w] on untouched, and
    under every valuation flips the truth value of exactly the entry whose
    index is the number spelt by the values of the selection expressions. *)
Theorem total_control_flips_selected_entry (s : store) :
  2 ^ Z.of_nat (length (selection s)) <= Z.of_nat (length (target s)) ->
  exists s',
    total_control s = Returns tt s' /\
    selection s' = selection s /\
    length (target s') = length (target s) /\
    (forall m : nat,
       2 ^ Z.of_nat (length (selection s)) <= Z.of_nat m ->
       target s' !! m = target s !! m) /\
    forall (rho : nat -> bool) (m : nat) (t : bexp),
      target s !! m = Some t ->
      exists t',
        target s' !! m = Some t' /\
        eval rho t' =
          xorb (eval rho t)
            (Z.of_nat m =? of_bits (map (eval rho) (selection s))).
Proof. exact (total_control_truth_values s). Qed.

Lemma total_control_flips_selected_entry_witness :
  exists s',
    total_control
      (mkStore (symbols 2) (replicate 4 (BConst false)) []) = Returns tt s' /\
    selection s' = symbols 2 /\
    length (target s') = 4%nat /\
    (forall m : nat,
       2 ^ Z.of_nat 2 <= Z.of_nat m ->
       target s' !! m = replicate 4 (BConst false) !! m) /\
    forall (rho : nat -> bool) (m : nat) (t : bexp),
      replicate 4 (BConst false) !! m = Some t ->
      exists t',
        target s' !! m = Some t' /\
        eval rho t' =
          xorb (eval rho t)
            (Z.of_nat m =? of_bits (map (eval rho) (symbols 2))).
Proof.
  apply (total_control_flips_selected_entry
         (mkStore (symbols 2) (replicate 4 (BConst false)) [])).
  cbn. lia.
Defined.

(** X4. [total_control] followed by a complete walk of [segtree] under the
    control [true] on the same lists returns and leaves every entry of
    [target] with the truth value it had: each construction undoes the
    other. *)
Theorem segtree_undoes_total_control (s : store) :
  2 ^ Z.of_nat (length (selection s)) <= Z.of_nat (length (target s)) ->
  exists s1 s2,
    total_control s = Returns tt s1 /\
    segtree (BConst true) 0 0 (2 ^ Z.of_nat (length (selection s))) s1
      = Returns tt s2 /\
    length (target s2) = length (target s) /\
    forall (rho : nat -> bool) (m : nat),
      eval rho <$> target s2 !! m = eval rho <$> target s !! m.
Proof.
  intros Hlen.
  destruct (total_control_truth_values s Hlen)
    as (s1 & E1 & Hs1 & Hl1 & _ & T1).
  destruct (segtree_truth_values (BConst true) s1)
    as (s2 & E2 & Hs2 & Hl2 & T2);
    [rewrite Hs1, Hl1; exact Hlen|].
  rewrite Hs1 in E2, T2.
  exists s1, s2. split; [exact E1|]. split; [exact E2|].
  split; [congruence|].
  intros rho m. destruct (target s !! m) as [t|] eqn:Ht.
  - destruct (T1 rho m t Ht) as (t1 & Ht1 & Ev1).
    destruct (T2 rho m t1 Ht1) as (t2 & Ht2 & Ev2).
    rewrite Ht2. cbn [fmap option_fmap option_map]. f_equal.
    rewrite Ev2, Ev1. cbn [eval andb].
    now rewrite xorb_assoc, xorb_nilpotent, xorb_false_r.
  - apply lookup_ge_None in Ht.
    rewrite (proj2 (lookup_ge_None (target s2) m)) by lia. reflexivity.
Qed.

Lemma segtree_undoes_total_control_witness :
  exists s1 s2,
    total_control
      (mkStore (symbols 2) (replicate 4 (BConst false)) []) = Returns tt s1 /\
    segtree (BConst true) 0 0 (2 ^ Z.of_nat 2) s1 = Returns tt s2 /\
    length (target s2) = 4%nat /\
    forall (rho : nat -> bool) (m : nat),
      eval rho <$> target s2 !! m
        = eval rho <$> replicate 4 (BConst false) !! m.
Proof.
  apply (segtree_undoes_total_control
         (mkStore (symbols 2) (replicate 4 (BConst false)) [])).
  cbn. lia.
Defined.

(** ** Calls of [segtree] that do not return *)

Lemma getitem_some_range {A} (l : list A) (i : Z) :
  0 <= i < Z.of_nat (length l) -> exists x, getitem l i = Some x.
Proof.
  intros H. rewrite getitem_range by exact H.
  destruct (l !! Z.to_nat i) as [x|] eqn:E; [eauto|].
  apply lookup_ge_None in E. lia.
Qed.

Lemma getitem_none_ge {A} (l : list A) (i : Z) :
  Z.of_nat (length l) <= i -> getitem l i = None.
Proof.
  intros H. unfold getitem, py_index.
  replace (i <? Z.of_nat (length l)) with false
    by (symmetry; apply Z.ltb_ge; lia).
  replace (i <? 0) with false by (symmetry; apply Z.ltb_ge; lia).
  now rewrite !andb_false_r.
Qed.

(** A node over [2^k] indices with fewer than [k] entries of [selection]
    left: the assertion fails on the leftmost path, before any leaf. *)
Lemma segtree_rec_short_selection (j : nat) :
  forall fuel ctrl depth left (k : nat) s,
    0 <= depth ->
    Z.of_nat (length (selection s)) - depth = Z.of_nat j ->
    (j < k)%nat -> (j < fuel)%nat ->
    exists s',
      segtree_rec fuel ctrl depth left (left + 2 ^ Z.of_nat k) s
        = Raises AssertionError s' /\
      selection s' = selection s /\ target s' = target s.
Proof.
  induction j as [|j IH]; intros fuel ctrl depth left k s Hd Hj Hk Hf;
    (destruct fuel as [|fuel]; [lia|]);
    (destruct k as [|k]; [lia|]);
    pose proof (pow2_pos k) as Hp; pose proof (pow2_succ k) as Hs;
    cbn [segtree_rec]; unfold bind at 1; cbn [print];
    (replace (left =? left + 2 ^ Z.of_nat (S k) - 1) with false
      by (symmetry; apply Z.eqb_neq; lia));
    unfold bind at 1; cbn [print];
    unfold bind at 1; cbn [len_selection selection];
    unfold bind at 1.
  - replace (depth <? Z.of_nat (length (selection s))) with false
      by (symmetry; apply Z.ltb_ge; lia).
    cbn [assert raise]. eexists. split; [reflexivity|]. split; reflexivity.
  - replace (depth <? Z.of_nat (length (selection s))) with true
      by (symmetry; apply Z.ltb_lt; lia).
    cbn [assert ret]. rewrite mid_pow2.
    unfold bind at 1. unfold read_selection at 1. cbn [selection].
    destruct (getitem_some_range (selection s) depth ltac:(lia)) as [sd ->].
    set (s1 := mkStore _ _ _).
    destruct (IH fuel (BAnd [ctrl; BNot sd]) (depth + 1) left k s1
                ltac:(lia) ltac:(cbn; lia) ltac:(lia) ltac:(lia))
      as (s' & E & Hsel & Htgt).
    unfold bind at 1. rewrite E. exists s'. split; [reflexivity|].
    split; [exact Hsel | exact Htgt].
Qed.

(** X5. A walk over [[0, 2^w)] with fewer than [w] entries in [selection]
    raises AssertionError, at the first node whose depth is
    [len(selection)], before any entry of [target] was written:
    [selection] and [target] are as they were. *)
Theorem segtree_short_selection (w : nat) (ctrl : bexp) (s : store) :
  (length (selection s) < w)%nat ->
  exists s',
    segtree ctrl 0 0 (2 ^ Z.of_nat w) s = Raises AssertionError s' /\
    selection s' = selection s /\
    target s' = target s.
Proof.
  intros Hw.
  rewrite (segtree_eq (S (length (selection s)))) by lia.
  replace (2 ^ Z.of_nat w) with (0 + 2 ^ Z.of_nat w) by lia.
  apply (segtree_rec_short_selection (length (selection s))); lia.
Qed.

Lemma segtree_short_selection_witness :
  exists s',
    segtree (BSym 7) 0 0 (2 ^ Z.of_nat 2)
      (mkStore (symbols 1) (replicate 4 (BConst false)) [])
        = Raises AssertionError s' /\
    selection s' = symbols 1 /\
    target s' = replicate 4 (BConst false).
Proof.
  apply (segtree_short_selection 2 (BSym 7)
         (mkStore (symbols 1) (replicate 4 (BConst false)) [])).
  cbn. lia.
Defined.

(** An interval without indices: no leaf is ever reached. *)
Lemma segtree_rec_empty (j : nat) :
  forall fuel ctrl depth left right s,
    right <= left ->
    0 <= depth ->
    Z.to_nat (Z.of_nat (length (selection s)) - depth) = j ->
    (j < fuel)%nat ->
    exists s',
      segtree_rec fuel ctrl depth left right s = Raises AssertionError s' /\
      selection s' = selection s /\ target s' = target s.
Proof.
  induction j as [|j IH]; intros fuel ctrl depth left right s Hr Hd Hj Hf;
    (destruct fuel as [|fuel]; [lia|]);
    cbn [segtree_rec]; unfold bind at 1; cbn [print];
    (replace (left =? right - 1) with false
      by (symmetry; apply Z.eqb_neq; lia));
    unfold bind at 1; cbn [print];
    unfold bind at 1; cbn [len_selection selection];
    unfold bind at 1.
  - replace (depth <? Z.of_nat (length (selection s))) with false
      by (symmetry; apply Z.ltb_ge; lia).
    cbn [assert raise]. eexists. split; [reflexivity|]. split; reflexivity.
  - replace (depth <? Z.of_nat (length (selection s))) with true
      by (symmetry; apply Z.ltb_lt; lia).
    cbn [assert ret].
    unfold bind at 1. unfold read_selection at 1. cbn [selection].
    destruct (getitem_some_range (selection s) depth ltac:(lia)) as [sd ->].
    set (s1 := mkStore _ _ _).
    assert (Hmid : Z.shiftr (left + right) 1 <= left).
    { rewrite Z.shiftr_div_pow2 by lia. change (2 ^ 1) with 2.
      apply Z.div_le_upper_bound; lia. }
    destruct (IH fuel (BAnd [ctrl; BNot sd]) (depth + 1) left
                (Z.shiftr (left + right) 1) s1
                Hmid ltac:(lia) ltac:(cbn; lia) ltac:(lia))
      as (s' & E & Hsel & Htgt).
    unfold bind at 1. rewrite E. exists s'. split; [reflexivity|].
    split; [exact Hsel | exact Htgt].
Qed.

(** X6. A call with [right <= left] and [depth >= 0] never reaches a leaf:
    it descends along left halves until [depth = len(selection)] and raises
    AssertionError there, with [selection] and [target] as they were. *)
Theorem segtree_empty_interval (ctrl : bexp) (depth left right : Z)
    (s : store) :
  right <= left ->
  0 <= depth ->
  exists s',
    segtree ctrl depth left right s = Raises AssertionError s' /\
    selection s' = selection s /\
    target s' = target s.
Proof.
  intros Hr Hd. unfold segtree.
  eapply segtree_rec_empty; eauto.
Qed.

Lemma segtree_empty_interval_witness :
  exists s',
    segtree (BSym 7) 0 3 3
      (mkStore (symbols 2) (replicate 4 (BConst false)) [])
        = Raises AssertionError s' /\
    selection s' = symbols 2 /\
    target s' = replicate 4 (BConst false).
Proof.
  apply (segtree_empty_interval (BSym 7) 0 3 3
         (mkStore (symbols 2) (replicate 4 (BConst false)) [])); lia.
Defined.

(** A target shorter than the interval: the walk runs until the first leaf
    whose index is missing. *)
Lemma segtree_rec_short_target sels :
  forall pre fuel ctrl left s,
    selection s = pre ++ sels ->
    (length sels < fuel)%nat ->
    0 <= left <= Z.of_nat (length (target s)) ->
    Z.of_nat (length (target s)) < left + 2 ^ Z.of_nat (length sels) ->
    exists s',
      segtree_rec fuel ctrl (Z.of_nat (length pre)) left
        (left + 2 ^ Z.of_nat (length sels)) s = Raises IndexError s' /\
      frame left (left + 2 ^ Z.of_nat (length sels)) s s' /\
      forall i : nat,
        left <= Z.of_nat i ->
        target s' !! i =
          (fun t => BXor t (leaf_ctrl ctrl sels (Z.of_nat i - left)))
            <$> target s !! i.
Proof.
  induction sels as [|sd sels IH]; intros pre fuel ctrl left s Hsel Hf H0 Hr.
  - (* the missing leaf *)
    destruct fuel as [|fuel]; [lia|].
    change (2 ^ Z.of_nat (length (@nil bexp))) with 1 in *.
    cbn [segtree_rec]. unfold bind at 1. cbn [print].
    replace (left =? left + 1 - 1) with true by (symmetry; apply Z.eqb_eq; lia).
    unfold bind at 1. cbn [print].
    unfold bind, read_target. cbn [target selection stdout].
    rewrite getitem_none_ge by lia.
    eexists. split; [reflexivity|]. split.
    + rewrite <- app_assoc. apply frame_stdout.
    + intros i Hi. cbn [target].
      rewrite (proj2 (lookup_ge_None (target s) i)) by lia. reflexivity.
  - (* an inner node *)
    destruct fuel as [|fuel]; [cbn in Hf; lia|].
    cbn [length] in *.
    set (k := length sels) in *.
    set (h := 2 ^ Z.of_nat k).
    assert (Hh : 0 < h) by (apply Z.pow_pos_nonneg; lia).
    assert (Hpow : 2 ^ Z.of_nat (S k) = 2 * h)
      by (unfold h; rewrite Nat2Z.inj_succ, Z.pow_succ_r; lia).
    pose proof (mid_pow2 left k) as Hmid. fold h in Hmid.
    cbn [segtree_rec]. unfold bind at 1. cbn [print].
    replace (left =? left + 2 ^ Z.of_nat (S k) - 1) with false
      by (symmetry; apply Z.eqb_neq; lia).
    unfold bind at 1. cbn [print].
    unfold bind at 1. cbn [len_selection selection].
    unfold bind at 1.
    replace (Z.of_nat (length pre) <? Z.of_nat (length (selection s)))
      with true
      by (symmetry; apply Z.ltb_lt; rewrite Hsel, length_app; cbn; lia).
    cbn [assert ret].
    rewrite Hmid.
    set (s1 := mkStore _ _ _).
    assert (Hsel' : selection s1 = (pre ++ [sd]) ++ sels)
      by (cbn; rewrite Hsel, <- app_assoc; reflexivity).
    assert (Hd : Z.of_nat (length pre) + 1 = Z.of_nat (length (pre ++ [sd])))
      by (rewrite length_app; cbn; lia).
    assert (F1 : frame left (left + h) s s1).
    { subst s1. cbn [selection target stdout]. rewrite <- app_assoc.
      apply frame_stdout. }
    unfold bind at 1. unfold read_selection at 1.
    replace (getitem (selection s1) (Z.of_nat (length pre))) with (Some sd)
      by (cbn; rewrite Hsel; symmetry; apply getitem_app_mid).
    rewrite Hd.
    destruct (Z.le_gt_cases (left + h) (Z.of_nat (length (target s))))
      as [Hfull|Hshort].
    + (* the left half is complete, the right half is not *)
      destruct (segtree_rec_full sels (pre ++ [sd]) fuel (BAnd [ctrl; BNot sd])
                  left s1 Hsel' ltac:(lia) ltac:(lia) ltac:(cbn; fold k h; lia))
        as (s2 & E2 & F2 & T2).
      fold k h in E2, F2, T2.
      rewrite (bind_returns _ _ _ _ _ E2).
      assert (Hsel2 : selection s2 = (pre ++ [sd]) ++ sels)
        by (destruct F2 as (-> & _); exact Hsel').
      assert (Hlen2 : length (target s2) = length (target s))
        by (destruct F2 as (_ & -> & _); reflexivity).
      unfold bind at 1. unfold read_selection at 1.
      replace (getitem (selection s2) (Z.of_nat (length pre))) with (Some sd)
        by (rewrite Hsel2, <- app_assoc; symmetry; apply getitem_app_mid).
      destruct (IH (pre ++ [sd]) fuel (BAnd [ctrl; sd]) (left + h) s2 Hsel2
                  ltac:(lia) ltac:(lia) ltac:(fold k h; lia))
        as (s3 & E3 & F3 & T3).
      fold k h in E3, F3, T3.
      replace (left + 2 ^ Z.of_nat (S k)) with (left + h + h) by lia.
      rewrite E3.
      exists s3. split; [reflexivity|]. split.
      * eapply (frame_trans left (left + h) (left + h) (left + h + h));
          [ | exact F3 | lia..].
        eapply (frame_trans left (left + h) left (left + h));
          [ exact F1 | exact F2 | lia..].
      * intros i Hi. cbn [leaf_ctrl]. fold k h.
        destruct (Z.ltb_spec (Z.of_nat i - left) h) as [Hlo|Hhi].
        -- destruct F3 as (_ & _ & Fr3 & _).
           rewrite Fr3 by lia. rewrite T2 by lia. reflexivity.
        -- destruct F2 as (_ & _ & Fr2 & _).
           rewrite T3 by lia. rewrite Fr2 by lia.
           replace (Z.of_nat i - (left + h)) with (Z.of_nat i - left - h)
             by lia.
           reflexivity.
    + (* the left half already misses an index *)
      destruct (IH (pre ++ [sd]) fuel (BAnd [ctrl; BNot sd]) left s1 Hsel'
                  ltac:(lia) ltac:(cbn; lia) ltac:(cbn; fold k h; lia))
        as (s2 & E2 & F2 & T2).
      fold k h in E2, F2, T2.
      unfold bind at 1. rewrite E2.
      exists s2. split; [reflexivity|]. split.
      * eapply (frame_trans left (left + h) left (left + h));
          [ exact F1 | exact F2 | lia..].
      * intros i Hi. cbn [leaf_ctrl]. fold k h.
        destruct (Z.ltb_spec (Z.of_nat i - left) h) as [Hlo|Hhi].
        -- rewrite T2 by lia. reflexivity.
        -- destruct F2 as (_ & Hl2 & _ & _).
           subst s1. cbn [target] in Hl2.
           rewrite (proj2 (lookup_ge_None (target s2) i)) by lia.
           rewrite (proj2 (lookup_ge_None (target s) i)) by lia.
           reflexivity.
Qed.

(** X7. A complete walk over a target with fewer than [2^w] entries raises
    IndexError at the first leaf whose index is missing; by then every
    entry that exists has been updated as in a complete run: under every
    valuation exactly the entry of the selected index has flipped, and only
    when [ctrl] holds. *)
Theorem segtree_short_target (ctrl : bexp) (s : store) :
  Z.of_nat (length (target s)) < 2 ^ Z.of_nat (length (selection s)) ->
  exists s',
    segtree ctrl 0 0 (2 ^ Z.of_nat (length (selection s))) s
      = Raises IndexError s' /\
    selection s' = selection s /\
    length (target s') = length (target s) /\
    forall rho (m : nat) t,
      target s !! m = Some t ->
      exists t',
        target s' !! m = Some t' /\
        eval rho t' =
          xorb (eval rho t)
               (eval rho ctrl &&
                (Z.of_nat m =? of_bits (map (eval rho) (selection s)))).
Proof.
  intros Hlen.
  rewrite (segtree_eq (S (length (selection s)))) by lia.
  destruct (segtree_rec_short_target (selection s) [] (S (length (selection s)))
              ctrl 0 s eq_refl ltac:(lia) ltac:(lia) ltac:(lia))
    as (s' & E & (Hsel & Hl & _ & _) & T).
  cbn [length] in E. change (Z.of_nat 0) with 0 in E.
  rewrite Z.add_0_l in E.
  exists s'. split; [exact E|]. split; [exact Hsel|]. split; [exact Hl|].
  intros rho m t Hm.
  pose proof (lookup_lt_Some _ _ _ Hm) as Hlt.
  rewrite T, Hm by lia. cbn [fmap option_fmap option_map].
  eexists. split; [reflexivity|].
  cbn [eval]. f_equal. rewrite Z.sub_0_r.
  rewrite eval_leaf_ctrl by lia.
  f_equal.
  rewrite eval_total_control_of_bits by lia.
  reflexivity.
Qed.

Lemma segtree_short_target_witness :
  exists s',
    segtree (BSym 7) 0 0 (2 ^ Z.of_nat 2)
      (mkStore (symbols 2) (replicate 3 (BConst false)) [])
        = Raises IndexError s' /\
    selection s' = symbols 2 /\
    length (target s') = 3%nat /\
    forall rho (m : nat) t,
      replicate 3 (BConst false) !! m = Some t ->
      exists t',
        target s' !! m = Some t' /\
        eval rho t' =
          xorb (eval rho t)
               (eval rho (BSym 7) &&
                (Z.of_nat m =? of_bits (map (eval rho) (symbols 2)))).
Proof.
  apply (segtree_short_target (BSym 7)
         (mkStore (symbols 2) (replicate 3 (BConst false)) [])).
  cbn. lia.
Defined.

(** ** Intervals of any size *)

Lemma hot_app rho cs1 cs2 :
  hot rho (cs1 ++ cs2) = (hot rho cs1 + hot rho cs2)%nat.
Proof. unfold hot. now rewrite List.filter_app, length_app. Qed.

Lemma mid_halves (left right : Z) (n : nat) :
  right - left <= 2 ^ Z.of_nat (S n) ->
  Z.shiftr (left + right) 1 - left <= 2 ^ Z.of_nat n /\
  right - Z.shiftr (left + right) 1 <= 2 ^ Z.of_nat n.
Proof.
  rewrite pow2_succ. intros H. rewrite Z.shiftr_div_pow2 by lia.
  change (2 ^ 1) with 2.
  pose proof (Z.div_mod (left + right) 2 ltac:(lia)).
  pose proof (Z.mod_pos_bound (left + right) 2 ltac:(lia)). lia.
Qed.

Lemma segtree_rec_one_hot (n : nat) :
  forall fuel ctrl depth left right s,
    0 <= depth ->
    Z.of_nat (length (selection s)) - depth = Z.of_nat n ->
    (n < fuel)%nat ->
    0 <= left -> left < right -> right <= Z.of_nat (length (target s)) ->
    right - left <= 2 ^ Z.of_nat n ->
    exists s' cs out,
      segtree_rec fuel ctrl depth left right s = Returns tt s' /\
      frame left right s s' /\
      stdout s' = stdout s ++ PNode depth left right :: out /\
      Z.of_nat (length cs) = right - left /\
      (forall (j : nat) c, cs !! j = Some c ->
         target s' !! (Z.to_nat left + j)%nat =
           (fun t => BXor t c) <$> target s !! (Z.to_nat left + j)%nat) /\
      forall rho, hot rho cs = if eval rho ctrl then 1%nat else 0%nat.
Proof.
  induction n as [|n IH];
    intros fuel ctrl depth left right s Hd Hn Hf H0 Hlr Hr Hsz;
    (destruct fuel as [|fuel]; [lia|]);
    cbn [segtree_rec]; unfold bind at 1; cbn [print];
    destruct (Z.eqb_spec left (right - 1)) as [Hleaf|Hinner].
  1,3: (* a leaf *)
    unfold bind at 1; cbn [print];
    unfold bind, read_target, write_target; cbn [target selection stdout];
    rewrite getitem_range by lia;
    (destruct (target s !! Z.to_nat left) as [t|] eqn:Ht;
      [| apply lookup_ge_None in Ht; lia]);
    cbn [target selection stdout];
    rewrite setitem_range by lia;
    exists (mkStore (selection s) (<[Z.to_nat left := BXor t ctrl]> (target s))
              ((stdout s ++ [PNode depth left right]) ++ [PLeaf ctrl])),
           [ctrl], [PLeaf ctrl];
    (split; [reflexivity|]);
    (split; [|split; [cbn; now rewrite <- app_assoc|split; [cbn; lia|split]]]).
  1,4: repeat split; cbn; auto;
       [ now rewrite length_insert
       | intros i Hi; now rewrite list_lookup_insert_ne by lia
       | eexists; now rewrite <- app_assoc ].
  1,3: intros [|j] c Hc; [|discriminate]; injection Hc as <-;
       rewrite Nat.add_0_r; cbn [target];
       rewrite list_lookup_insert_eq by (apply lookup_lt_Some in Ht; lia);
       now rewrite Ht.
  1,2: intros rho; unfold hot; cbn; destruct (eval rho ctrl); reflexivity.
  - (* no entry of [selection] left for two indices *)
    change (2 ^ Z.of_nat 0) with 1 in Hsz. lia.
  - (* an inner node *)
    destruct (mid_inside left right Hlr Hinner) as [Hm1 Hm2].
    destruct (mid_halves left right n Hsz) as [Hh1 Hh2].
    set (mid := Z.shiftr (left + right) 1) in *.
    unfold bind at 1. cbn [print].
    unfold bind at 1. cbn [len_selection selection].
    unfold bind at 1.
    replace (depth <? Z.of_nat (length (selection s))) with true
      by (symmetry; apply Z.ltb_lt; lia).
    cbn [assert ret].
    set (s1 := mkStore _ _ _).
    assert (F1 : frame left mid s s1).
    { subst s1. cbn [selection target stdout]. rewrite <- app_assoc.
      apply frame_stdout. }
    unfold bind at 1. unfold read_selection at 1. cbn [selection].
    destruct (getitem_some_range (selection s) depth ltac:(lia)) as [sd Esd].
    subst s1. cbn [selection]. rewrite Esd.
    set (s1 := mkStore _ _ _) in *.
    destruct (IH fuel (BAnd [ctrl; BNot sd]) (depth + 1) left mid s1
                ltac:(lia) ltac:(cbn; lia) ltac:(lia) H0 Hm1
                ltac:(cbn; lia) Hh1)
      as (s2 & cl & ol & E2 & F2 & O2 & Ll & Tl & Ol).
    rewrite (bind_returns _ _ _ _ _ E2).
    assert (Hsel2 : selection s2 = selection s)
      by (destruct F2 as (-> & _); reflexivity).
    assert (Hlen2 : length (target s2) = length (target s))
      by (destruct F2 as (_ & -> & _); reflexivity).
    unfold bind at 1. unfold read_selection at 1.
    rewrite Hsel2, Esd.
    destruct (IH fuel (BAnd [ctrl; sd]) (depth + 1) mid right s2
                ltac:(lia) ltac:(rewrite Hsel2; lia) ltac:(lia)
                ltac:(lia) Hm2 ltac:(lia) Hh2)
      as (s3 & cr & or & E3 & F3 & O3 & Lr & Tr & Or).
    rewrite E3.
    exists s3, (cl ++ cr),
      (PNewline :: (PNode (depth + 1) left mid :: ol)
         ++ PNode (depth + 1) mid right :: or).
    split; [reflexivity|]. split; [|split; [|split; [|split]]].
    + eapply (frame_trans left mid mid right); [ | exact F3 | lia..].
      eapply (frame_trans left mid left mid); [ exact F1 | exact F2 | lia..].
    + rewrite O3, O2. subst s1. cbn [stdout].
      rewrite <- !app_assoc. reflexivity.
    + rewrite length_app. lia.
    + intros j c Hc.
      destruct (lookup_app_Some cl cr j c) as [Happ _].
      destruct (Happ Hc) as [Hj | [Hge Hj]].
      * pose proof (lookup_lt_Some _ _ _ Hj).
        destruct F3 as (_ & _ & Fr3 & _).
        rewrite Fr3 by lia. rewrite (Tl j c Hj). reflexivity.
      * pose proof (lookup_lt_Some _ _ _ Hj).
        destruct F2 as (_ & _ & Fr2 & _).
        specialize (Tr _ _ Hj).
        replace (Z.to_nat mid + (j - length cl))%nat
          with (Z.to_nat left + j)%nat in Tr by lia.
        rewrite Tr. rewrite Fr2 by lia. reflexivity.
    + intros rho. rewrite hot_app, Ol, Or. cbn [eval forallb].
      destruct (eval rho ctrl), (eval rho sd); reflexivity.
Qed.

(** X8. A call on any interval [0 <= left < right <= len(target)] with
    [0 <= depth <= len(selection)] and at most [2^(len(selection) - depth)]
    indices returns, keeps [selection], the length of [target] and the
    entries outside the interval, and xors into the entries of the interval
    expressions of which, under every valuation, exactly one holds when
    [ctrl] holds and none holds when it does not. *)
Theorem segtree_any_interval (ctrl : bexp) (depth left right : Z)
    (s : store) :
  0 <= depth <= Z.of_nat (length (selection s)) ->
  0 <= left -> left < right -> right <= Z.of_nat (length (target s)) ->
  right - left <= 2 ^ (Z.of_nat (length (selection s)) - depth) ->
  exists s' cs,
    segtree ctrl depth left right s = Returns tt s' /\
    selection s' = selection s /\
    length (target s') = length (target s) /\
    (forall i : nat, Z.of_nat i < left \/ right <= Z.of_nat i ->
       target s' !! i = target s !! i) /\
    Z.of_nat (length cs) = right - left /\
    (forall (j : nat) c, cs !! j = Some c ->
       target s' !! (Z.to_nat left + j)%nat =
         (fun t => BXor t c) <$> target s !! (Z.to_nat left + j)%nat) /\
    forall rho, hot rho cs = if eval rho ctrl then 1%nat else 0%nat.
Proof.
  intros Hd H0 Hlr Hr Hsz. unfold segtree.
  set (n := Z.to_nat (Z.of_nat (length (selection s)) - depth)).
  replace (Z.of_nat (length (selection s)) - depth) with (Z.of_nat n) in Hsz
    by lia.
  destruct (segtree_rec_one_hot n (S n) ctrl depth left right s
              ltac:(lia) ltac:(lia) ltac:(lia) H0 Hlr Hr Hsz)
    as (s' & cs & out & E & (Hsel & Hl & Fr & _) & _ & Lc & Tc & Oc).
  exists s', cs. repeat split; auto.
Qed.

Lemma segtree_any_interval_witness :
  exists s' cs,
    segtree (BSym 7) 0 1 4
      (mkStore (symbols 2) (replicate 6 (BConst false)) []) = Returns tt s' /\
    selection s' = symbols 2 /\
    length (target s') = 6%nat /\
    (forall i : nat, Z.of_nat i < 1 \/ 4 <= Z.of_nat i ->
       target s' !! i = replicate 6 (BConst false) !! i) /\
    Z.of_nat (length cs) = 4 - 1 /\
    (forall (j : nat) c, cs !! j = Some c ->
       target s' !! (Z.to_nat 1 + j)%nat =
         (fun t => BXor t c)
           <$> replicate 6 (BConst false) !! (Z.to_nat 1 + j)%nat) /\
    forall rho, hot rho cs = if eval rho (BSym 7) then 1%nat else 0%nat.
Proof.
  apply (segtree_any_interval (BSym 7) 0 1 4
         (mkStore (symbols 2) (replicate 6 (BConst false)) [])); cbn; lia.
Defined.

(** ** What an inner node does *)

(** C4. At an inner node ([left] is not [right - 1]) where
    [selection[depth]] is [sd], with [mid = (left + right) >> 1]:
    [segtree] prints its two messages, then runs the call for
    [[left, mid)] with the control [And(ctrl, Not(sd))] and after it the
    call for [[mid, right)] with the control [And(ctrl, sd)], both at
    [depth + 1].  When moreover [0 <= depth], [0 <= left < right <=
    len(target)] and the interval has at most [2^(len(selection) - depth)]
    indices, both calls return and so does the node, in the store the
    second call leaves; the output shows the node's two messages, then the
    messages of the left call, then those of the right call; [selection],
    the length of [target] and the entries outside [[left, right)] are
    kept; and the expressions xored into [[left, mid)] are one-hot under
    [ctrl and not sd], those xored into [[mid, right)] under
    [ctrl and sd]. *)
Theorem segtree_inner_node (ctrl sd : bexp) (depth left right : Z)
    (s : store) :
  left <> right - 1 ->
  getitem (selection s) depth = Some sd ->
  let mid := Z.shiftr (left + right) 1 in
  let s0 :=
    mkStore (selection s) (target s)
      (stdout s ++ [PNode depth left right; PNewline]) in
  segtree ctrl depth left right s =
    (print (PNode depth left right) ;;
     print PNewline ;;
     segtree (BAnd [ctrl; BNot sd]) (depth + 1) left mid ;;
     segtree (BAnd [ctrl; sd]) (depth + 1) mid right)%py s /\
  (0 <= depth ->
   0 <= left -> left < right -> right <= Z.of_nat (length (target s)) ->
   right - left <= 2 ^ (Z.of_nat (length (selection s)) - depth) ->
   exists s1 s2 cl cr outl outr,
     segtree (BAnd [ctrl; BNot sd]) (depth + 1) left mid s0 = Returns tt s1 /\
     segtree (BAnd [ctrl; sd]) (depth + 1) mid right s1 = Returns tt s2 /\
     segtree ctrl depth left right s = Returns tt s2 /\
     stdout s1 = stdout s0 ++ PNode (depth + 1) left mid :: outl /\
     stdout s2 = stdout s1 ++ PNode (depth + 1) mid right :: outr /\
     selection s2 = selection s /\
     length (target s2) = length (target s) /\
     (forall i : nat, Z.of_nat i < left \/ right <= Z.of_nat i ->
        target s2 !! i = target s !! i) /\
     Z.of_nat (length cl) = mid - left /\
     Z.of_nat (length cr) = right - mid /\
     (forall (j : nat) c, (cl ++ cr) !! j = Some c ->
        target s2 !! (Z.to_nat left + j)%nat =
          (fun t => BXor t c) <$> target s !! (Z.to_nat left + j)%nat) /\
     forall rho,
       hot rho cl =
         (if eval rho ctrl && negb (eval rho sd) then 1 else 0)%nat /\
       hot rho cr =
         (if eval rho ctrl && eval rho sd then 1 else 0)%nat).
Proof.
  intros Hne Hsd mid s0.
  pose proof (segtree_unfold_inner ctrl sd depth left right s Hne Hsd) as EQ.
  fold mid in EQ. split; [exact EQ|].
  intros Hd H0 Hlr Hr Hsz.
  pose proof (getitem_lt _ _ _ Hsd) as Hlt.
  destruct (mid_inside left right Hlr Hne) as [Hm1 Hm2]. fold mid in Hm1, Hm2.
  set (n := Z.to_nat (Z.of_nat (length (selection s)) - (depth + 1))).
  assert (Hsz' : right - left <= 2 ^ Z.of_nat (S n)).
  { replace (Z.of_nat (S n))
      with (Z.of_nat (length (selection s)) - depth) by lia. exact Hsz. }
  destruct (mid_halves left right n Hsz') as [Hh1 Hh2].
  fold mid in Hh1, Hh2.
  (* the call for the left half *)
  destruct (segtree_rec_one_hot n (S n) (BAnd [ctrl; BNot sd]) (depth + 1)
              left mid s0 ltac:(lia) ltac:(unfold n, s0; cbn; lia)
              ltac:(lia) H0 Hm1 ltac:(unfold s0; cbn; lia) Hh1)
    as (s1 & cl & outl & E1 & F1 & O1 & Ll & Tl & Ol).
  rewrite <- (segtree_eq (S n)) in E1 by (unfold n, s0; cbn; lia).
  destruct F1 as (S1 & L1 & Fr1 & _).
  unfold s0 in S1, L1, Fr1. cbn [selection target] in S1, L1, Fr1.
  (* the call for the right half *)
  destruct (segtree_rec_one_hot n (S n) (BAnd [ctrl; sd]) (depth + 1)
              mid right s1 ltac:(lia) ltac:(rewrite S1; unfold n; lia)
              ltac:(lia) ltac:(lia) Hm2 ltac:(lia) Hh2)
    as (s2 & cr & outr & E2 & F2 & O2 & Lr & Tr & Or).
  rewrite <- (segtree_eq (S n)) in E2 by (rewrite S1; unfold n; lia).
  destruct F2 as (S2 & L2 & Fr2 & _).
  exists s1, s2, cl, cr, outl, outr.
  split; [exact E1|]. split; [exact E2|]. split.
  { rewrite EQ. unfold bind, print. cbn [selection target stdout].
    rewrite <- app_assoc. cbn [app]. fold s0. rewrite E1. exact E2. }
  split; [exact O1|]. split; [exact O2|].
  split; [congruence|]. split; [congruence|]. split.
  { intros i Hi. rewrite Fr2 by lia. apply Fr1. lia. }
  split; [exact Ll|]. split; [exact Lr|]. split.
  - intros j c Hc.
    destruct (lookup_app_Some cl cr j c) as [Happ _].
    destruct (Happ Hc) as [Hj | [Hge Hj]].
    + pose proof (lookup_lt_Some _ _ _ Hj).
      rewrite Fr2 by lia. exact (Tl j c Hj).
    + pose proof (lookup_lt_Some _ _ _ Hj).
      specialize (Tr _ _ Hj).
      replace (Z.to_nat mid + (j - length cl))%nat
        with (Z.to_nat left + j)%nat in Tr by lia.
      rewrite Tr. rewrite Fr1 by lia. reflexivity.
  - intros rho. rewrite Ol, Or. cbn [eval forallb].
    split; destruct (eval rho ctrl), (eval rho sd); reflexivity.
Qed.

Lemma segtree_inner_node_witness :
  segtree (BSym 7) 0 0 4
    (mkStore (symbols 2) (replicate 4 (BConst false)) []) =
    (print (PNode 0 0 4) ;;
     print PNewline ;;
     segtree (BAnd [BSym 7; BNot (BSym 0)]) (0 + 1) 0 (Z.shiftr (0 + 4) 1) ;;
     segtree (BAnd [BSym 7; BSym 0]) (0 + 1) (Z.shiftr (0 + 4) 1) 4)%py
      (mkStore (symbols 2) (replicate 4 (BConst false)) []) /\
  exists s1 s2 cl cr outl outr,
    segtree (BAnd [BSym 7; BNot (BSym 0)]) (0 + 1) 0 (Z.shiftr (0 + 4) 1)
      (mkStore (symbols 2) (replicate 4 (BConst false))
         ([] ++ [PNode 0 0 4; PNewline])) = Returns tt s1 /\
    segtree (BAnd [BSym 7; BSym 0]) (0 + 1) (Z.shiftr (0 + 4) 1) 4 s1
      = Returns tt s2 /\
    segtree (BSym 7) 0 0 4
      (mkStore (symbols 2) (replicate 4 (BConst false)) []) = Returns tt s2 /\
    stdout s1 =
      ([] ++ [PNode 0 0 4; PNewline])
        ++ PNode (0 + 1) 0 (Z.shiftr (0 + 4) 1) :: outl /\
    stdout s2 = stdout s1 ++ PNode (0 + 1) (Z.shiftr (0 + 4) 1) 4 :: outr /\
    selection s2 = symbols 2 /\
    length (target s2) = 4%nat /\
    (forall i : nat, Z.of_nat i < 0 \/ 4 <= Z.of_nat i ->
       target s2 !! i = replicate 4 (BConst false) !! i) /\
    Z.of_nat (length cl) = Z.shiftr (0 + 4) 1 - 0 /\
    Z.of_nat (length cr) = 4 - Z.shiftr (0 + 4) 1 /\
    (forall (j : nat) c, (cl ++ cr) !! j = Some c ->
       target s2 !! (Z.to_nat 0 + j)%nat =
         (fun t => BXor t c)
           <$> replicate 4 (BConst false) !! (Z.to_nat 0 + j)%nat) /\
    forall rho,
      hot rho cl =
        (if eval rho (BSym 7) && negb (eval rho (BSym 0)) then 1 else 0)%nat /\
      hot rho cr =
        (if eval rho (BSym 7) && eval rho (BSym 0) then 1 else 0)%nat.
Proof.
  destruct (segtree_inner_node (BSym 7) (BSym 0) 0 0 4
              (mkStore (symbols 2) (replicate 4 (BConst false)) []))
    as [A B].
  - lia.
  - reflexivity.
  - split; [exact A|]. apply B; cbn; lia.
Defined.

(** ** A call on a single index *)

Lemma py_index_wraps {A} (l : list A) (i : Z) :
  - Z.of_nat (length l) <= i < Z.of_nat (length l) ->
  py_index l i = Some (Z.to_nat (i mod Z.of_nat (length l))).
Proof.
  intros H. unfold py_index.
  destruct (Z.leb_spec 0 i) as [H0|H0].
  - replace (i <? Z.of_nat (length l)) with true
      by (symmetry; apply Z.ltb_lt; lia).
    cbn. now rewrite Z.mod_small by lia.
  - replace (i <? 0) with true by (symmetry; apply Z.ltb_lt; lia).
    replace (- Z.of_nat (length l) <=? i) with true
      by (symmetry; apply Z.leb_le; lia).
    cbn. do 2 f_equal.
    rewrite <- (Z.mod_small (Z.of_nat (length l) + i) (Z.of_nat (length l)))
      by lia.
    rewrite Z.add_comm, <- (Z.mul_1_l (Z.of_nat (length l))) at 1.
    now rewrite Z.mod_add by lia.
Qed.

Lemma py_index_outside {A} (l : list A) (i : Z) :
  i < - Z.of_nat (length l) \/ Z.of_nat (length l) <= i ->
  py_index l i = None.
Proof.
  intros H. unfold py_index.
  destruct (Z.leb_spec 0 i), (Z.ltb_spec i (Z.of_nat (length l))),
    (Z.leb_spec (- Z.of_nat (length l)) i), (Z.ltb_spec i 0);
    cbn; try reflexivity; lia.
Qed.

(** X9. A call on the single index [left], [right = left + 1], with
    [-len(target) <= left < len(target)] returns after xoring [ctrl] into
    one entry, at any depth and without reading [selection]; a negative
    [left] counts from the end of [target], as Python subscripts do. *)
Theorem segtree_single_index (ctrl : bexp) (depth left : Z) (s : store) :
  - Z.of_nat (length (target s)) <= left < Z.of_nat (length (target s)) ->
  exists t s',
    target s !! Z.to_nat (left mod Z.of_nat (length (target s))) = Some t /\
    segtree ctrl depth left (left + 1) s = Returns tt s' /\
    selection s' = selection s /\
    target s' =
      <[Z.to_nat (left mod Z.of_nat (length (target s))) := BXor t ctrl]>
        (target s).
Proof.
  intros H. set (len := Z.of_nat (length (target s))) in *.
  assert (E :
    segtree ctrl depth left (left + 1) s =
      (print (PNode depth left (left + 1)) ;; print (PLeaf ctrl) ;;
       t <- read_target left ;; write_target left (BXor t ctrl))%py s).
  { unfold segtree. cbn [segtree_rec].
    now replace (left =? left + 1 - 1) with true
      by (symmetry; apply Z.eqb_eq; lia). }
  rewrite E. clear E.
  unfold bind, print, read_target, write_target, getitem, setitem.
  cbn [target selection stdout].
  rewrite (py_index_wraps (target s) left H). fold len.
  assert (Hk : (Z.to_nat (left mod len) < length (target s))%nat).
  { pose proof (Z.mod_pos_bound left len ltac:(lia)). lia. }
  destruct (lookup_lt_is_Some_2 _ _ Hk) as [t Ht].
  rewrite Ht. cbn [target selection stdout].
  rewrite (py_index_wraps (target s) left H). fold len.
  eexists _, _. repeat split.
Qed.

Lemma segtree_single_index_witness :
  exists t s',
    replicate 4 (BConst false) !! Z.to_nat (-1 mod Z.of_nat 4) = Some t /\
    segtree (BSym 7) 5 (-1) (-1 + 1)
      (mkStore (symbols 2) (replicate 4 (BConst false)) []) = Returns tt s' /\
    selection s' = symbols 2 /\
    target s' =
      <[Z.to_nat (-1 mod Z.of_nat 4) := BXor t (BSym 7)]>
        (replicate 4 (BConst false)).
Proof.
  apply (segtree_single_index (BSym 7) 5 (-1)
         (mkStore (symbols 2) (replicate 4 (BConst false)) [])).
  cbn. lia.
Defined.

(** ** [total_control] on a short target *)

Lemma for_each_total_control_short trials :
  forall (a : nat) s,
    (a <= length (target s) < a + length trials)%nat ->
    exists s',
      for_each (enumerate_from (Z.of_nat a) trials) total_control_step s
        = Raises IndexError s' /\
      selection s' = selection s /\
      length (target s') = length (target s) /\
      stdout s' = stdout s /\
      (forall i trial, trials !! i = Some trial ->
         target s' !! (a + i)%nat =
           (fun t => BXor t (total_control_expr (selection s) trial))
             <$> target s !! (a + i)%nat) /\
      (forall j, (j < a)%nat -> target s' !! j = target s !! j).
Proof.
  induction trials as [|trial trials IH]; intros a s Hlen.
  - cbn in Hlen. lia.
  - cbn [length] in Hlen. cbn [enumerate_from for_each total_control_step].
    destruct (target s !! a) as [t|] eqn:Ht.
    + pose proof (lookup_lt_Some _ _ _ Ht) as Hlt.
      unfold bind at 1. unfold bind at 1. unfold read_target.
      rewrite getitem_range, Nat2Z.id, Ht by lia.
      unfold bind at 1. cbn [the_selection].
      unfold write_target. rewrite setitem_range, Nat2Z.id by lia.
      set (s1 := mkStore _ _ _).
      replace (Z.of_nat a + 1) with (Z.of_nat (S a)) by lia.
      destruct (IH (S a) s1) as (s' & E & Hs & Hl & Ho & Hin & Hout).
      { subst s1. cbn. rewrite length_insert. lia. }
      exists s'. split; [exact E|].
      subst s1. cbn [selection target stdout] in *.
      rewrite length_insert in Hl.
      repeat split; auto.
      * intros [|i] tr Hi.
        -- injection Hi as <-. rewrite Nat.add_0_r.
           rewrite Hout by lia.
           rewrite list_lookup_insert_eq by lia.
           now rewrite Ht.
        -- cbn in Hi. replace (a + S i)%nat with (S a + i)%nat by lia.
           rewrite (Hin i tr Hi).
           now rewrite list_lookup_insert_ne by lia.
      * intros j Hj. rewrite Hout by lia.
        now rewrite list_lookup_insert_ne by lia.
    + pose proof (proj1 (lookup_ge_None _ _) Ht) as Hge.
      unfold bind at 1. unfold bind at 1. unfold read_target.
      rewrite getitem_none_ge by lia.
      exists s. repeat split; auto.
      intros i tr Hi.
      rewrite (proj2 (lookup_ge_None (target s) (a + i)%nat)) by lia.
      reflexivity.
Qed.

(** X10. [total_control] over a target with fewer than [2^w] entries raises
    IndexError at the first index that is missing, after updating every
    entry that exists: under every valuation exactly the entry of the
    selected index has flipped.  It fails as [segtree] does on the same
    lists, with the same truth values left in [target]. *)
Theorem total_control_short_target (s : store) :
  Z.of_nat (length (target s)) < 2 ^ Z.of_nat (length (selection s)) ->
  exists s',
    total_control s = Raises IndexError s' /\
    selection s' = selection s /\
    length (target s') = length (target s) /\
    forall rho (m : nat) t,
      target s !! m = Some t ->
      exists t',
        target s' !! m = Some t' /\
        eval rho t' =
          xorb (eval rho t)
               (Z.of_nat m =? of_bits (map (eval rho) (selection s))).
Proof.
  intros Hlen. unfold total_control. unfold bind at 1. cbn [the_selection].
  set (w := length (selection s)) in *.
  pose proof (product_repeat_length w) as HL.
  destruct (for_each_total_control_short (product_repeat [false; true] w)
              0%nat s)
    as (s' & E & Hs & Hl & _ & Hin & _); [lia|].
  exists s'. split; [exact E|]. repeat split; auto.
  intros rho m t Hm.
  pose proof (lookup_lt_Some _ _ _ Hm) as Hlt.
  specialize (Hin m (bits_be w (Z.of_nat m))
                ltac:(apply product_repeat_lookup; lia)).
  cbn [Nat.add] in Hin. rewrite Hin, Hm. eexists. split; [reflexivity|].
  cbn [eval]. f_equal.
  unfold w. rewrite eval_total_control_of_bits by (fold w; lia).
  reflexivity.
Qed.

Lemma total_control_short_target_witness :
  exists s',
    total_control
      (mkStore (symbols 2) (replicate 3 (BConst false)) [])
        = Raises IndexError s' /\
    selection s' = symbols 2 /\
    length (target s') = 3%nat /\
    forall rho (m : nat) t,
      replicate 3 (BConst false) !! m = Some t ->
      exists t',
        target s' !! m = Some t' /\
        eval rho t' =
          xorb (eval rho t)
               (Z.of_nat m =? of_bits (map (eval rho) (symbols 2))).
Proof.
  apply (total_control_short_target
         (mkStore (symbols 2) (replicate 3 (BConst false)) [])).
  cbn. lia.
Defined.

(** ** What a complete walk prints *)

Lemma nodes_printed_app o1 o2 :
  nodes_printed (o1 ++ o2) = nodes_printed o1 + nodes_printed o2.
Proof. unfold nodes_printed. rewrite List.filter_app, length_app. lia. Qed.

Lemma leaves_printed_app o1 o2 :
  leaves_printed (o1 ++ o2) = leaves_printed o1 + leaves_printed o2.
Proof. unfold leaves_printed. rewrite List.filter_app, length_app. lia. Qed.

Lemma segtree_rec_prints sels :
  forall pre fuel ctrl left s,
    selection s = pre ++ sels ->
    (length sels < fuel)%nat ->
    0 <= left ->
    left + 2 ^ Z.of_nat (length sels) <= Z.of_nat (length (target s)) ->
    exists s' out,
      segtree_rec fuel ctrl (Z.of_nat (length pre)) left
        (left + 2 ^ Z.of_nat (length sels)) s = Returns tt s' /\
      selection s' = selection s /\
      length (target s') = length (target s) /\
      stdout s' = stdout s ++ out /\
      nodes_printed out = 2 * 2 ^ Z.of_nat (length sels) - 1 /\
      leaves_printed out = 2 ^ Z.of_nat (length sels).
Proof.
  induction sels as [|sd sels IH]; intros pre fuel ctrl left s Hsel Hf H0 Hr.
  - destruct fuel as [|fuel]; [lia|].
    change (2 ^ Z.of_nat (length (@nil bexp))) with 1 in *.
    cbn [segtree_rec]. unfold bind at 1. cbn [print].
    replace (left =? left + 1 - 1) with true by (symmetry; apply Z.eqb_eq; lia).
    unfold bind at 1. cbn [print].
    unfold bind, read_target, write_target. cbn [target selection stdout].
    rewrite getitem_range by lia.
    destruct (target s !! Z.to_nat left) as [t|] eqn:Ht.
    2:{ apply lookup_ge_None in Ht. lia. }
    cbn [target selection stdout].
    rewrite setitem_range by lia.
    eexists _, [PNode (Z.of_nat (length pre)) left (left + 1); PLeaf ctrl].
    split; [reflexivity|]. cbn [selection target stdout].
    rewrite length_insert, <- app_assoc. repeat split.
  - destruct fuel as [|fuel]; [cbn in Hf; lia|].
    cbn [length] in *.
    set (k := length sels) in *.
    set (h := 2 ^ Z.of_nat k).
    assert (Hh : 0 < h) by (apply Z.pow_pos_nonneg; lia).
    assert (Hpow : 2 ^ Z.of_nat (S k) = 2 * h)
      by (unfold h; rewrite Nat2Z.inj_succ, Z.pow_succ_r; lia).
    pose proof (mid_pow2 left k) as Hmid. fold h in Hmid.
    cbn [segtree_rec]. unfold bind at 1. cbn [print].
    replace (left =? left + 2 ^ Z.of_nat (S k) - 1) with false
      by (symmetry; apply Z.eqb_neq; lia).
    unfold bind at 1. cbn [print].
    unfold bind at 1. cbn [len_selection selection].
    unfold bind at 1.
    replace (Z.of_nat (length pre) <? Z.of_nat (length (selection s)))
      with true
      by (symmetry; apply Z.ltb_lt; rewrite Hsel, length_app; cbn; lia).
    cbn [assert ret].
    rewrite Hmid.
    set (s1 := mkStore _ _ _).
    assert (Hsel' : selection s1 = (pre ++ [sd]) ++ sels)
      by (cbn; rewrite Hsel, <- app_assoc; reflexivity).
    assert (Hd : Z.of_nat (length pre) + 1 = Z.of_nat (length (pre ++ [sd])))
      by (rewrite length_app; cbn; lia).
    unfold bind at 1. unfold read_selection at 1.
    replace (getitem (selection s1) (Z.of_nat (length pre))) with (Some sd)
      by (cbn; rewrite Hsel; symmetry; apply getitem_app_mid).
    rewrite Hd.
    destruct (IH (pre ++ [sd]) fuel (BAnd [ctrl; BNot sd]) left s1 Hsel'
                ltac:(lia) H0 ltac:(cbn; fold k h; lia))
      as (s2 & o2 & E2 & S2 & L2 & O2 & N2 & V2).
    fold k h in E2, N2, V2.
    rewrite (bind_returns _ _ _ _ _ E2).
    assert (Hsel2 : selection s2 = (pre ++ [sd]) ++ sels) by congruence.
    unfold bind at 1. unfold read_selection at 1.
    replace (getitem (selection s2) (Z.of_nat (length pre))) with (Some sd)
      by (rewrite Hsel2, <- app_assoc; symmetry; apply getitem_app_mid).
    destruct (IH (pre ++ [sd]) fuel (BAnd [ctrl; sd]) (left + h) s2 Hsel2
                ltac:(lia) ltac:(lia)
                ltac:(fold k h; rewrite L2; subst s1; cbn [target]; lia))
      as (s3 & o3 & E3 & S3 & L3 & O3 & N3 & V3).
    fold k h in E3, N3, V3.
    replace (left + 2 ^ Z.of_nat (S k)) with (left + h + h) by lia.
    rewrite E3.
    exists s3,
      ([PNode (Z.of_nat (length pre)) left (left + h + h); PNewline]
         ++ o2 ++ o3).
    split; [reflexivity|].
    split; [rewrite S3, S2; reflexivity|].
    split; [rewrite L3, L2; reflexivity|].
    split.
    { rewrite O3, O2. subst s1. cbn [stdout].
      replace (left + 2 ^ Z.of_nat (S k)) with (left + h + h) by lia.
      now rewrite <- !app_assoc. }
    rewrite nodes_printed_app, leaves_printed_app.
    rewrite nodes_printed_app, leaves_printed_app.
    rewrite N2, N3, V2, V3, Hpow.
    change (nodes_printed [PNode (Z.of_nat (length pre)) left (left + h + h);
                           PNewline]) with 1.
    change (leaves_printed [PNode (Z.of_nat (length pre)) left (left + h + h);
                            PNewline]) with 0.
    split; lia.
Qed.

(** X11. A complete walk over [w = len(selection)] levels prints
    [2 * 2^w - 1] node messages, [2^w] of them followed by a leaf message:
    the recursion visits [2^w - 1] inner nodes, one for each pair of branch
    controls it builds. *)
Theorem segtree_prints (ctrl : bexp) (s : store) :
  2 ^ Z.of_nat (length (selection s)) <= Z.of_nat (length (target s)) ->
  exists s' out,
    segtree ctrl 0 0 (2 ^ Z.of_nat (length (selection s))) s = Returns tt s' /\
    stdout s' = stdout s ++ out /\
    nodes_printed out = 2 * 2 ^ Z.of_nat (length (selection s)) - 1 /\
    leaves_printed out = 2 ^ Z.of_nat (length (selection s)).
Proof.
  intros Hlen.
  rewrite (segtree_eq (S (length (selection s)))) by lia.
  destruct (segtree_rec_prints (selection s) [] (S (length (selection s)))
              ctrl 0 s eq_refl ltac:(lia) ltac:(lia) ltac:(lia))
    as (s' & out & E & _ & _ & O & N & V).
  cbn [length] in E. change (Z.of_nat 0) with 0 in E.
  rewrite Z.add_0_l in E. eauto 10.
Qed.

Lemma segtree_prints_witness :
  exists s' out,
    segtree (BSym 7) 0 0 (2 ^ Z.of_nat 2)
      (mkStore (symbols 2) (replicate 4 (BConst false)) []) = Returns tt s' /\
    stdout s' = [] ++ out /\
    nodes_printed out = 2 * 2 ^ Z.of_nat 2 - 1 /\
    leaves_printed out = 2 ^ Z.of_nat 2.
Proof.
  apply (segtree_prints (BSym 7)
         (mkStore (symbols 2) (replicate 4 (BConst false)) [])).
  cbn. lia.
Defined.

(** ** The total-control circuit *)
Lemma run_controlled_app ops1 ops2 st :
  run_controlled (ops1 ++ ops2) st =
  match run_controlled ops1 st with
  | Some st' => run_controlled ops2 st'
  | None => None
  end.
Proof.
  revert st. induction ops1 as [|o ops1 IH]; intros st;
    cbn [app run_controlled].
  - reflexivity.
  - destruct (apply_controlled_x o st); auto.
Qed.

Lemma and_value_holds st qs vals :
  holds st qs vals ->
  forall cv, length cv = length qs ->
    and_value cv qs st = Some (bool_decide (vals = cv)).
Proof.
  induction 1 as [|q b qs vals Hq Hqs IH]; intros [|v cv] Hlen;
    try discriminate.
  - reflexivity.
  - cbn [and_value]. rewrite Hq, (IH cv) by (cbn in Hlen; lia).
    f_equal. destruct b, v; cbn;
      repeat case_bool_decide; try reflexivity; congruence.
Qed.

Lemma holds_app st qs1 qs2 bs1 bs2 :
  holds st qs1 bs1 -> holds st qs2 bs2 -> holds st (qs1 ++ qs2) (bs1 ++ bs2).
Proof. apply Forall2_app. Qed.

Lemma holds_insert st qs bs (t : qubit) (b : bool) :
  t ∉ qs -> holds st qs bs -> holds (<[t := b]> st) qs bs.
Proof.
  intros Ht H. induction H as [|q v qs bs Hq Hqs IH]; constructor.
  - rewrite list_lookup_insert_ne; [exact Hq|].
    intros ->. apply Ht. left.
  - apply IH. intros Hin. apply Ht. now right.
Qed.

Lemma getitem_reverse {A} (l : list A) (i : Z) :
  0 <= i < Z.of_nat (length l) ->
  getitem l (- (i + 1)) = reverse l !! Z.to_nat i.
Proof.
  intros Hi. unfold getitem, py_index.
  replace (0 <=? - (i + 1)) with false by (symmetry; apply Z.leb_gt; lia).
  replace (- Z.of_nat (length l) <=? - (i + 1)) with true
    by (symmetry; apply Z.leb_le; lia).
  replace (- (i + 1) <? 0) with true by (symmetry; apply Z.ltb_lt; lia).
  cbn [andb]. rewrite reverse_lookup by lia. f_equal. lia.
Qed.

Lemma forallb_id_replicate (cs : list bool) :
  bool_decide (cs = replicate (length cs) true) = forallb id cs.
Proof.
  induction cs as [|[] cs IH]; cbn [length replicate forallb id].
  - reflexivity.
  - rewrite <- IH. repeat case_bool_decide; try reflexivity; congruence.
  - now case_bool_decide.
Qed.

Lemma bool_decide_app (l1 l2 k1 k2 : list bool) :
  length l1 = length k1 ->
  bool_decide (l1 ++ l2 = k1 ++ k2)
    = bool_decide (l1 = k1) && bool_decide (l2 = k2).
Proof.
  intros Hlen.
  destruct (decide (l1 = k1)) as [E1|N1], (decide (l2 = k2)) as [E2|N2].
  - rewrite !bool_decide_eq_true_2 by congruence. reflexivity.
  - rewrite (bool_decide_eq_false_2 (l2 = k2)) by exact N2.
    rewrite andb_false_r. apply bool_decide_eq_false_2.
    intros E. apply app_inj_1 in E as [_ ?]; auto.
  - rewrite (bool_decide_eq_false_2 (l1 = k1)) by exact N1.
    apply bool_decide_eq_false_2.
    intros E. apply app_inj_1 in E as [? _]; auto.
  - rewrite (bool_decide_eq_false_2 (l1 = k1)) by exact N1.
    apply bool_decide_eq_false_2.
    intros E. apply app_inj_1 in E as [? _]; auto.
Qed.

Section TotallyControlledNotSemantics.

Variable iter_bits : Z -> nat -> option (list bool).
Variables control selection target : list qubit.
Variable T : nat.

(** The registers have the declared sizes. *)
Local Abbreviation round :=
  (controlled_not iter_bits (length selection) (length control)
     control selection target).

Hypothesis distinct : NoDup (control ++ selection ++ target).
Hypothesis enough_targets : (T <= length target)%nat.
Hypothesis iter_bits_width :
  forall (k : nat) bits,
    (k < T)%nat ->
    iter_bits (Z.of_nat k) (length selection) = Some bits ->
    length bits = length selection.

(** One operation of the decomposition on a state whose control and
    selection qubits hold [cs] and [bs]. *)
Lemma controlled_not_fires (st : basis) (cs bs bits : list bool) (k : nat) :
  holds st control cs -> holds st selection bs ->
  Forall (fun t : qubit => (t < length st)%nat) target ->
  (k < T)%nat ->
  iter_bits (Z.of_nat k) (length selection) = Some bits ->
  exists o,
    round (Z.of_nat k) = Some o /\
    apply_controlled_x o st =
      Some (if forallb id cs && bool_decide (bs = bits)
            then flip_target target (Z.of_nat k) st else st).
Proof.
  intros Hcs Hbs Hrange Hk Hbits.
  pose proof (iter_bits_width k bits Hk Hbits) as Hlen.
  assert (Hget : exists t, getitem target (- (Z.of_nat k + 1)) = Some t).
  { rewrite getitem_reverse, Nat2Z.id by lia.
    apply lookup_lt_is_Some_2. rewrite length_reverse. lia. }
  destruct Hget as [t Ht].
  assert (Hin : t ∈ target) by (eapply getitem_elem_of; eauto).
  assert (Hb : exists b, st !! t = Some b).
  { apply lookup_lt_is_Some_2.
    rewrite Forall_forall in Hrange. now apply Hrange. }
  destruct Hb as [b Hb].
  unfold controlled_not. rewrite Hbits, Ht. eexists. split; [reflexivity|].
  unfold apply_controlled_x. cbn [qubits num_controls control_values].
  rewrite app_assoc in distinct.
  apply NoDup_app in distinct as (Hcsel & Hdisj & _).
  rewrite bool_decide_eq_true_2.
  2:{ rewrite app_assoc. apply NoDup_app. split; [exact Hcsel|].
      split; [|apply NoDup_singleton].
      intros q Hq Hqt. apply list_elem_of_singleton in Hqt. subst q.
      exact (Hdisj t Hq Hin). }
  rewrite app_assoc.
  rewrite drop_app_length' by (rewrite length_app; reflexivity).
  rewrite take_app_length' by (rewrite length_app; reflexivity).
  rewrite (and_value_holds st (control ++ selection) (cs ++ bs))
    by (try apply holds_app; auto;
        rewrite !length_app, length_replicate; lia).
  rewrite Hb. f_equal.
  assert (Hcl : length cs = length control)
    by (symmetry; eapply Forall2_length; eauto).
  assert (Hbl : length bs = length selection)
    by (symmetry; eapply Forall2_length; eauto).
  rewrite bool_decide_app by (now rewrite length_replicate).
  rewrite <- Hcl, forallb_id_replicate.
  destruct (forallb id cs && bool_decide (bs = bits)); [|reflexivity].
  unfold flip_target. now rewrite Ht, Hb.
Qed.

(** Operations whose pattern the selection qubits do not hold, or under
    controls that are not all on, change nothing. *)
Lemma run_controlled_idle (cs bs : list bool) :
  forall (ks : list nat) ops st,
    holds st control cs -> holds st selection bs ->
    Forall (fun t : qubit => (t < length st)%nat) target ->
    Forall (fun k : nat =>
              (k < T)%nat /\
              forall bits,
                iter_bits (Z.of_nat k) (length selection) = Some bits ->
                forallb id cs && bool_decide (bs = bits) = false) ks ->
    Forall2 (fun (k : nat) o => round (Z.of_nat k) = Some o) ks ops ->
    run_controlled ops st = Some st.
Proof.
  intros ks ops st Hcs Hbs Hrange Hks Hops.
  induction Hops as [|k o ks ops Ho Hops IH]; [reflexivity|].
  apply Forall_cons in Hks as [[Hk Hoff] Hks].
  cbn [run_controlled].
  destruct (iter_bits (Z.of_nat k) (length selection)) as [bits|] eqn:Hbits.
  2:{ unfold controlled_not in Ho. now rewrite Hbits in Ho. }
  destruct (controlled_not_fires st cs bs bits k Hcs Hbs Hrange Hk Hbits)
    as (o' & Ho' & Happ).
  rewrite Ho in Ho'. injection Ho' as <-.
  rewrite Happ, (Hoff bits eq_refl). now apply IH.
Qed.

(** With enough target qubits, only [iter_bits] can make a round fail. *)
Lemma decompose_from_registers_some :
  (forall k : nat, (k < T)%nat ->
     is_Some (iter_bits (Z.of_nat k) (length selection))) ->
  exists ops,
    decompose_from_registers iter_bits (length selection) T (length control)
      control selection target = Some ops /\
    length ops = T /\
    Forall2 (fun (k : nat) o => round (Z.of_nat k) = Some o) (seq 0 T) ops.
Proof.
  intros Hbits. unfold decompose_from_registers.
  destruct (mapM round (Z.of_nat <$> seq 0 T)) as [ops|] eqn:E.
  - exists ops. split; [reflexivity|].
    pose proof (length_mapM _ _ _ E) as Hl.
    rewrite length_fmap, length_seq in Hl. split; [auto|].
    apply mapM_Some_1 in E. now apply Forall2_fmap_l in E.
  - exfalso.
    assert (Hs : is_Some (mapM round (Z.of_nat <$> seq 0 T))).
    { apply mapM_is_Some. apply Forall_fmap, Forall_forall.
      intros k Hk. apply elem_of_seq in Hk. cbn.
      destruct (Hbits k ltac:(lia)) as [bits Hb].
      unfold controlled_not. rewrite Hb.
      rewrite getitem_reverse, Nat2Z.id by lia.
      destruct (lookup_lt_is_Some_2 (reverse target) k) as [t ->];
        [rewrite length_reverse; lia|].
      eauto. }
    rewrite E in Hs. now destruct Hs.
Qed.

End TotallyControlledNotSemantics.

(** X12. [TotallyControlledNot.decompose_from_registers] over distinct
    qubits, with registers of the declared sizes and at least
    [target_bitsize] target qubits, and with [iter_bits] giving a pattern
    of [selection_bitsize] bits for every index below [target_bitsize]:
    the decomposition has [target_bitsize] operations, and on a basis
    state whose selection qubits hold the pattern of [n] and of no other
    index it flips the target qubit [target[-(n + 1)]] when every control
    qubit holds 1 and changes nothing otherwise. *)
Theorem totally_controlled_not_selects
    (iter_bits : Z -> nat -> option (list bool))
    (control selection target : list qubit) (T : nat)
    (st : basis) (cs bs : list bool) (n : nat) :
  NoDup (control ++ selection ++ target) ->
  (T <= length target)%nat ->
  Forall (fun t : qubit => (t < length st)%nat) target ->
  (forall k : nat, (k < T)%nat ->
     exists bits, iter_bits (Z.of_nat k) (length selection) = Some bits /\
                  length bits = length selection) ->
  (forall k : nat, (k < T)%nat ->
     iter_bits (Z.of_nat k) (length selection) = Some bs -> k = n) ->
  (n < T)%nat ->
  iter_bits (Z.of_nat n) (length selection) = Some bs ->
  holds st control cs ->
  holds st selection bs ->
  exists ops,
    decompose_from_registers iter_bits (length selection) T (length control)
      control selection target = Some ops /\
    length ops = T /\
    run_controlled ops st =
      Some (if forallb id cs then flip_target target (Z.of_nat n) st else st).
Proof.
  intros Hnd HT Hrange Hbits Hinj Hn Hbs Hc Hs.
  assert (Hwidth : forall (k : nat) bits, (k < T)%nat ->
            iter_bits (Z.of_nat k) (length selection) = Some bits ->
            length bits = length selection).
  { intros k bits Hk E. destruct (Hbits k Hk) as (b' & E' & Hl). congruence. }
  destruct (decompose_from_registers_some iter_bits control selection target T
              HT)
    as (ops & E & Hlen & Hops).
  { intros k Hk. destruct (Hbits k Hk) as (b' & E' & _). eauto. }
  exists ops. split; [exact E|]. split; [exact Hlen|].
  replace (seq 0 T) with (seq 0 n ++ n :: seq (S n) (T - S n)) in Hops.
  2:{ change (n :: seq (S n) (T - S n)) with (seq n (S (T - S n))).
      replace (seq n (S (T - S n))) with (seq (0 + n) (S (T - S n)))
        by reflexivity.
      rewrite <- seq_app. f_equal. lia. }
  apply Forall2_app_inv_l in Hops as (ops1 & ops' & H1 & H2 & ->).
  apply Forall2_cons_inv_l in H2 as (o & ops2 & Ho & H2 & ->).
  assert (Hoff : forall ks : list nat,
            Forall (fun k : nat => (k < T)%nat /\ k <> n) ks ->
            Forall (fun k : nat =>
              (k < T)%nat /\
              forall bits, iter_bits (Z.of_nat k) (length selection)
                             = Some bits ->
                forallb id cs && bool_decide (bs = bits) = false) ks).
  { intros ks Hks. eapply Forall_impl; [exact Hks|].
    intros k [Hk Hne]. split; [exact Hk|].
    intros bits Eb. rewrite bool_decide_eq_false_2; [apply andb_false_r|].
    intros ->. apply Hne. now apply Hinj. }
  assert (Hidle1 : run_controlled ops1 st = Some st).
  { apply (run_controlled_idle iter_bits control selection target T Hnd HT
             Hwidth cs bs (seq 0 n)); auto.
    apply Hoff, Forall_forall. intros k Hk. apply elem_of_seq in Hk. lia. }
  assert (Hidle2 : forall st' : basis,
            holds st' control cs -> holds st' selection bs ->
            Forall (fun t : qubit => (t < length st')%nat) target ->
            run_controlled ops2 st' = Some st').
  { intros st' Hc' Hs' Hr'.
    apply (run_controlled_idle iter_bits control selection target T Hnd HT
             Hwidth cs bs (seq (S n) (T - S n))); auto.
    apply Hoff, Forall_forall. intros k Hk. apply elem_of_seq in Hk. lia. }
  clear Hoff.
  rewrite run_controlled_app, Hidle1. cbn [run_controlled].
  destruct (controlled_not_fires iter_bits control selection target T Hnd HT
              Hwidth st cs bs bs n Hc Hs Hrange Hn Hbs) as (o' & Ho' & Happ).
  rewrite Ho in Ho'. injection Ho' as <-. rewrite Happ.
  rewrite bool_decide_eq_true_2, andb_true_r by reflexivity.
  destruct (forallb id cs) eqn:Hall; [|now apply Hidle2].
  unfold flip_target.
  destruct (getitem target (- (Z.of_nat n + 1))) as [t|] eqn:Ht;
    [|now apply Hidle2].
  destruct (st !! t) as [b|] eqn:Hb; [|now apply Hidle2].
  assert (Hin : t ∈ target) by (eapply getitem_elem_of; eauto).
  pose proof Hnd as Hnd'. rewrite app_assoc in Hnd'.
  apply NoDup_app in Hnd' as (_ & Hdisj & _).
  apply Hidle2.
  - apply holds_insert; [|exact Hc].
    intros Hq. apply (Hdisj t); [apply elem_of_app; now left|exact Hin].
  - apply holds_insert; [|exact Hs].
    intros Hq. apply (Hdisj t); [apply elem_of_app; now right|exact Hin].
  - rewrite length_insert. exact Hrange.
Qed.

Lemma totally_controlled_not_selects_witness :
  exists ops,
    decompose_from_registers (fun (v : Z) (w : nat) => Some (bits_be w v)) 3 5 1
      [0]%nat [1; 2; 3]%nat [4; 5; 6; 7; 8]%nat = Some ops /\
    length ops = 5%nat /\
    run_controlled ops
      [true; false; true; true; false; false; false; false; false] =
      Some (if forallb id [true]
            then flip_target [4; 5; 6; 7; 8]%nat (Z.of_nat 3)
                   [true; false; true; true; false; false; false; false; false]
            else [true; false; true; true; false; false; false; false; false]).
Proof.
  apply (totally_controlled_not_selects
           (fun (v : Z) (w : nat) => Some (bits_be w v))
           [0]%nat [1; 2; 3]%nat [4; 5; 6; 7; 8]%nat 5
           [true; false; true; true; false; false; false; false; false]
           [true] [false; true; true] 3).
  - apply (bool_decide_unpack _). vm_compute. exact I.
  - cbn. lia.
  - repeat constructor; cbn; lia.
  - intros k Hk. eexists. split; [reflexivity|apply bits_be_length].
  - intros k Hk E.
    do 5 (destruct k as [|k];
          [try reflexivity; vm_compute in E; discriminate|]).
    lia.
  - lia.
  - reflexivity.
  - repeat constructor.
  - repeat constructor.
Defined.

(** X13. Under the same conditions, on a basis state whose selection qubits
    hold a pattern that [iter_bits] gives for no index below
    [target_bitsize], the decomposition changes nothing, whatever the
    control qubits hold. *)
Theorem totally_controlled_not_idle
    (iter_bits : Z -> nat -> option (list bool))
    (control selection target : list qubit) (T : nat)
    (st : basis) (cs bs : list bool) :
  NoDup (control ++ selection ++ target) ->
  (T <= length target)%nat ->
  Forall (fun t : qubit => (t < length st)%nat) target ->
  (forall k : nat, (k < T)%nat ->
     exists bits, iter_bits (Z.of_nat k) (length selection) = Some bits /\
                  length bits = length selection) ->
  (forall k : nat, (k < T)%nat ->
     iter_bits (Z.of_nat k) (length selection) <> Some bs) ->
  holds st control cs ->
  holds st selection bs ->
  exists ops,
    decompose_from_registers iter_bits (length selection) T (length control)
      control selection target = Some ops /\
    run_controlled ops st = Some st.
Proof.
  intros Hnd HT Hrange Hbits Hno Hc Hs.
  assert (Hwidth : forall (k : nat) bits, (k < T)%nat ->
            iter_bits (Z.of_nat k) (length selection) = Some bits ->
            length bits = length selection).
  { intros k bits Hk E. destruct (Hbits k Hk) as (b' & E' & Hl). congruence. }
  destruct (decompose_from_registers_some iter_bits control selection target T
              HT)
    as (ops & E & _ & Hops).
  { intros k Hk. destruct (Hbits k Hk) as (b' & E' & _). eauto. }
  exists ops. split; [exact E|].
  apply (run_controlled_idle iter_bits control selection target T Hnd HT
           Hwidth cs bs (seq 0 T)); auto.
  apply Forall_forall. intros k Hk. apply elem_of_seq in Hk.
  split; [lia|]. intros bits Eb.
  rewrite bool_decide_eq_false_2; [apply andb_false_r|].
  intros ->. apply (Hno k); [lia|exact Eb].
Qed.

Lemma totally_controlled_not_idle_witness :
  exists ops,
    decompose_from_registers (fun (v : Z) (w : nat) => Some (bits_be w v)) 3 5 1
      [0]%nat [1; 2; 3]%nat [4; 5; 6; 7; 8]%nat = Some ops /\
    run_controlled ops
      [true; true; true; true; false; false; false; false; false]
      = Some [true; true; true; true; false; false; false; false; false].
Proof.
  apply (totally_controlled_not_idle
           (fun (v : Z) (w : nat) => Some (bits_be w v))
           [0]%nat [1; 2; 3]%nat [4; 5; 6; 7; 8]%nat 5
           [true; true; true; true; false; false; false; false; false]
           [true] [true; true; true]).
  - apply (bool_decide_unpack _). vm_compute. exact I.
  - cbn. lia.
  - repeat constructor; cbn; lia.
  - intros k Hk. eexists. split; [reflexivity|apply bits_be_length].
  - intros k Hk E.
    do 5 (destruct k as [|k]; [vm_compute in E; discriminate|]).
    lia.
  - repeat constructor.
  - repeat constructor.
Defined.

(** X14. With fewer target qubits than [target_bitsize] the decomposition
    does not complete: the round of the first missing qubit raises, if
    none before it did. *)
Theorem totally_controlled_not_short_target
    (iter_bits : Z -> nat -> option (list bool))
    (selection_bitsize target_bitsize control_bitsize : nat)
    (control selection target : list qubit) :
  (length target < target_bitsize)%nat ->
  decompose_from_registers iter_bits selection_bitsize target_bitsize
    control_bitsize control selection target = None.
Proof.
  intros Hlen. unfold decompose_from_registers.
  destruct (mapM _ _) as [ops|] eqn:E; [exfalso|reflexivity].
  apply mapM_Some_1, Forall2_fmap_l in E.
  assert (Hk : length target ∈ seq 0 target_bitsize)
    by (apply elem_of_seq; lia).
  apply list_elem_of_lookup in Hk as [i Hi].
  destruct (Forall2_lookup_l _ _ _ _ _ E Hi) as (o & _ & Ho).
  cbn in Ho. unfold controlled_not in Ho.
  destruct (iter_bits _ _); [|discriminate].
  unfold getitem in Ho. rewrite py_index_outside in Ho by lia. discriminate.
Qed.

Lemma totally_controlled_not_short_target_witness :
  decompose_from_registers (fun (v : Z) (w : nat) => Some (bits_be w v)) 3 5 1
    [0]%nat [1; 2; 3]%nat [4; 5; 6]%nat = None.
Proof.
  apply (totally_controlled_not_short_target
           (fun (v : Z) (w : nat) => Some (bits_be w v)) 3 5 1
           [0]%nat [1; 2; 3]%nat [4; 5; 6]%nat).
  cbn. lia.
Defined.

(** ** The callback of [ApplyXToLthQubit] *)

(** X15. For a selection value [-len(target) <= selection < len(target)],
    [ApplyXToLthQubit.nth_operation] takes the qubit at position
    [selection mod len(target)] of the reversed target register: index 0
    is the last target qubit, and a negative selection is not rejected but
    counted from the other end.  When that qubit is the control itself the
    call fails, as [cirq.CNOT] refuses it; otherwise the answer is the one
    CNOT from the control on that qubit. *)
Theorem apply_x_nth_operation_target (target : list qubit) (control : qubit)
    (i : Z) :
  - Z.of_nat (length target) <= i < Z.of_nat (length target) ->
  exists t,
    reverse target !! Z.to_nat (i mod Z.of_nat (length target)) = Some t /\
    apply_x_nth_operation target control i =
      if Nat.eqb control t then None else Some [CNOT control t].
Proof.
  intros H. set (len := Z.of_nat (length target)) in *.
  unfold apply_x_nth_operation, getitem.
  rewrite (py_index_wraps target (- (i + 1))) by (fold len; lia). fold len.
  assert (Hm : 0 <= i mod len < len) by (apply Z.mod_pos_bound; lia).
  assert (Hm' : 0 <= (- (i + 1)) mod len < len)
    by (apply Z.mod_pos_bound; lia).
  assert (E : (- (i + 1)) mod len = len - 1 - i mod len).
  { symmetry. apply (Z.mod_unique_pos _ _ (- (i / len) - 1)); [lia|].
    pose proof (Z.div_mod i len ltac:(lia)). lia. }
  rewrite reverse_lookup by lia.
  replace (length target - S (Z.to_nat (i mod len)))%nat
    with (Z.to_nat ((- (i + 1)) mod len)) by lia.
  destruct (lookup_lt_is_Some_2 target (Z.to_nat ((- (i + 1)) mod len)))
    as [t Ht]; [lia|].
  exists t. now rewrite Ht.
Qed.

Lemma apply_x_nth_operation_target_witness :
  exists t,
    reverse [7; 8; 9; 10; 11]%nat !! Z.to_nat (1 mod Z.of_nat 5) = Some t /\
    apply_x_nth_operation [7; 8; 9; 10; 11]%nat 0%nat 1 =
      if Nat.eqb 0 t then None else Some [CNOT 0%nat t].
Proof.
  apply (apply_x_nth_operation_target [7; 8; 9; 10; 11]%nat 0%nat 1).
  cbn. lia.
Defined.

(** X16. Over a target register of distinct qubits and under a control
    that is not one of them, [ApplyXToLthQubit.nth_operation] answers two
    different selection values in [[0, len(target))] with CNOTs on two
    different target qubits. *)
Theorem apply_x_nth_operation_distinct (target : list qubit)
    (control : qubit) (i j : Z) :
  NoDup target ->
  control ∉ target ->
  0 <= i < Z.of_nat (length target) ->
  0 <= j < Z.of_nat (length target) ->
  i <> j ->
  exists t u : qubit,
    t <> u /\
    apply_x_nth_operation target control i = Some [CNOT control t] /\
    apply_x_nth_operation target control j = Some [CNOT control u].
Proof.
  intros Hnd Hc Hi Hj Hne.
  destruct (apply_x_nth_operation_ok target control i Hc Hi) as [t Et].
  destruct (apply_x_nth_operation_ok target control j Hc Hj) as [u Eu].
  exists t, u. split; [|split; assumption].
  intros ->. apply Hne.
  unfold apply_x_nth_operation in Et, Eu.
  rewrite getitem_reverse in Et, Eu by lia.
  destruct (reverse target !! Z.to_nat i) as [t|] eqn:Ht; [|discriminate].
  destruct (reverse target !! Z.to_nat j) as [t'|] eqn:Hu; [|discriminate].
  destruct (Nat.eqb control t); [discriminate|].
  destruct (Nat.eqb control t'); [discriminate|].
  injection Et as ->. injection Eu as ->.
  rewrite reverse_lookup in Ht, Hu by lia.
  pose proof (NoDup_lookup _ _ _ _ Hnd Ht Hu). lia.
Qed.

Lemma apply_x_nth_operation_distinct_witness :
  exists t u : qubit,
    t <> u /\
    apply_x_nth_operation [7; 8; 9; 10; 11]%nat 0%nat 1
      = Some [CNOT 0%nat t] /\
    apply_x_nth_operation [7; 8; 9; 10; 11]%nat 0%nat 2
      = Some [CNOT 0%nat u].
Proof.
  apply (apply_x_nth_operation_distinct [7; 8; 9; 10; 11]%nat 0%nat 1 2).
  - apply (bool_decide_unpack _). vm_compute. exact I.
  - apply (lines_apart [0]%nat [7; 8; 9; 10; 11]%nat);
      [reflexivity | left].
  - cbn. lia.
  - cbn. lia.
  - lia.
Defined.

(** ** The circuit written out for [L = 4] *)

(** X17. The circuit that the notebook writes out for [L = 4], simulated
    with the And gate as the spec describes it, from any basis state whose
    two helper qubits hold 0: when the control qubit holds 1 it flips the
    target qubit [target[-(n + 1)]] of the index [n] that the two selection
    qubits spell, whatever the target qubits held, and returns the helper
    qubits to 0; when the control holds 0 it changes nothing. *)
Theorem notebook_circuit_flips (a b0 b1 t5 t6 t7 t8 : bool) :
  let st := [a; b0; false; b1; false; t5; t6; t7; t8] in
  run notebook_circuit st =
    Some (if a then flip_target [5; 6; 7; 8]%nat (of_bits [b0; b1]) st
          else st).
Proof. destruct a, b0, b1, t5, t6, t7, t8; reflexivity. Qed.

(** ** The gate with registers *)

Lemma run_fan_out (c : qubit) (a : bool) :
  forall (ts : list qubit) (st : basis),
    c ∉ ts -> NoDup ts ->
    st !! c = Some a ->
    Forall (fun t : qubit => (t < length st)%nat) ts ->
    exists st',
      run (t ← ts; [CNOT c t]) st = Some st' /\
      length st' = length st /\
      (forall q : qubit, q ∉ ts -> st' !! q = st !! q) /\
      (forall (t : qubit) (b : bool), t ∈ ts -> st !! t = Some b ->
         st' !! t = Some (xorb b a)).
Proof.
  induction ts as [|t ts IH]; intros st Hc Hnd Ha Hr.
  - exists st. repeat split; auto. intros t b Ht. inversion Ht.
  - apply not_elem_of_cons in Hc as [Hct Hc].
    apply NoDup_cons in Hnd as [Htts Hnd].
    apply Forall_cons in Hr as [Ht Hr].
    destruct (lookup_lt_is_Some_2 st t Ht) as [b Hb].
    cbn [mbind list_bind app]. cbn [run].
    rewrite (apply_cnot_some st c t a b) by auto.
    destruct (IH (<[t := xorb b a]> st)) as (st' & E & Hl & Hout & Hin); auto.
    { now rewrite list_lookup_insert_ne by auto. }
    { now rewrite length_insert. }
    exists st'. split; [exact E|]. rewrite length_insert in Hl.
    split; [exact Hl|]. split.
    + intros q Hq. apply not_elem_of_cons in Hq as [Hqt Hq].
      rewrite Hout by auto. now rewrite list_lookup_insert_ne by auto.
    + intros u bu Hu Hbu. apply elem_of_cons in Hu as [->|Hu].
      * rewrite Hout by auto. rewrite list_lookup_insert_eq by auto.
        congruence.
      * rewrite (Hin u bu); auto.
        rewrite list_lookup_insert_ne; [exact Hbu|]. now intros ->.
Qed.

Lemma holds_outside (st st' : basis) (qs : list qubit) (bs : list bool) :
  (forall q, q ∈ qs -> st' !! q = st !! q) ->
  holds st qs bs -> holds st' qs bs.
Proof.
  intros Hsame H. induction H as [|q b qs bs Hq H IH]; constructor.
  - rewrite Hsame; [exact Hq|left].
  - apply IH. intros q' Hq'. apply Hsame. now right.
Qed.

Lemma run_fan_outs (ts : list qubit) :
  forall (cs : list qubit) (vals : list bool) (st : basis),
    NoDup ts ->
    (forall c, c ∈ cs -> c ∉ ts) ->
    holds st cs vals ->
    Forall (fun t : qubit => (t < length st)%nat) ts ->
    exists st',
      run (c ← cs; t ← ts; [CNOT c t]) st = Some st' /\
      length st' = length st /\
      (forall q : qubit, q ∉ ts -> st' !! q = st !! q) /\
      (forall (t : qubit) (b : bool), t ∈ ts -> st !! t = Some b ->
         st' !! t = Some (xorb b (parity vals))).
Proof.
  induction cs as [|c cs IH]; intros vals st Hnd Hdisj Hv Hr.
  - apply Forall2_nil_inv_l in Hv as ->.
    exists st. repeat split; auto. intros t b _ Hb. cbn.
    now rewrite xorb_false_r.
  - apply Forall2_cons_inv_l in Hv as (a & vals' & Hc & Hv & ->).
    cbn [mbind list_bind]. rewrite run_app.
    destruct (run_fan_out c a ts st) as (st1 & E1 & L1 & O1 & I1); auto.
    { apply Hdisj. left. }
    change (foldr app [] ((fun t => [CNOT c t]) <$> ts))
      with (t ← ts; [CNOT c t]).
    rewrite E1.
    destruct (IH vals' st1) as (st2 & E2 & L2 & O2 & I2); auto.
    { intros c' Hc'. apply Hdisj. now right. }
    { apply (holds_outside st); [|exact Hv].
      intros q Hq. apply O1, Hdisj. now right. }
    { now rewrite L1. }
    exists st2. split; [exact E2|]. split; [congruence|]. split.
    + intros q Hq. now rewrite O2, O1.
    + intros t b Ht Hb. rewrite (I2 t (xorb b a)); auto.
      change (parity (a :: vals')) with (xorb a (parity vals')). f_equal.
      destruct b, a, (parity vals'); reflexivity.
Qed.

Lemma my_gate_effect (control target : list qubit) (st : basis)
    (vals : list bool) :
  length control = 2%nat ->
  length target = 3%nat ->
  NoDup (control ++ target) ->
  holds st control vals ->
  Forall (fun t : qubit => (t < length st)%nat) target ->
  exists ops st',
    my_gate_decompose control target = inr ops /\
    length ops = 6%nat /\
    run ops st = Some st' /\
    length st' = length st /\
    (forall q : qubit, q ∉ target -> st' !! q = st !! q) /\
    (forall (t : qubit) (b : bool), t ∈ target -> st !! t = Some b ->
       st' !! t = Some (xorb b (parity vals))).
Proof.
  intros Hc Ht Hnd Hv Hr. unfold my_gate_decompose. rewrite Hc, Ht.
  cbn [Nat.eqb negb].
  apply NoDup_app in Hnd as (_ & Hdisj & Hndt).
  destruct (run_fan_outs target control vals st Hndt Hdisj Hv Hr)
    as (st' & E & L & O & I).
  eexists _, st'. split; [reflexivity|]. split; [|auto].
  destruct control as [|c0 [|c1 [|]]]; try discriminate.
  destruct target as [|t0 [|t1 [|t2 [|]]]]; try discriminate.
  reflexivity.
Qed.

(** X18. [MyGate.decompose_from_registers] on two control and three target
    qubits, all distinct: the six CNOTs leave every qubit outside the
    target register as it was and xor into each target qubit the parity of
    the two control qubits. *)
Theorem my_gate_parity (control target : list qubit) (st : basis)
    (vals : list bool) :
  length control = 2%nat ->
  length target = 3%nat ->
  NoDup (control ++ target) ->
  holds st control vals ->
  Forall (fun t : qubit => (t < length st)%nat) target ->
  exists ops st',
    my_gate_decompose control target = inr ops /\
    length ops = 6%nat /\
    run ops st = Some st' /\
    length st' = length st /\
    (forall q : qubit, q ∉ target -> st' !! q = st !! q) /\
    (forall (t : qubit) (b : bool), t ∈ target -> st !! t = Some b ->
       st' !! t = Some (xorb b (parity vals))).
Proof. exact (my_gate_effect control target st vals). Qed.

Lemma my_gate_parity_witness :
  exists ops st',
    my_gate_decompose [0; 1]%nat [2; 3; 4]%nat = inr ops /\
    length ops = 6%nat /\
    run ops [true; false; false; true; false] = Some st' /\
    length st' = length [true; false; false; true; false] /\
    (forall q : qubit, q ∉ [2; 3; 4]%nat ->
       st' !! q = [true; false; false; true; false] !! q) /\
    (forall (t : qubit) (b : bool), t ∈ [2; 3; 4]%nat ->
       [true; false; false; true; false] !! t = Some b ->
       st' !! t = Some (xorb b (parity [true; false]))).
Proof.
  apply (my_gate_parity [0; 1]%nat [2; 3; 4]%nat
           [true; false; false; true; false] [true; false]).
  - reflexivity.
  - reflexivity.
  - apply (bool_decide_unpack _). vm_compute. exact I.
  - repeat constructor.
  - repeat constructor; cbn; lia.
Defined.

(** X19. The decomposition of [MyGate] applied twice to a basis state gives
    the state back. *)
Theorem my_gate_twice (control target : list qubit) (st : basis)
    (vals : list bool) :
  length control = 2%nat ->
  length target = 3%nat ->
  NoDup (control ++ target) ->
  holds st control vals ->
  Forall (fun t : qubit => (t < length st)%nat) target ->
  exists ops,
    my_gate_decompose control target = inr ops /\
    run (ops ++ ops) st = Some st.
Proof.
  intros Hc Ht Hnd Hv Hr.
  destruct (my_gate_effect control target st vals Hc Ht Hnd Hv Hr)
    as (ops & st1 & E & _ & R1 & L1 & O1 & I1).
  assert (Hv1 : holds st1 control vals).
  { apply (holds_outside st); [|exact Hv].
    apply NoDup_app in Hnd as (_ & Hdisj & _).
    intros q Hq. apply O1, Hdisj, Hq. }
  assert (Hr1 : Forall (fun t : qubit => (t < length st1)%nat) target)
    by now rewrite L1.
  destruct (my_gate_effect control target st1 vals Hc Ht Hnd Hv1 Hr1)
    as (ops' & st2 & E' & _ & R2 & L2 & O2 & I2).
  rewrite E in E'. injection E' as <-.
  exists ops. split; [exact E|]. rewrite run_app, R1, R2. f_equal.
  apply list_eq. intros q.
  destruct (decide (q ∈ target)) as [Hq|Hq].
  - rewrite Forall_forall in Hr.
    destruct (lookup_lt_is_Some_2 st q (Hr q Hq)) as [b Hb].
    rewrite (I2 q (xorb b (parity vals))) by auto.
    rewrite Hb. f_equal. destruct b, (parity vals); reflexivity.
  - now rewrite O2, O1.
Qed.

Lemma my_gate_twice_witness :
  exists ops,
    my_gate_decompose [0; 1]%nat [2; 3; 4]%nat = inr ops /\
    run (ops ++ ops) [true; false; false; true; false]
      = Some [true; false; false; true; false].
Proof.
  apply (my_gate_twice [0; 1]%nat [2; 3; 4]%nat
           [true; false; false; true; false] [true; false]).
  - reflexivity.
  - reflexivity.
  - apply (bool_decide_unpack _). vm_compute. exact I.
  - repeat constructor.
  - repeat constructor; cbn; lia.
Defined.

(** ** [Generate] *)

Lemma range_length a b : length (range a b) = Z.to_nat (b - a).
Proof. unfold range. now rewrite length_fmap, length_seq. Qed.

Lemma range_lookup a b (i : nat) :
  (i < Z.to_nat (b - a))%nat -> range a b !! i = Some (a + Z.of_nat i).
Proof.
  intros Hi. unfold range. rewrite list_lookup_fmap, lookup_seq_lt by lia.
  reflexivity.
Qed.

Lemma generate_loop_spec (and_t_count : Z -> option Z) (ns : list Z) :
  forall nc tc,
    Forall (fun n => is_Some (and_t_count n)) ns ->
    exists tc',
      generate_loop and_t_count ns nc tc = Some (nc ++ ns, tc ++ tc') /\
      Forall2 (fun n t => and_t_count n = Some t) ns tc'.
Proof.
  induction ns as [|n ns IH]; intros nc tc Hs.
  - exists []. rewrite !app_nil_r. split; [reflexivity|constructor].
  - apply Forall_cons in Hs as [[t Ht] Hs]. cbn [generate_loop]. rewrite Ht.
    destruct (IH (nc ++ [n]) (tc ++ [t]) Hs) as (tc' & E & F).
    exists (t :: tc'). rewrite E, <- !app_assoc. split; [reflexivity|].
    now constructor.
Qed.

(** X20. When the T count is available for every And of 2 to [n_max + 1]
    controls, [Generate(n_max)] returns two lists of [max(n_max, 0)]
    entries each: [n_controls[i] = i + 2], so the numbers of controls run
    up to [n_max + 1], and [t_count[i]] is the T count of the And of
    [i + 2] controls. *)
Theorem Generate_lists (and_t_count : Z -> option Z) (n_max : Z) :
  (forall n, 2 <= n <= n_max + 1 -> is_Some (and_t_count n)) ->
  exists n_controls t_count,
    Generate and_t_count n_max = Some (n_controls, t_count) /\
    length n_controls = Z.to_nat n_max /\
    length t_count = Z.to_nat n_max /\
    forall i : nat, (i < Z.to_nat n_max)%nat ->
      n_controls !! i = Some (Z.of_nat i + 2) /\
      t_count !! i = and_t_count (Z.of_nat i + 2).
Proof.
  intros Hs. unfold Generate.
  destruct (generate_loop_spec and_t_count (range 2 (n_max + 2)) [] [])
    as (tc & E & F).
  { apply Forall_forall. intros n Hn.
    apply list_elem_of_lookup in Hn as [i Hi].
    pose proof (lookup_lt_Some _ _ _ Hi) as Hlt. rewrite range_length in Hlt.
    rewrite range_lookup in Hi by lia. injection Hi as <-. apply Hs. lia. }
  cbn [app] in E. exists (range 2 (n_max + 2)), tc. split; [exact E|].
  pose proof (Forall2_length _ _ _ F) as Hl. rewrite range_length in Hl.
  rewrite range_length.
  replace (n_max + 2 - 2) with n_max in * by lia.
  split; [reflexivity|]. split; [lia|].
  intros i Hi.
  assert (Hr : range 2 (n_max + 2) !! i = Some (Z.of_nat i + 2)).
  { rewrite range_lookup by lia. f_equal. lia. }
  split; [exact Hr|].
  destruct (Forall2_lookup_l _ _ _ _ _ F Hr) as (t & Ht & Hc). congruence.
Qed.

Lemma Generate_lists_witness :
  exists n_controls t_count,
    Generate (fun n => Some (4 * (n - 1))) 3 = Some (n_controls, t_count) /\
    length n_controls = Z.to_nat 3 /\
    length t_count = Z.to_nat 3 /\
    forall i : nat, (i < Z.to_nat 3)%nat ->
      n_controls !! i = Some (Z.of_nat i + 2) /\
      t_count !! i = (fun n => Some (4 * (n - 1))) (Z.of_nat i + 2).
Proof.
  apply (Generate_lists (fun n => Some (4 * (n - 1))) 3).
  intros n Hn. eexists. reflexivity.
Defined.

(** ** [phase_estimation] *)

Section PhaseEstimationProofs.

Variable W : Type.
Variable square : W -> W.

Lemma range_succ a b : a < b -> range a b = a :: range (a + 1) b.
Proof.
  intros H. unfold range.
  replace (Z.to_nat (b - a)) with (S (Z.to_nat (b - (a + 1)))) by lia.
  cbn [seq fmap list_fmap]. rewrite <- fmap_S_seq, <- list_fmap_compose.
  f_equal; [lia|]. apply list_fmap_ext. intros _ i _. cbn. lia.
Qed.

Lemma rounds_length walk0 (rest : list Z) :
  forall walk, length (rounds square walk0 rest walk) = (3 * length rest)%nat.
Proof.
  induction rest as [|i rest IH]; intros walk; [reflexivity|].
  cbn [rounds length]. rewrite IH. lia.
Qed.

Lemma queries_app power (ops1 ops2 : list (pe_op W)) :
  queries power (ops1 ++ ops2) = queries power ops1 + queries power ops2.
Proof.
  induction ops1 as [|[] ops1 IH]; cbn [app queries]; lia.
Qed.

Lemma rounds_queries power walk0 (rest : list Z) :
  (forall x, power (square x) = 2 * power x) ->
  forall walk,
    queries power (rounds square walk0 rest walk)
      = power walk * (2 ^ Z.of_nat (length rest) - 1).
Proof.
  intros Hsq. induction rest as [|i rest IH]; intros walk.
  - cbn. lia.
  - cbn [rounds queries length]. rewrite IH, Hsq.
    rewrite Nat2Z.inj_succ, Z.pow_succ_r by lia. lia.
Qed.

End PhaseEstimationProofs.

(** X21. For [m >= 1], and a walk operator whose square counts twice its
    applications, [phase_estimation(walk, m)] yields [3 * m] operations,
    and the applications of [walk] in them, controlled or not, add up to
    [2^(m - 1)] times those of [walk]. *)
Theorem phase_estimation_queries {W : Type} (square : W -> W)
    (power : W -> Z) (walk : W) (m : Z) :
  (forall x, power (square x) = 2 * power x) ->
  1 <= m ->
  exists ops,
    phase_estimation square walk m = Some ops /\
    Z.of_nat (length ops) = 3 * m /\
    queries power ops = power walk * 2 ^ (m - 1).
Proof.
  intros Hsq Hm. unfold phase_estimation.
  rewrite (range_succ 0 m) by lia.
  change (getitem (0 :: range (0 + 1) m) 0) with (Some 0).
  eexists. split; [reflexivity|]. split.
  - cbn [length]. rewrite length_app, rounds_length, range_length.
    cbn [length]. lia.
  - cbn [queries]. rewrite queries_app, rounds_queries by exact Hsq.
    cbn [queries]. rewrite range_length.
    replace (Z.of_nat (Z.to_nat (m - 1))) with (m - 1) by lia. lia.
Qed.

Lemma phase_estimation_queries_witness :
  exists ops,
    phase_estimation (fun x : Z => 2 * x) 1 3 = Some ops /\
    Z.of_nat (length ops) = 3 * 3 /\
    queries (fun x : Z => x) ops = (fun x : Z => x) 1 * 2 ^ (3 - 1).
Proof.
  apply (phase_estimation_queries (fun x : Z => 2 * x) (fun x : Z => x) 1 3).
  - intros x. reflexivity.
  - lia.
Defined.
